(** * ArgDestination: scattering composite arguments into argument registers

    A shallow embedding of [src/coreclr/vm/argdestination.h].  The class
    [ArgDestination] describes where one argument of a managed call lives
    (a base address plus an offset, and for composites that are passed in
    registers a layout descriptor) and offers the operations that copy a
    value there, zero it, and report the managed references it holds.

    The header is compiled in several architecture specific variants; each
    variant is a module of this file:
    - [UnixAmd64]  : [UNIX_AMD64_ABI], the System V eightbyte convention;
    - [Arm64]      : [TARGET_ARM64], homogeneous floating aggregates;
    - [FpStructAbi]: [TARGET_LOONGARCH64] and [TARGET_RISCV64], composites
      split over a floating and an integer register.

    Conventions of the embedding:
    - the register save area is byte addressed memory, [memory := Z -> byte];
      typed accesses are little endian (all targets of the header are);
    - the object [src] points to is a byte buffer with a cursor; an access
      outside the buffer is undefined behaviour of the C++ code;
    - [_ASSERTE] and [INDEBUG] are active in checked builds only, the build
      flavour is the field [_DEBUG] of [Platform];
    - a method returns [Ok], [AssertFailed] (a checked build halted) or
      [Undefined] (null dereference, out of bounds access);
    - [int] values are mathematical integers: all quantities are sizes and
      offsets of composites of a few bytes, far from the 32 bit limits;
      64 bit register values wrap explicitly.

    Two more files of the repository are embedded after the header, over
    the same memory:
    - [SpmiUtil]: the relocation and decoding helpers and the file name
      sanitiser of [src/coreclr/tools/superpmi/superpmi-shared/spmiutil.cpp];
    - [gc_event]: the event serializers of
      [src/coreclr/gc/gcevent_serializers.h].
    [BitVector] is the procedure that decides the identities of masks and
    shifts the proofs about [SpmiUtil] need. *)

From Stdlib Require Import ZArith List Lia Bool Sorted Ascii Btauto.
From coqutil Require Import Byte Word.LittleEndianList.
Import ListNotations.
Local Open Scope Z_scope.

(** ** Outcomes of a method *)

Inductive result (A : Type) : Type :=
| Ok (a : A)
| AssertFailed
| Undefined.
Arguments Ok {A} a.
Arguments AssertFailed {A}.
Arguments Undefined {A}.

Definition bind {A B : Type} (r : result A) (k : A -> result B) : result B :=
  match r with
  | Ok a => k a
  | AssertFailed => AssertFailed
  | Undefined => Undefined
  end.

Declare Scope result_scope.
Delimit Scope result_scope with result.
Notation "x <- c ;; k" := (bind c (fun x => k))
  (at level 61, c at next level, right associativity) : result_scope.
Notation "c ;;; k" := (bind c (fun _ => k))
  (at level 61, right associativity) : result_scope.
Local Open Scope result_scope.

(** Dereferencing a pointer that may be [NULL]. *)
Definition deref {A : Type} (p : option A) : result A :=
  match p with
  | Some a => Ok a
  | None => Undefined
  end.

Definition is_null {A : Type} (p : option A) : bool :=
  match p with
  | Some _ => false
  | None => true
  end.

(** ** Byte addressed memory *)

Definition memory : Type := Z -> byte.

Definition load_bytes (m : memory) (a : Z) (n : nat) : list byte :=
  map (fun i => m (a + Z.of_nat i)) (seq 0 n).

Definition store_bytes (m : memory) (a : Z) (bs : list byte) : memory :=
  fun x =>
    if (a <=? x) && (x <? a + Z.of_nat (length bs))
    then nth (Z.to_nat (x - a)) bs Byte.x00
    else m x.

(** [*(UINTn* )a] as an rvalue and as an lvalue. *)
Definition load_UINT64 (m : memory) (a : Z) : Z := le_combine (load_bytes m a 8).
Definition load_UINT32 (m : memory) (a : Z) : Z := le_combine (load_bytes m a 4).
Definition store_UINT64 (m : memory) (a v : Z) : memory := store_bytes m a (le_split 8 v).
Definition store_UINT32 (m : memory) (a v : Z) : memory := store_bytes m a (le_split 4 v).
Definition store_UINT16 (m : memory) (a v : Z) : memory := store_bytes m a (le_split 2 v).
Definition store_UINT8 (m : memory) (a v : Z) : memory := store_bytes m a (le_split 1 v).

(** [IS_ALIGNED(p, 8)] *)
Definition IS_ALIGNED (p : Z) (alignment : Z) : bool :=
  Z.land p (alignment - 1) =? 0.

(** ** The object behind [void* src] *)

(** [read_src buf off n] are the [n] bytes of the source object at byte
    offset [off]; the access must stay inside the object. *)
Definition read_src (buf : list byte) (off n : Z) : result (list byte) :=
  if (0 <=? off) && (0 <=? n) && (off + n <=? Z.of_nat (length buf))
  then Ok (firstn (Z.to_nat n) (skipn (Z.to_nat off) buf))
  else Undefined.

Definition src_UINT64 (buf : list byte) (off : Z) : result Z :=
  bs <- read_src buf off 8;; Ok (le_combine bs).
Definition src_UINT32 (buf : list byte) (off : Z) : result Z :=
  bs <- read_src buf off 4;; Ok (le_combine bs).
Definition src_UINT16 (buf : list byte) (off : Z) : result Z :=
  bs <- read_src buf off 2;; Ok (le_combine bs).
Definition src_UINT8 (buf : list byte) (off : Z) : result Z :=
  bs <- read_src buf off 1;; Ok (le_combine bs).

(** Two's complement reading of an [n] bit pattern, as [(INT32)] and
    [(INT64)] casts do, and the 64 bit pattern of a signed value. *)
Definition signed (bits : Z) (v : Z) : Z :=
  if v <? 2 ^ (bits - 1) then v else v - 2 ^ bits.
Definition wrap64 (v : Z) : Z := v mod 2 ^ 64.

(** The conversions of an [int] operand that meets a [size_t] or an
    [unsigned] one. *)
Definition to_size_t (v : Z) : Z := v mod 2 ^ 64.
Definition to_unsigned (v : Z) : Z := v mod 2 ^ 32.

(** ** Declarations the header takes from the rest of the runtime *)

Inductive Target : Type :=
| UNIX_AMD64_ABI
| TARGET_ARM64
| TARGET_LOONGARCH64
| TARGET_RISCV64
| TARGET_OTHER.

(** The constants of [TransitionBlock], of the garbage collector interface
    and of the System V classifier are declared outside of this header.
    They are parameters of the development, together with the build
    flavour and the target the header is compiled for. *)
Class Platform : Type := {
  _DEBUG : bool;
  target : Target;
  TransitionBlock_GetOffsetOfArgumentRegisters : Z;
  TransitionBlock_GetOffsetOfFloatArgumentRegisters : Z;
  TransitionBlock_StructInRegsOffset : Z;
  TransitionBlock_IsFloatArgumentRegisterOffset : Z -> bool;
  GC_CALL_INTERIOR : Z;
  CLR_SYSTEMV_MAX_EIGHTBYTES_COUNT_TO_PASS_IN_REGISTERS : Z
}.

(** [_ASSERTE(c)]: halts a checked build when [c] is false, is compiled
    away otherwise. *)
Definition _ASSERTE `{Platform} (c : bool) : result unit :=
  if _DEBUG then (if c then Ok tt else AssertFailed) else Ok tt.

(** [SystemVClassificationType], the classification of one eightbyte. *)
Inductive SystemVClassificationType : Type :=
| SystemVClassificationTypeUnknown
| SystemVClassificationTypeStruct
| SystemVClassificationTypeNoClass
| SystemVClassificationTypeMemory
| SystemVClassificationTypeInteger
| SystemVClassificationTypeIntegerReference
| SystemVClassificationTypeIntegerByRef
| SystemVClassificationTypeSSE.

Definition classification_eqb (a b : SystemVClassificationType) : bool :=
  match a, b with
  | SystemVClassificationTypeUnknown, SystemVClassificationTypeUnknown
  | SystemVClassificationTypeStruct, SystemVClassificationTypeStruct
  | SystemVClassificationTypeNoClass, SystemVClassificationTypeNoClass
  | SystemVClassificationTypeMemory, SystemVClassificationTypeMemory
  | SystemVClassificationTypeInteger, SystemVClassificationTypeInteger
  | SystemVClassificationTypeIntegerReference, SystemVClassificationTypeIntegerReference
  | SystemVClassificationTypeIntegerByRef, SystemVClassificationTypeIntegerByRef
  | SystemVClassificationTypeSSE, SystemVClassificationTypeSSE => true
  | _, _ => false
  end.

(** Modelled from the spec: the class [EEClass] with [GetNumberEightBytes],
    [GetEightByteSize] and [GetEightByteClassification] is declared outside
    of this header.  The eightbyte layout of a composite is an ordered
    sequence of units, each tagged with its classification and its size in
    bytes. *)
Record EightByte : Type := {
  eightByteClassification : SystemVClassificationType;
  eightByteSize : Z
}.

Record EEClass : Type := {
  m_eightBytes : list EightByte
}.

Definition GetNumberEightBytes (eeClass : EEClass) : Z :=
  Z.of_nat (length (m_eightBytes eeClass)).

Definition GetEightByte (eeClass : EEClass) (i : Z) : result EightByte :=
  if i <? 0 then Undefined
  else deref (nth_error (m_eightBytes eeClass) (Z.to_nat i)).

Definition GetEightByteSize (eeClass : EEClass) (i : Z) : result Z :=
  u <- GetEightByte eeClass i;; Ok (eightByteSize u).

Definition GetEightByteClassification (eeClass : EEClass) (i : Z)
  : result SystemVClassificationType :=
  u <- GetEightByte eeClass i;; Ok (eightByteClassification u).

(** Modelled from the spec: [FpStructInRegistersInfo] and the flags of the
    namespace [FpStruct] are declared outside of this header.  A composite
    passed by the hardware floating-point convention has up to two
    sub-fields, each with a byte offset and a size class (the binary
    logarithm of its size, two bits), and a shape flag out of
    {single-floating, both-floating, floating+integer, integer+floating}.
    The shape flags are one bit each in [flags]; the size classes follow
    them. *)
Module FpStruct.
Definition PosOnlyOne : Z := 0.
Definition PosBothFloat : Z := 1.
Definition PosFloatInt : Z := 2.
Definition PosIntFloat : Z := 3.
Definition PosSizeShift1st : Z := 4.
Definition PosSizeShift2nd : Z := 6.

Definition OnlyOne : Z := Z.shiftl 1 PosOnlyOne.
Definition BothFloat : Z := Z.shiftl 1 PosBothFloat.
Definition FloatInt : Z := Z.shiftl 1 PosFloatInt.
Definition IntFloat : Z := Z.shiftl 1 PosIntFloat.
End FpStruct.

Record FpStructInRegistersInfo : Type := {
  flags : Z;
  offset1st : Z;
  offset2nd : Z
}.

Definition SizeShift1st (info : FpStructInRegistersInfo) : Z :=
  Z.land (Z.shiftr (flags info) FpStruct.PosSizeShift1st) 3.
Definition SizeShift2nd (info : FpStructInRegistersInfo) : Z :=
  Z.land (Z.shiftr (flags info) FpStruct.PosSizeShift2nd) 3.
Definition Size1st (info : FpStructInRegistersInfo) : Z :=
  Z.shiftl 1 (SizeShift1st info).
Definition Size2nd (info : FpStructInRegistersInfo) : Z :=
  Z.shiftl 1 (SizeShift2nd info).

(** [ArgLocDesc], as far as the header reads it. *)
Record ArgLocDesc : Type := {
  m_idxFloatReg : Z;
  m_cFloatReg : Z;
  m_idxGenReg : Z;
  m_cGenReg : Z;
  m_hfaFieldSize : Z;                        (* TARGET_ARM64 *)
  m_eeClass : option EEClass;                (* UNIX_AMD64_ABI *)
  m_structFields : FpStructInRegistersInfo   (* LOONGARCH64, RISCV64 *)
}.

(** ** The class [ArgDestination] *)

Record ArgDestination : Type := {
  m_base : Z;
  m_offset : Z;
  m_argLocDescForStructInRegs : option ArgLocDesc
}.

(** The constructor: the member initialisers, then the assertion of the
    target. *)
Definition ArgDestination_ctor `{Platform} (base offset : Z)
    (argLocDescForStructInRegs : option ArgLocDesc) : result ArgDestination :=
  let this := {| m_base := base;
                 m_offset := offset;
                 m_argLocDescForStructInRegs := argLocDescForStructInRegs |} in
  match target with
  | UNIX_AMD64_ABI =>
      _ASSERTE (negb (is_null argLocDescForStructInRegs)
                || negb (offset =? TransitionBlock_StructInRegsOffset));;;
      Ok this
  | TARGET_ARM64 | TARGET_LOONGARCH64 | TARGET_RISCV64 => Ok this
  | TARGET_OTHER =>
      _ASSERTE (is_null argLocDescForStructInRegs);;;
      Ok this
  end.

Definition GetDestinationAddress (this : ArgDestination) : Z :=
  m_base this + m_offset this.

Definition IsIsFloatArgumentRegister `{Platform} (this : ArgDestination) : bool :=
  TransitionBlock_IsFloatArgumentRegisterOffset (m_offset this).

(** ** [UNIX_AMD64_ABI]: composites classified by eightbytes *)

Module UnixAmd64.
Section WithPlatform.
Context `{Platform}.

Definition IsStructPassedInRegs (this : ArgDestination) : bool :=
  m_offset this =? TransitionBlock_StructInRegsOffset.

Definition GetStructFloatRegDestinationAddress (this : ArgDestination) : result Z :=
  _ASSERTE (IsStructPassedInRegs this);;;
  desc <- deref (m_argLocDescForStructInRegs this);;
  let offset := TransitionBlock_GetOffsetOfFloatArgumentRegisters
                + m_idxFloatReg desc * 16 in
  Ok (m_base this + offset).

Definition GetStructGenRegDestinationAddress (this : ArgDestination) : result Z :=
  _ASSERTE (IsStructPassedInRegs this);;;
  desc <- deref (m_argLocDescForStructInRegs this);;
  let offset := TransitionBlock_GetOffsetOfArgumentRegisters
                + m_idxGenReg desc * 8 in
  Ok (m_base this + offset).

(** [memcpyNoGCRefs(dest, src, len)]: a raw byte copy; [len] is a
    [size_t], a negative [int] would be converted to a huge length. *)
Definition memcpyNoGCRefs (m : memory) (dest : Z) (buf : list byte) (src len : Z)
  : result memory :=
  bs <- read_src buf src len;;
  Ok (store_bytes m dest bs).

(** *** [CopyStructToRegisters] *)

(** The locals of [CopyStructToRegisters] that change in the loop, and
    the memory written. *)
Record CopyLocals : Type := {
  src : Z;
  genRegDest : Z;
  floatRegDest : Z;
  remainingBytes : Z;
  destOffset : Z;
  mem : memory
}.

Definition is_integer_class (c : SystemVClassificationType) : bool :=
  classification_eqb c SystemVClassificationTypeInteger
  || classification_eqb c SystemVClassificationTypeIntegerReference
  || classification_eqb c SystemVClassificationTypeIntegerByRef.

(** One iteration of the loop, for the index [i]. *)
Definition CopyStructToRegisters_body (eeClass : EEClass) (buf : list byte)
    (i : Z) (l : CopyLocals) : result CopyLocals :=
  size0 <- GetEightByteSize eeClass i;;
  eightByteClassification <- GetEightByteClassification eeClass i;;
  let eightByteSize := size0 - Z.land (destOffset l) 7 in
  _ASSERTE (remainingBytes l >=? eightByteSize);;;
  l' <- (if classification_eqb eightByteClassification SystemVClassificationTypeSSE
         then
           m' <- (if eightByteSize =? 8
                  then
                    v <- src_UINT64 buf (src l);;
                    Ok (store_UINT64 (mem l) (floatRegDest l) v)
                  else
                    _ASSERTE (eightByteSize =? 4);;;
                    v <- src_UINT32 buf (src l);;
                    Ok (store_UINT32 (mem l) (floatRegDest l) v));;
           Ok {| src := src l;
                 genRegDest := genRegDest l;
                 floatRegDest := floatRegDest l + 16;
                 remainingBytes := remainingBytes l;
                 destOffset := 0;
                 mem := m' |}
         else
           m' <- (if eightByteSize =? 8
                  then
                    _ASSERTE (is_integer_class eightByteClassification);;;
                    _ASSERTE (IS_ALIGNED (genRegDest l) 8);;;
                    v <- src_UINT64 buf (src l);;
                    Ok (store_UINT64 (mem l) (genRegDest l) v)
                  else
                    _ASSERTE (classification_eqb eightByteClassification
                                SystemVClassificationTypeInteger);;;
                    memcpyNoGCRefs (mem l) (genRegDest l) buf (src l) eightByteSize);;
           Ok {| src := src l;
                 genRegDest := genRegDest l + eightByteSize;
                 floatRegDest := floatRegDest l;
                 remainingBytes := remainingBytes l;
                 destOffset := 0;
                 mem := m' |});;
  Ok {| src := src l' + eightByteSize;
        genRegDest := genRegDest l';
        floatRegDest := floatRegDest l';
        remainingBytes := remainingBytes l' - eightByteSize;
        destOffset := destOffset l';
        mem := mem l' |}.

(** [for (; i < eeClass->GetNumberEightBytes(); i++)], with [count]
    iterations left. *)
Fixpoint CopyStructToRegisters_loop (eeClass : EEClass) (buf : list byte)
    (count : nat) (i : Z) (l : CopyLocals) : result CopyLocals :=
  match count with
  | O => Ok l
  | S count' =>
      l' <- CopyStructToRegisters_body eeClass buf i l;;
      CopyStructToRegisters_loop eeClass buf count' (i + 1) l'
  end.

(** The method up to the end of the loop: the locals as the final
    assertion finds them. *)
Definition CopyStructToRegisters_locals (this : ArgDestination) (buf : list byte)
    (fieldBytes destOffset0 : Z) (m : memory) : result CopyLocals :=
  _ASSERTE (IsStructPassedInRegs this);;;
  gen <- GetStructGenRegDestinationAddress this;;
  flt <- GetStructFloatRegDestinationAddress this;;
  desc <- deref (m_argLocDescForStructInRegs this);;
  _ASSERTE (negb (is_null (m_eeClass desc)));;;
  eeClass <- deref (m_eeClass desc);;
  let i0 := Z.quot destOffset0 8 in
  CopyStructToRegisters_loop eeClass buf
    (Z.to_nat (GetNumberEightBytes eeClass - i0)) i0
    {| src := 0;
       genRegDest := gen + destOffset0;
       floatRegDest := flt;
       remainingBytes := fieldBytes;
       destOffset := destOffset0;
       mem := m |}.

Definition CopyStructToRegisters (this : ArgDestination) (buf : list byte)
    (fieldBytes destOffset0 : Z) (m : memory) : result memory :=
  l <- CopyStructToRegisters_locals this buf fieldBytes destOffset0 m;;
  _ASSERTE (remainingBytes l =? 0);;;
  Ok (mem l).

(** *** [ZeroStructInRegisters] *)

(** [long long zeros[CLR_SYSTEMV_MAX_EIGHTBYTES_COUNT_TO_PASS_IN_REGISTERS] = {}] *)
Definition zeros : list byte :=
  repeat Byte.x00
    (Z.to_nat (8 * CLR_SYSTEMV_MAX_EIGHTBYTES_COUNT_TO_PASS_IN_REGISTERS)).

Definition sizeof_zeros : Z := Z.of_nat (length zeros).

Definition ZeroStructInRegisters (this : ArgDestination) (fieldBytes : Z)
    (m : memory) : result memory :=
  _ASSERTE (sizeof_zeros >=? to_size_t fieldBytes);;;
  CopyStructToRegisters this zeros fieldBytes 0 m.

(** *** [ReportPointersFromStructInRegisters] *)

Section Report.
(** [ScanContext] is opaque to the header.  The promotion function may
    relocate the object and rewrite the register slot it is given: it
    acts on a state [GcState] of the collector. *)
Variables ScanContext GcState : Type.

Definition promote_func : Type := Z -> ScanContext -> Z -> GcState -> GcState.

Record ReportLocals : Type := {
  r_genRegDest : Z;
  r_remainingBytes : Z;
  r_gc : GcState
}.

Definition ReportPointers_body (fn : promote_func) (sc : ScanContext)
    (eeClass : EEClass) (i : Z) (l : ReportLocals) : result ReportLocals :=
  eightByteSize <- GetEightByteSize eeClass i;;
  eightByteClassification <- GetEightByteClassification eeClass i;;
  _ASSERTE (r_remainingBytes l >=? eightByteSize);;;
  l' <- (if negb (classification_eqb eightByteClassification
                    SystemVClassificationTypeSSE)
         then
           gc' <- (if classification_eqb eightByteClassification
                        SystemVClassificationTypeIntegerReference
                      || classification_eqb eightByteClassification
                           SystemVClassificationTypeIntegerByRef
                   then
                     _ASSERTE (eightByteSize =? 8);;;
                     _ASSERTE (IS_ALIGNED (r_genRegDest l) 8);;;
                     let flags :=
                       if classification_eqb eightByteClassification
                            SystemVClassificationTypeIntegerByRef
                       then GC_CALL_INTERIOR else 0 in
                     Ok (fn (r_genRegDest l) sc flags (r_gc l))
                   else Ok (r_gc l));;
           Ok {| r_genRegDest := r_genRegDest l + eightByteSize;
                 r_remainingBytes := r_remainingBytes l;
                 r_gc := gc' |}
         else Ok l);;
  Ok {| r_genRegDest := r_genRegDest l';
        r_remainingBytes := r_remainingBytes l' - eightByteSize;
        r_gc := r_gc l' |}.

Fixpoint ReportPointers_loop (fn : promote_func) (sc : ScanContext)
    (eeClass : EEClass) (count : nat) (i : Z) (l : ReportLocals)
  : result ReportLocals :=
  match count with
  | O => Ok l
  | S count' =>
      l' <- ReportPointers_body fn sc eeClass i l;;
      ReportPointers_loop fn sc eeClass count' (i + 1) l'
  end.

Definition ReportPointers_locals (this : ArgDestination) (fn : promote_func)
    (sc : ScanContext) (fieldBytes : Z) (gc : GcState) : result ReportLocals :=
  _ASSERTE (IsStructPassedInRegs this);;;
  gen <- GetStructGenRegDestinationAddress this;;
  desc <- deref (m_argLocDescForStructInRegs this);;
  _ASSERTE (negb (is_null (m_eeClass desc)));;;
  eeClass <- deref (m_eeClass desc);;
  ReportPointers_loop fn sc eeClass
    (Z.to_nat (GetNumberEightBytes eeClass - 0)) 0
    {| r_genRegDest := gen; r_remainingBytes := fieldBytes; r_gc := gc |}.

Definition ReportPointersFromStructInRegisters (this : ArgDestination)
    (fn : promote_func) (sc : ScanContext) (fieldBytes : Z) (gc : GcState)
  : result GcState :=
  l <- ReportPointers_locals this fn sc fieldBytes gc;;
  _ASSERTE (r_remainingBytes l =? 0);;;
  Ok (r_gc l).
End Report.

End WithPlatform.
End UnixAmd64.

(** ** [TARGET_ARM64]: homogeneous floating aggregates *)

Module Arm64.

Definition IsHFA (this : ArgDestination) : bool :=
  negb (is_null (m_argLocDescForStructInRegs this)).

(** The locals of [CopyHFAStructToRegister] that change in the loop,
    and the memory written. *)
Record HfaLocals : Type := {
  src : Z;
  dest : Z;
  mem : memory
}.

(** One iteration: [dest] is a [UINT64*], each [dest++] moves 8 bytes. *)
Definition CopyHFAStructToRegister_body (buf : list byte) (hfaFieldSize : Z)
    (l : HfaLocals) : result HfaLocals :=
  val <- (if hfaFieldSize =? 4
          then src_UINT32 buf (src l)
          else src_UINT64 buf (src l));;
  let m1 := store_UINT64 (mem l) (dest l) val in
  upper <- (if hfaFieldSize =? 16
            then src_UINT64 buf (src l + 8)
            else Ok 0);;
  let m2 := store_UINT64 m1 (dest l + 8) upper in
  Ok {| src := src l + hfaFieldSize;
        dest := dest l + 8 + 8;
        mem := m2 |}.

Fixpoint CopyHFAStructToRegister_loop (buf : list byte) (hfaFieldSize : Z)
    (count : nat) (l : HfaLocals) : result HfaLocals :=
  match count with
  | O => Ok l
  | S count' =>
      l' <- CopyHFAStructToRegister_body buf hfaFieldSize l;;
      CopyHFAStructToRegister_loop buf hfaFieldSize count' l'
  end.

Definition CopyHFAStructToRegister_locals (this : ArgDestination) (buf : list byte)
    (fieldBytes : Z) (m : memory) : result HfaLocals :=
  desc <- deref (m_argLocDescForStructInRegs this);;
  let floatRegCount := m_cFloatReg desc in
  let hfaFieldSize := m_hfaFieldSize desc in
  CopyHFAStructToRegister_loop buf hfaFieldSize (Z.to_nat (floatRegCount - 0))
    {| src := 0; dest := GetDestinationAddress this; mem := m |}.

Definition CopyHFAStructToRegister (this : ArgDestination) (buf : list byte)
    (fieldBytes : Z) (m : memory) : result memory :=
  l <- CopyHFAStructToRegister_locals this buf fieldBytes m;;
  Ok (mem l).

End Arm64.

(** ** [TARGET_LOONGARCH64], [TARGET_RISCV64]: the hardware floating-point
    convention for composites of up to two fields *)

Module FpStructAbi.
Section WithPlatform.
Context `{Platform}.

(** [static_assert(sizeof( *floatReg) == FLOAT_REGISTER_SIZE)] with
    [INT64* floatReg]; both targets have 64 bit pointers. *)
Definition FLOAT_REGISTER_SIZE : Z := 8.
Definition TARGET_POINTER_SIZE : Z := 8.

Definition IsStructPassedInRegs (this : ArgDestination) : bool :=
  negb (is_null (m_argLocDescForStructInRegs this)).

(** [static const INT64 NanBox] *)
Definition NanBox : Z :=
  match target with
  | TARGET_RISCV64 => signed 64 0xffffffff00000000
  | _ => 0
  end.

(** [info.flags & mask] as a condition. *)
Definition has_flag (info : FpStructInRegistersInfo) (mask : Z) : bool :=
  negb (Z.land (flags info) mask =? 0).

Definition src_INT64 (buf : list byte) (off : Z) : result Z :=
  v <- src_UINT64 buf off;; Ok (signed 64 v).
Definition src_INT32 (buf : list byte) (off : Z) : result Z :=
  v <- src_UINT32 buf off;; Ok (signed 32 v).
Definition src_INT16 (buf : list byte) (off : Z) : result Z :=
  v <- src_UINT16 buf off;; Ok (signed 16 v).
Definition src_INT8 (buf : list byte) (off : Z) : result Z :=
  v <- src_UINT8 buf off;; Ok (signed 8 v).

(** Stores through [INTn*]: the two's complement pattern of the value. *)
Definition store_INT64 (m : memory) (a v : Z) : memory := store_UINT64 m a (wrap64 v).
Definition store_INT32 (m : memory) (a v : Z) : memory := store_UINT32 m a (v mod 2 ^ 32).
Definition store_INT16 (m : memory) (a v : Z) : memory := store_UINT16 m a (v mod 2 ^ 16).
Definition store_INT8 (m : memory) (a v : Z) : memory := store_UINT8 m a (v mod 2 ^ 8).

(** [(sizeShift == 3) ? *(INT64* )field : NanBox | *(INT32* )field] *)
Definition float_field_value (buf : list byte) (sizeShift field : Z) : result Z :=
  if sizeShift =? 3
  then src_INT64 buf field
  else v <- src_INT32 buf field;; Ok (Z.lor NanBox v).

(** The pattern a checked RISC-V build leaves in the integer register
    before the field is copied. *)
Definition trash : Z := 0xDadAddedC0ffee00.

Definition CopyStructToRegisters (this : ArgDestination) (buf : list byte)
    (fieldBytes destOffset : Z) (m : memory) : result memory :=
  _ASSERTE (IsStructPassedInRegs this);;;
  _ASSERTE (destOffset =? 0);;;
  _ASSERTE (fieldBytes <=? 16);;;
  desc <- deref (m_argLocDescForStructInRegs this);;
  let info := m_structFields desc in
  _ASSERTE (m_cFloatReg desc =? (if has_flag info FpStruct.BothFloat then 2 else 1));;;
  _ASSERTE (m_cGenReg desc
            =? (if has_flag info (Z.lor FpStruct.FloatInt FpStruct.IntFloat)
                then 1 else 0));;;
  _ASSERTE (to_unsigned (offset2nd info + Size2nd info) <=? to_unsigned fieldBytes);;;
  let floatRegOffset := TransitionBlock_GetOffsetOfFloatArgumentRegisters
                        + m_idxFloatReg desc * FLOAT_REGISTER_SIZE in
  let floatReg := m_base this + floatRegOffset in
  (* copy first floating field *)
  s1 <- (if has_flag info (Z.lor FpStruct.OnlyOne
                             (Z.lor FpStruct.BothFloat FpStruct.FloatInt))
         then
           let field := 0 + offset1st info in
           v <- float_field_value buf (SizeShift1st info) field;;
           Ok (floatReg + FLOAT_REGISTER_SIZE, store_INT64 m floatReg v)
         else Ok (floatReg, m));;
  (* copy second floating field *)
  m2 <- (if has_flag info (Z.lor FpStruct.BothFloat FpStruct.IntFloat)
         then
           let field := 0 + offset2nd info in
           v <- float_field_value buf (SizeShift2nd info) field;;
           Ok (store_INT64 (snd s1) (fst s1) v)
         else Ok (snd s1));;
  (* copy integer field *)
  if has_flag info (Z.lor FpStruct.FloatInt FpStruct.IntFloat)
  then
    let intRegOffset := TransitionBlock_GetOffsetOfArgumentRegisters
                        + m_idxGenReg desc * TARGET_POINTER_SIZE in
    let intReg := m_base this + intRegOffset in
    let m3 := match target with
              | TARGET_RISCV64 => if _DEBUG then store_INT64 m2 intReg trash else m2
              | _ => m2
              end in
    let offset := if has_flag info FpStruct.IntFloat
                  then offset1st info else offset2nd info in
    let field := 0 + offset in
    let sizeShift := if has_flag info FpStruct.IntFloat
                     then SizeShift1st info else SizeShift2nd info in
    match sizeShift with
    | 0 => v <- src_INT8 buf field;; Ok (store_INT8 m3 intReg v)
    | 1 => v <- src_INT16 buf field;; Ok (store_INT16 m3 intReg v)
    | 2 => v <- src_INT32 buf field;; Ok (store_INT32 m3 intReg v)
    | 3 => v <- src_INT64 buf field;; Ok (store_INT64 m3 intReg v)
    | _ => _ASSERTE false;;; Ok m3
    end
  else Ok m2.

(** [TARGET_RISCV64] only. *)
Definition CopySingleFloatToRegister (this : ArgDestination) (buf : list byte)
    (m : memory) : result memory :=
  let dest := GetDestinationAddress this in
  value <- src_UINT32 buf 0;;
  if TransitionBlock_IsFloatArgumentRegisterOffset (m_offset this)
  then
    (* NaN-box the floating register value *)
    Ok (store_UINT64 m dest (Z.lor 0xffffffff00000000 value))
  else
    (* the upper bits are not specified *)
    Ok (store_UINT32 m dest value).

Definition GetStructGenRegDestinationAddress (this : ArgDestination) : result Z :=
  _ASSERTE (IsStructPassedInRegs this);;;
  desc <- deref (m_argLocDescForStructInRegs this);;
  let argOfs := TransitionBlock_GetOffsetOfArgumentRegisters + m_idxGenReg desc * 8 in
  Ok (m_base this + argOfs).

End WithPlatform.
End FpStructAbi.

(** * Bit vectors: deciding identities of masks and shifts

    The instruction patching helpers are compositions of [&], [|], [^],
    [~], shifts by constants and truncations.  An identity between two
    such expressions over words of at most [n] bits holds when it holds
    for each of the [n] bits; the bit of an expression at a given index is
    computed from the bits of its variables. *)

Module BitVector.

Inductive expr : Type :=
| Var (v : nat)
| Lit (z : Z)
| And (a b : expr)
| Or (a b : expr)
| Xor (a b : expr)
| Not (a : expr)
| Shl (a : expr) (k : Z)
| Shr (a : expr) (k : Z)
| Low (a : expr) (k : Z).

Fixpoint denote (env : list Z) (e : expr) : Z :=
  match e with
  | Var v => nth v env 0
  | Lit z => z
  | And a b => Z.land (denote env a) (denote env b)
  | Or a b => Z.lor (denote env a) (denote env b)
  | Xor a b => Z.lxor (denote env a) (denote env b)
  | Not a => Z.lnot (denote env a)
  | Shl a k => Z.shiftl (denote env a) k
  | Shr a k => Z.shiftr (denote env a) k
  | Low a k => denote env a mod 2 ^ k
  end.

(** One bit of an expression: a formula over the bits of the variables. *)
Inductive form : Type :=
| FConst (b : bool)
| FBit (v : nat) (i : Z)
| FAnd (a b : form)
| FOr (a b : form)
| FXor (a b : form)
| FNot (a : form).

Fixpoint interp (val : nat -> Z -> bool) (f : form) : bool :=
  match f with
  | FConst b => b
  | FBit v i => val v i
  | FAnd a b => interp val a && interp val b
  | FOr a b => interp val a || interp val b
  | FXor a b => xorb (interp val a) (interp val b)
  | FNot a => negb (interp val a)
  end.

(** The connectives, with the constants folded. *)
Definition fand (a b : form) : form :=
  match a, b with
  | FConst false, _ => FConst false
  | FConst true, _ => b
  | _, FConst false => FConst false
  | _, FConst true => a
  | _, _ => FAnd a b
  end.

Definition for_ (a b : form) : form :=
  match a, b with
  | FConst true, _ => FConst true
  | FConst false, _ => b
  | _, FConst true => FConst true
  | _, FConst false => a
  | _, _ => FOr a b
  end.

Definition fnot (a : form) : form :=
  match a with
  | FConst b => FConst (negb b)
  | _ => FNot a
  end.

Definition fxor (a b : form) : form :=
  match a, b with
  | FConst false, _ => b
  | FConst true, _ => fnot b
  | _, FConst false => a
  | _, FConst true => fnot a
  | _, _ => FXor a b
  end.

(** The bit [i] of [e], for [0 <= i]; [ws] gives the number of bits of
    the variables that are known to be non-negative and bounded. *)
Fixpoint bit (ws : list (option Z)) (e : expr) (i : Z) : form :=
  match e with
  | Var v =>
      match nth v ws None with
      | Some w => if i <? w then FBit v i else FConst false
      | None => FBit v i
      end
  | Lit z => FConst (Z.testbit z i)
  | And a b => fand (bit ws a i) (bit ws b i)
  | Or a b => for_ (bit ws a i) (bit ws b i)
  | Xor a b => fxor (bit ws a i) (bit ws b i)
  | Not a => fnot (bit ws a i)
  | Shl a k => if i - k <? 0 then FConst false else bit ws a (i - k)
  | Shr a k => if i + k <? 0 then FConst false else bit ws a (i + k)
  | Low a k => if (k <? 0) || (i <? k) then bit ws a i else FConst false
  end.

(** A number of bits that holds the value of [e], when the syntax shows
    one. *)
Fixpoint width (ws : list (option Z)) (e : expr) : option Z :=
  match e with
  | Var v => nth v ws None
  | Lit z => if z <? 0 then None else Some (Z.log2 z + 1)
  | And a b =>
      match width ws a, width ws b with
      | Some x, Some y => Some (Z.min x y)
      | Some x, None => Some x
      | None, Some y => Some y
      | None, None => None
      end
  | Or a b | Xor a b =>
      match width ws a, width ws b with
      | Some x, Some y => Some (Z.max x y)
      | _, _ => None
      end
  | Not _ => None
  | Shl a k =>
      if k <? 0 then None
      else match width ws a with
           | Some x => Some (x + k)
           | None => None
           end
  | Shr a k => if k <? 0 then None else width ws a
  | Low a k => if k <? 0 then None else Some k
  end.

Definition fits (ws : list (option Z)) (e : expr) (n : nat) : bool :=
  match width ws e with
  | Some w => w <=? Z.of_nat n
  | None => false
  end.

(** The variables are in the range [ws] states. *)
Definition bounded (env : list Z) (ws : list (option Z)) : Prop :=
  Forall2 (fun x w => match w with
                      | Some w => 0 <= x < 2 ^ w
                      | None => True
                      end) env ws.

Definition bits_of (env : list Z) : nat -> Z -> bool :=
  fun v i => Z.testbit (nth v env 0) i.

Definition indices (n : nat) : list Z := map Z.of_nat (seq 0 n).

End BitVector.

(** * superpmi: instruction patching and file names

    A shallow embedding of the relocation and decoding helpers and of the
    file name sanitiser of
    [src/coreclr/tools/superpmi/superpmi-shared/spmiutil.cpp].

    The code that is patched is byte addressed memory as above; an
    instruction is read and written through [UINT32*] and [UINT16*], little
    endian.  [INT32] arguments are mathematical integers, [>>] on them is
    the arithmetic shift; the operands of the other bit operations are
    masked, non-negative values.  A conversion is written out where a value
    is narrowed ([to_UINT16]) or where a negative [int] meets an unsigned
    operand ([to_unsigned]).  A decoder returns [Some] of the values it
    stores through its out parameters when its result is [true], and [None]
    when its result is [false] (the out parameters are then not written). *)

Module SpmiUtil.

Definition to_UINT16 (v : Z) : Z := v mod 2 ^ 16.

Definition load_UINT16 (m : memory) (a : Z) : Z := le_combine (load_bytes m a 2).

(** *** Relocations of arm64 code *)



(** [imm12 << 10] is an [INT32]; its bit pattern is what is or-ed in. *)
Definition PutArm64Rel12 (m : memory) (pCode imm12 : Z) : memory :=
  let addInstr := load_UINT32 m pCode in
  let addInstr := Z.land addInstr 0xFFC003FF in
  let addInstr := Z.lor addInstr (to_unsigned (Z.shiftl imm12 10)) in
  store_UINT32 m pCode addInstr.

(** *** Relocations of Thumb-2 code: [p] is a [UINT16*], [p[1]] lies two
    bytes after [p[0]] *)

Definition PutThumb2Imm16 (m : memory) (p imm16 : Z) : memory :=
  let Opcode0 := load_UINT16 m p in
  let Opcode1 := load_UINT16 m (p + 2) in
  let Opcode0 := to_UINT16 (Z.land Opcode0
                   (Z.lnot (Z.lor (Z.shiftr 0xf000 12) (Z.shiftr 0x0800 1)))) in
  let Opcode1 := to_UINT16 (Z.land Opcode1
                   (Z.lnot (Z.lor (Z.shiftl 0x0700 4) (Z.shiftl 0x00ff 0)))) in
  let Opcode0 := to_UINT16 (Z.lor Opcode0 (Z.shiftr (Z.land imm16 0xf000) 12)) in
  let Opcode0 := to_UINT16 (Z.lor Opcode0 (Z.shiftr (Z.land imm16 0x0800) 1)) in
  let Opcode1 := to_UINT16 (Z.lor Opcode1 (Z.shiftl (Z.land imm16 0x0700) 4)) in
  let Opcode1 := to_UINT16 (Z.lor Opcode1 (Z.shiftl (Z.land imm16 0x00ff) 0)) in
  let m := store_UINT16 m p Opcode0 in
  store_UINT16 m (p + 2) Opcode1.

(** [p + 2] on a [UINT16*] is four bytes further. *)
Definition PutThumb2Mov32 (m : memory) (p imm32 : Z) : memory :=
  let m := PutThumb2Imm16 m p (to_UINT16 imm32) in
  PutThumb2Imm16 m (p + 4) (to_UINT16 (Z.shiftr imm32 16)).

Definition PutThumb2BlRel24 (m : memory) (p imm24 : Z) : memory :=
  let Opcode0 := load_UINT16 m p in
  let Opcode1 := load_UINT16 m (p + 2) in
  let Opcode0 := to_UINT16 (Z.land Opcode0 0xF800) in
  let Opcode1 := to_UINT16 (Z.land Opcode1 0xD000) in
  let S := Z.shiftr (Z.land imm24 0x1000000) 24 in
  let J1 := Z.lxor (Z.lxor (Z.shiftr (Z.land imm24 0x0800000) 23) S) 1 in
  let J2 := Z.lxor (Z.lxor (Z.shiftr (Z.land imm24 0x0400000) 22) S) 1 in
  let Opcode0 := to_UINT16 (Z.lor Opcode0
                   (Z.lor (Z.shiftr (Z.land imm24 0x03FF000) 12) (Z.shiftl S 10))) in
  let Opcode1 := to_UINT16 (Z.lor Opcode1
                   (Z.lor (Z.lor (Z.shiftr (Z.land imm24 0x0000FFE) 1) (Z.shiftl J1 13))
                          (Z.shiftl J2 11))) in
  let m := store_UINT16 m p Opcode0 in
  store_UINT16 m (p + 2) Opcode1.

(** *** Decoding arm64 [mov] and [movk] *)

(** The result is [(reg, con)]. *)
Definition GetArm64MovConstant (m : memory) (p : Z) : option (Z * Z) :=
  let instr := load_UINT32 m p in
  if Z.land instr 0xffe00000 =? 0xd2800000
  then Some (Z.land instr 0x1f, Z.land (Z.shiftr instr 5) 0xffff)
  else None.

(** The result is [(reg, con, shift)]. *)
Definition GetArm64MovkConstant (m : memory) (p : Z) : option (Z * Z * Z) :=
  let instr := load_UINT32 m p in
  if Z.land instr 0xff800000 =? 0xf2800000
  then Some (Z.land instr 0x1f,
             Z.land (Z.shiftr instr 5) 0xffff,
             Z.land (Z.shiftr instr 21) 0x3 * 16)
  else None.

(** [~(0xffff << 5)] is a negative [int], converted to [UINT32] by [&]. *)
Definition PutArm64MovkConstant (m : memory) (p con : Z) : memory :=
  store_UINT32 m p
    (Z.lor (Z.land (load_UINT32 m p) (to_unsigned (Z.lnot (Z.shiftl 0xffff 5))))
           (Z.shiftl (Z.land con 0xffff) 5)).

(** *** Decoding Thumb-2 [movw] and [movt] *)

Definition Is32BitThumb2Instruction (m : memory) (p : Z) : bool :=
  let instr1 := load_UINT16 m p in
  if Z.land instr1 0xf800 <? 0xe800
  then false
  else true.

Definition ExtractArm32MovImm (instr : Z) : Z :=
  let imm4 := Z.land (Z.shiftr instr 16) 0xf in
  let i := Z.land (Z.shiftr instr 26) 0x1 in
  let imm3 := Z.land (Z.shiftr instr 12) 0x7 in
  let imm8 := Z.land instr 0xff in
  Z.lor (Z.lor (Z.lor (Z.shiftl imm4 12) (Z.shiftl i 11)) (Z.shiftl imm3 8)) imm8.

(** The result is [(reg, con)]; [(instr1 << 16) | instr2] is converted to
    [UINT32]. *)
Definition GetArm32MovwConstant (m : memory) (p : Z) : option (Z * Z) :=
  if negb (Is32BitThumb2Instruction m p)
  then None
  else
    let instr1 := load_UINT16 m p in
    let instr2 := load_UINT16 m (p + 2) in
    let instr := to_unsigned (Z.lor (Z.shiftl instr1 16) instr2) in
    if negb (Z.land instr 0xfbf08000 =? 0xf2400000)
    then None
    else Some (Z.shiftr (Z.land instr 0xf00) 8, ExtractArm32MovImm instr).

Definition GetArm32MovtConstant (m : memory) (p : Z) : option (Z * Z) :=
  if negb (Is32BitThumb2Instruction m p)
  then None
  else
    let instr1 := load_UINT16 m p in
    let instr2 := load_UINT16 m (p + 2) in
    let instr := to_unsigned (Z.lor (Z.shiftl instr1 16) instr2) in
    if negb (Z.land instr 0xfbf08000 =? 0xf2C00000)
    then None
    else Some (Z.shiftr (Z.land instr 0xf00) 8, ExtractArm32MovImm instr).


(** *** [ReplaceIllegalCharacters] *)

(** [W('c')]: the code unit of an ASCII character. *)
Definition W (c : Ascii.ascii) : Z := Z.of_N (Ascii.N_of_ascii c).

(** The code units of the backslash and of the double quote. *)
Definition backslash_character : Z := 92.
Definition quote_character : Z := 34.

(** The characters of the [switch] that become an underscore. *)
Definition illegal_characters : list Z :=
  [W "("; W ")"; W "="; W "<"; W ">"; W ":"; W "/"; backslash_character;
   W "|"; W "?"; W "!"; W "*"; W "."; W ","]%char.

(** The body of the loop: the value of [*quote] after the iteration
    that found [ch] there. *)
Definition ReplaceIllegalCharacters_body (ch : Z) : Z :=
  if (ch <=? 32) || (ch >=? 127)
  then W "_"
  else if existsb (Z.eqb ch) illegal_characters
       then W "_"
       else if ch =? quote_character
            then W " "
            else ch.

(** [fileName] points into an array of [WCHAR]; the list holds the code
    units from [fileName] to the end of the array.  The loop runs up to the
    first [0]; without one it leaves the array. *)
Fixpoint ReplaceIllegalCharacters (fileName : list Z) : result (list Z) :=
  match fileName with
  | [] => Undefined
  | ch :: rest =>
      if negb (ch =? 0)
      then
        rest' <- ReplaceIllegalCharacters rest;;
        Ok (ReplaceIllegalCharacters_body ch :: rest')
      else Ok fileName
  end.

End SpmiUtil.

(** * Serialization of dynamic events

    A shallow embedding of [src/coreclr/gc/gcevent_serializers.h].  A
    [uint8_t** buffer] is the pair of the pointer it holds and the memory
    that pointer refers to.  [memcpy] from the address of a value copies
    the object representation of the value, which depends on the host;
    the build defines [BIGENDIAN] for a big endian host.  A [float] is its
    32 bit pattern. *)

Module gc_event.

Class Host : Type := {
  BIGENDIAN : bool
}.

(** The pointer [*buffer] and the memory it points into. *)
Record Output : Type := {
  buffer : Z;
  written : memory
}.

Inductive uint8_t : Type := UINT8 (value : Z).
Inductive uint16_t : Type := UINT16 (value : Z).
Inductive uint32_t : Type := UINT32 (value : Z).
Inductive uint64_t : Type := UINT64 (value : Z).
Inductive float : Type := FLOAT (bits : Z).

(** [template<class T> struct EventSerializationTraits] *)
Class EventSerializationTraits (T : Type) : Type := {
  Serialize : T -> Output -> Output;
  SerializedSize : T -> Z
}.

Section WithHost.
Context `{Host}.

(** The [n] bytes of an unsigned value or of a bit pattern in the memory
    of the host. *)
Definition object_representation (n : nat) (v : Z) : list byte :=
  if BIGENDIAN then rev (le_split n v) else le_split n v.

Definition ByteSwap16 (v : Z) : Z := le_combine (rev (le_split 2 v)).
Definition ByteSwap32 (v : Z) : Z := le_combine (rev (le_split 4 v)).
Definition ByteSwap64 (v : Z) : Z := le_combine (rev (le_split 8 v)).

(** [memcpy( *buffer, &value, n)] *)
Definition memcpy (out : Output) (representation : list byte) : memory :=
  store_bytes (written out) (buffer out) representation.

#[export] Instance EventSerializationTraits_uint8_t : EventSerializationTraits uint8_t := {|
  Serialize := fun '(UINT8 value) out =>
    let m := store_UINT8 (written out) (buffer out) value in
    {| buffer := buffer out + 1; written := m |};
  SerializedSize := fun _ => 1
|}.

#[export] Instance EventSerializationTraits_uint16_t : EventSerializationTraits uint16_t := {|
  Serialize := fun '(UINT16 value) out =>
    let m := if BIGENDIAN
             then
               let swapped := ByteSwap16 value in
               memcpy out (object_representation 2 swapped)
             else memcpy out (object_representation 2 value) in
    {| buffer := buffer out + 2; written := m |};
  SerializedSize := fun _ => 2
|}.

#[export] Instance EventSerializationTraits_uint32_t : EventSerializationTraits uint32_t := {|
  Serialize := fun '(UINT32 value) out =>
    let m := if BIGENDIAN
             then
               let swapped := ByteSwap32 value in
               memcpy out (object_representation 4 swapped)
             else memcpy out (object_representation 4 value) in
    {| buffer := buffer out + 4; written := m |};
  SerializedSize := fun _ => 4
|}.

#[export] Instance EventSerializationTraits_uint64_t : EventSerializationTraits uint64_t := {|
  Serialize := fun '(UINT64 value) out =>
    let m := if BIGENDIAN
             then
               let swapped := ByteSwap64 value in
               memcpy out (object_representation 8 swapped)
             else memcpy out (object_representation 8 value) in
    {| buffer := buffer out + 8; written := m |};
  SerializedSize := fun _ => 8
|}.

#[export] Instance EventSerializationTraits_float : EventSerializationTraits float := {|
  Serialize := fun '(FLOAT bits) out =>
    let m := memcpy out (object_representation 4 bits) in
    {| buffer := buffer out + 4; written := m |};
  SerializedSize := fun _ => 4
|}.

End WithHost.

(** One argument of the variadic helpers: a value of a type that
    implements the trait. *)
Inductive Arg : Type :=
| arg {T : Type} {traits : EventSerializationTraits T} (value : T).

Definition Serialize_arg (a : Arg) (out : Output) : Output :=
  match a with
  | @arg _ traits value => @Serialize _ traits value out
  end.

Definition SerializedSize_arg (a : Arg) : Z :=
  match a with
  | @arg _ traits value => @SerializedSize _ traits value
  end.

(** [SerializedSize(head, tail...)] *)
Fixpoint SerializedSize_list (head : Arg) (tail : list Arg) : Z :=
  match tail with
  | [] => SerializedSize_arg head
  | head' :: tail' => SerializedSize_arg head + SerializedSize_list head' tail'
  end.

(** [Serialize(buf, head, tail...)] *)
Fixpoint Serialize_list (buf : Output) (head : Arg) (tail : list Arg) : Output :=
  match tail with
  | [] => Serialize_arg head buf
  | head' :: tail' =>
      let buf := Serialize_arg head buf in
      Serialize_list buf head' tail'
  end.

End gc_event.


(** * Vocabulary of the statements *)

(** ** Eightbyte layouts *)

Definition is_sse (u : EightByte) : bool :=
  classification_eqb (eightByteClassification u) SystemVClassificationTypeSSE.

(** A unit the collector has to see: an exact or an interior reference. *)
Definition is_reference (u : EightByte) : bool :=
  classification_eqb (eightByteClassification u) SystemVClassificationTypeIntegerReference
  || classification_eqb (eightByteClassification u) SystemVClassificationTypeIntegerByRef.

Definition is_byref (u : EightByte) : bool :=
  classification_eqb (eightByteClassification u) SystemVClassificationTypeIntegerByRef.

(** The declared sizes of the units, summed. *)
Definition total_size (us : list EightByte) : Z :=
  fold_right (fun u acc => eightByteSize u + acc) 0 us.

(** The bytes the units take in the integer registers. *)
Definition gen_size (us : list EightByte) : Z :=
  total_size (filter (fun u => negb (is_sse u)) us).

(** The address in the integer register area that belongs to each unit
    of a layout laid out from [gen] on: units that are not floating are
    packed one after the other. *)
Fixpoint GenRegSlots (gen : Z) (us : list EightByte) : list Z :=
  match us with
  | [] => []
  | u :: us' => gen :: GenRegSlots (if is_sse u then gen else gen + eightByteSize u) us'
  end.

Definition placed (gen : Z) (us : list EightByte) : list (Z * EightByte) :=
  combine (GenRegSlots gen us) us.

(** The invocations of the promotion function a layout calls for: one
    per reference unit, in the order of the units, each with the address
    of the unit's slot and the flag of its kind. *)
Definition promote_flags `{Platform} (u : EightByte) : Z :=
  if is_byref u then GC_CALL_INTERIOR else 0.

Definition promotions `{Platform} (gen : Z) (us : list EightByte) : list (Z * Z) :=
  map (fun p => (fst p, promote_flags (snd p)))
      (filter (fun p => is_reference (snd p)) (placed gen us)).

Definition references_aligned (gen : Z) (us : list EightByte) : Prop :=
  Forall (fun p => is_reference (snd p) = true -> IS_ALIGNED (fst p) 8 = true)
         (placed gen us).

(** What the assertions of [ReportPointersFromStructInRegisters] ask of
    a layout laid out from [gen] on, with [remaining] bytes declared. *)
Definition report_consistent (gen : Z) (us : list EightByte) (remaining : Z) : Prop :=
  Forall (fun u => 0 <= eightByteSize u) us
  /\ Forall (fun u => is_reference u = true -> eightByteSize u = 8) us
  /\ references_aligned gen us
  /\ total_size us <= remaining.

(** The effect of a sequence of invocations on the collector's state. *)
Definition apply_promotions {ScanContext GcState : Type}
    (fn : Z -> ScanContext -> Z -> GcState -> GcState) (sc : ScanContext)
    (calls : list (Z * Z)) (gc : GcState) : GcState :=
  fold_left (fun g c => fn (fst c) sc (snd c) g) calls gc.

(** A promotion function that only records how it was invoked. *)
Definition record_call (addr : Z) (sc : unit) (flags : Z) (log : list (Z * Z))
  : list (Z * Z) := log ++ [(addr, flags)].

(** The descriptor of an argument destination that denotes a composite
    in registers with the eightbyte layout [eeClass]. *)
Definition describes (this : ArgDestination) (desc : ArgLocDesc) (eeClass : EEClass)
  : Prop :=
  m_argLocDescForStructInRegs this = Some desc /\ m_eeClass desc = Some eeClass.

(** The start of the integer and of the floating register slots of a
    composite in registers. *)
Definition GenRegBase `{Platform} (this : ArgDestination) (desc : ArgLocDesc) : Z :=
  m_base this + (TransitionBlock_GetOffsetOfArgumentRegisters + m_idxGenReg desc * 8).

Definition FloatRegBase `{Platform} (this : ArgDestination) (desc : ArgLocDesc) : Z :=
  m_base this + (TransitionBlock_GetOffsetOfFloatArgumentRegisters + m_idxFloatReg desc * 16).

(** A System V transition block to run the model on: the integer argument
    registers at the start of the block, the eight floating argument
    registers below it. *)
Definition unix_amd64 (debug : bool) : Platform := {|
  _DEBUG := debug;
  target := UNIX_AMD64_ABI;
  TransitionBlock_GetOffsetOfArgumentRegisters := 0;
  TransitionBlock_GetOffsetOfFloatArgumentRegisters := -128;
  TransitionBlock_StructInRegsOffset := -2;
  TransitionBlock_IsFloatArgumentRegisterOffset := fun offset => offset <? 0;
  GC_CALL_INTERIOR := 1;
  CLR_SYSTEMV_MAX_EIGHTBYTES_COUNT_TO_PASS_IN_REGISTERS := 2
|}.

Definition unit_of (c : SystemVClassificationType) (size : Z) : EightByte :=
  {| eightByteClassification := c; eightByteSize := size |}.

(** A descriptor of a composite in registers with the given eightbytes,
    starting at the first integer and the first floating register. *)
Definition desc_of_units (us : list EightByte) : ArgLocDesc := {|
  m_idxFloatReg := 0;
  m_cFloatReg := Z.of_nat (length (filter is_sse us));
  m_idxGenReg := 0;
  m_cGenReg := Z.of_nat (length (filter (fun u => negb (is_sse u)) us));
  m_hfaFieldSize := 0;
  m_eeClass := Some {| m_eightBytes := us |};
  m_structFields := {| flags := 0; offset1st := 0; offset2nd := 0 |}
|}.

Definition struct_in_regs `{Platform} (base : Z) (us : list EightByte) : ArgDestination := {|
  m_base := base;
  m_offset := TransitionBlock_StructInRegsOffset;
  m_argLocDescForStructInRegs := Some (desc_of_units us)
|}.

(** Scenario B: a 16 byte composite of an integer and an object reference. *)
Definition scenario_B : list EightByte :=
  [unit_of SystemVClassificationTypeInteger 8;
   unit_of SystemVClassificationTypeIntegerReference 8].

(** ** Scattering *)

(** The bytes of the source object from offset [off] on, [n] of them. *)
Definition src_bytes (buf : list byte) (off n : Z) : list byte :=
  firstn (Z.to_nat n) (skipn (Z.to_nat off) buf).

(** A raw write: an address and the bytes that go there. *)
Definition write : Type := (Z * list byte)%type.

Definition apply_writes (ws : list write) (m : memory) : memory :=
  fold_left (fun m' w => store_bytes m' (fst w) (snd w)) ws m.

(** [x] lies in the range of one of the writes. *)
Definition covered (x : Z) (ws : list write) : bool :=
  existsb (fun w => (fst w <=? x) && (x <? fst w + Z.of_nat (length (snd w)))) ws.

(** The writes that scatter the units [us] of a composite: the source is
    read from offset [s] on, unit after unit; a floating unit goes to the
    next floating register (16 bytes apart, from [f] on), any other unit to
    the integer registers (packed, from [g] on). *)
Fixpoint scatter (buf : list byte) (s g f : Z) (us : list EightByte) : list write :=
  match us with
  | [] => []
  | u :: us' =>
      let bytes := src_bytes buf s (eightByteSize u) in
      if is_sse u
      then (f, bytes) :: scatter buf (s + eightByteSize u) g (f + 16) us'
      else (g, bytes) :: scatter buf (s + eightByteSize u) (g + eightByteSize u) f us'
  end.

Definition sse_count (us : list EightByte) : Z :=
  Z.of_nat (length (filter is_sse us)).

(** The units a call with the destination offset [d] visits: the units
    from index [d / 8] on, the first of them shortened by the [d mod 8]
    bytes that lie before the offset. *)
Definition shorten_first (k : Z) (us : list EightByte) : list EightByte :=
  match us with
  | [] => []
  | u :: us' =>
      {| eightByteClassification := eightByteClassification u;
         eightByteSize := eightByteSize u - k |} :: us'
  end.

Definition visited_units (d : Z) (us : list EightByte) : list EightByte :=
  shorten_first (Z.land d 7) (skipn (Z.to_nat (Z.quot d 8)) us).

(** What [CopyStructToRegisters] expects of a unit: a floating unit of 4
    or 8 bytes, an integer unit of any size, a reference of 8 bytes. *)
Definition copyable_unit (u : EightByte) : Prop :=
  match eightByteClassification u with
  | SystemVClassificationTypeSSE => eightByteSize u = 4 \/ eightByteSize u = 8
  | SystemVClassificationTypeInteger => 0 <= eightByteSize u
  | SystemVClassificationTypeIntegerReference
  | SystemVClassificationTypeIntegerByRef => eightByteSize u = 8
  | _ => False
  end.

(** A layout that can be scattered from [gen] on: every unit is as
    expected, and a unit that fills an integer register is aligned. *)
Definition copy_consistent (gen : Z) (us : list EightByte) : Prop :=
  Forall (fun p => copyable_unit (snd p)
                   /\ (is_sse (snd p) = false -> eightByteSize (snd p) = 8 ->
                       IS_ALIGNED (fst p) 8 = true))
         (placed gen us).

(** The register bytes that hold each unit of a layout: the address of
    the unit's slot and the unit's size. *)
Fixpoint unit_slots (g f : Z) (us : list EightByte) : list (Z * Z) :=
  match us with
  | [] => []
  | u :: us' =>
      if is_sse u
      then (f, eightByteSize u) :: unit_slots g (f + 16) us'
      else (g, eightByteSize u) :: unit_slots (g + eightByteSize u) f us'
  end.

(** Reading a sub-field back from the registers. *)
Definition read_slot (m : memory) (slot : Z * Z) : list byte :=
  load_bytes m (fst slot) (Z.to_nat (snd slot)).

(** The address and the number of bytes of a write. *)
Definition extent (w : write) : Z * Z := (fst w, Z.of_nat (length (snd w))).

Definition bytes_written (ws : list write) : Z :=
  fold_right (fun w acc => Z.of_nat (length (snd w)) + acc) 0 ws.

(** ** Concrete inputs *)

(** A memory that holds the same byte everywhere. *)
Definition filled (b : byte) : memory := fun _ => b.

Definition bytes_1_to_8 : list byte :=
  [Byte.x11; Byte.x22; Byte.x33; Byte.x44; Byte.x55; Byte.x66; Byte.x77; Byte.x88].


(** ** Homogeneous floating aggregates *)

(** The sixteen bytes of the floating register slot of a field of
    [hfaFieldSize] bytes that lies at the source offset [s]: a 4 or 8 byte
    field is extended with zero bytes, a 16 byte field fills the slot. *)
Definition hfa_slot (buf : list byte) (hfaFieldSize s : Z) : list byte :=
  (if hfaFieldSize =? 4
   then src_bytes buf s 4 ++ repeat Byte.x00 4
   else src_bytes buf s 8)
  ++ (if hfaFieldSize =? 16
      then src_bytes buf (s + 8) 8
      else repeat Byte.x00 8).

(** An ARM64 platform to run the model on. *)
Definition arm64 (debug : bool) : Platform := {|
  _DEBUG := debug;
  target := TARGET_ARM64;
  TransitionBlock_GetOffsetOfArgumentRegisters := 0;
  TransitionBlock_GetOffsetOfFloatArgumentRegisters := -128;
  TransitionBlock_StructInRegsOffset := -2;
  TransitionBlock_IsFloatArgumentRegisterOffset := fun offset => offset <? 0;
  GC_CALL_INTERIOR := 1;
  CLR_SYSTEMV_MAX_EIGHTBYTES_COUNT_TO_PASS_IN_REGISTERS := 2
|}.

(** A descriptor of a homogeneous floating aggregate of [count] fields of
    [fieldSize] bytes. *)
Definition desc_of_hfa (count fieldSize : Z) : ArgLocDesc := {|
  m_idxFloatReg := 0;
  m_cFloatReg := count;
  m_idxGenReg := 0;
  m_cGenReg := 0;
  m_hfaFieldSize := fieldSize;
  m_eeClass := None;
  m_structFields := {| flags := 0; offset1st := 0; offset2nd := 0 |}
|}.

Definition hfa_in_regs (base offset count fieldSize : Z) : ArgDestination := {|
  m_base := base;
  m_offset := offset;
  m_argLocDescForStructInRegs := Some (desc_of_hfa count fieldSize)
|}.

Definition bytes_1_to_16 : list byte :=
  bytes_1_to_8
  ++ [Byte.x99; Byte.xa1; Byte.xa2; Byte.xa3; Byte.xa4; Byte.xa5; Byte.xa6; Byte.xa7].

(** ** Composites split over a floating and an integer register *)

Section FpStructVocabulary.
Context `{Platform}.

Definition first_float_present (info : FpStructInRegistersInfo) : bool :=
  FpStructAbi.has_flag info
    (Z.lor FpStruct.OnlyOne (Z.lor FpStruct.BothFloat FpStruct.FloatInt)).

Definition second_float_present (info : FpStructInRegistersInfo) : bool :=
  FpStructAbi.has_flag info (Z.lor FpStruct.BothFloat FpStruct.IntFloat).

Definition int_present (info : FpStructInRegistersInfo) : bool :=
  FpStructAbi.has_flag info (Z.lor FpStruct.FloatInt FpStruct.IntFloat).

(** The first floating register and the integer register of the
    composite: the base offset of the register area plus the register
    index times the register stride. *)
Definition FloatReg0 (this : ArgDestination) (desc : ArgLocDesc) : Z :=
  m_base this + (TransitionBlock_GetOffsetOfFloatArgumentRegisters
                 + m_idxFloatReg desc * 8).

Definition IntReg (this : ArgDestination) (desc : ArgLocDesc) : Z :=
  m_base this + (TransitionBlock_GetOffsetOfArgumentRegisters
                 + m_idxGenReg desc * 8).






End FpStructVocabulary.

Definition riscv64 (debug : bool) : Platform := {|
  _DEBUG := debug;
  target := TARGET_RISCV64;
  TransitionBlock_GetOffsetOfArgumentRegisters := 128;
  TransitionBlock_GetOffsetOfFloatArgumentRegisters := -64;
  TransitionBlock_StructInRegsOffset := -2;
  TransitionBlock_IsFloatArgumentRegisterOffset := fun offset => offset <? 0;
  GC_CALL_INTERIOR := 1;
  CLR_SYSTEMV_MAX_EIGHTBYTES_COUNT_TO_PASS_IN_REGISTERS := 2
|}.

Definition loongarch64 (debug : bool) : Platform := {|
  _DEBUG := debug;
  target := TARGET_LOONGARCH64;
  TransitionBlock_GetOffsetOfArgumentRegisters := 96;
  TransitionBlock_GetOffsetOfFloatArgumentRegisters := -64;
  TransitionBlock_StructInRegsOffset := -2;
  TransitionBlock_IsFloatArgumentRegisterOffset := fun offset => offset <? 0;
  GC_CALL_INTERIOR := 1;
  CLR_SYSTEMV_MAX_EIGHTBYTES_COUNT_TO_PASS_IN_REGISTERS := 2
|}.

(** [flags] of a composite of the given shape and size classes. *)
Definition fp_flags (shape sizeShift1st sizeShift2nd : Z) : Z :=
  Z.lor shape
    (Z.lor (Z.shiftl sizeShift1st FpStruct.PosSizeShift1st)
           (Z.shiftl sizeShift2nd FpStruct.PosSizeShift2nd)).

Definition desc_of_fpstruct (info : FpStructInRegistersInfo) (cFloatReg cGenReg : Z)
  : ArgLocDesc := {|
  m_idxFloatReg := 0;
  m_cFloatReg := cFloatReg;
  m_idxGenReg := 0;
  m_cGenReg := cGenReg;
  m_hfaFieldSize := 0;
  m_eeClass := None;
  m_structFields := info
|}.

(** Scenario A: 8 bytes, a 4 byte integer at offset 0 and a 4 byte
    floating field at offset 4, shape integer+floating. *)
Definition scenario_A_info : FpStructInRegistersInfo := {|
  flags := fp_flags FpStruct.IntFloat 2 2;
  offset1st := 0;
  offset2nd := 4
|}.

Definition scenario_A_desc : ArgLocDesc := desc_of_fpstruct scenario_A_info 1 1.

Definition fpstruct_in_regs (base : Z) (desc : ArgLocDesc) : ArgDestination := {|
  m_base := base;
  m_offset := 0;
  m_argLocDescForStructInRegs := Some desc
|}.

(** A composite of a double and an [int]: a floating and an integer unit. *)
Definition mixed_units : list EightByte :=
  [unit_of SystemVClassificationTypeSSE 8; unit_of SystemVClassificationTypeInteger 4].



(** ** Vocabulary for patched instructions *)

(** The 32 bit Thumb-2 instruction at [p]: the first halfword is the upper
    half. *)
Definition thumb2_instruction (m : memory) (p : Z) : Z :=
  Z.lor (Z.shiftl (SpmiUtil.load_UINT16 m p) 16) (SpmiUtil.load_UINT16 m (p + 2)).

(** The halfwords of a [movw] or [movt] whose halfwords were [a0] and [a1]
    once the immediate [imm16] is in place: [imm4] in the bits 0 to 3 and
    [i] in the bit 10 of the first, [imm3] in the bits 12 to 14 and [imm8]
    in the bits 0 to 7 of the second. *)
Definition with_imm16_first (a0 imm16 : Z) : Z :=
  Z.lor (Z.land a0 0xfbf0)
        (Z.lor (Z.land (Z.shiftr imm16 12) 0xf)
               (Z.shiftl (Z.land (Z.shiftr imm16 11) 0x1) 10)).

Definition with_imm16_second (a1 imm16 : Z) : Z :=
  Z.lor (Z.land a1 0x8f00)
        (Z.lor (Z.shiftl (Z.land (Z.shiftr imm16 8) 0x7) 12)
               (Z.land imm16 0xff)).

(** A decoded [(reg, con)] with the constant replaced. *)
Definition with_constant (con : Z) (decoded : option (Z * Z)) : option (Z * Z) :=
  match decoded with
  | Some (reg, _) => Some (reg, con)
  | None => None
  end.

(** The branch offset that the halfwords of a Thumb-2 [bl] hold, bits 1
    to 24: the sign [S] is the bit 10 of the first halfword, [J1] and [J2]
    are the bits 13 and 11 of the second, and the bits 23 and 22 of the
    offset are [J1 ^ S ^ 1] and [J2 ^ S ^ 1]. *)
Definition Thumb2BlRel24_offset (Opcode0 Opcode1 : Z) : Z :=
  let S := Z.land (Z.shiftr Opcode0 10) 0x1 in
  let J1 := Z.land (Z.shiftr Opcode1 13) 0x1 in
  let J2 := Z.land (Z.shiftr Opcode1 11) 0x1 in
  Z.lor (Z.shiftl S 24)
    (Z.lor (Z.shiftl (Z.lxor (Z.lxor J1 S) 1) 23)
       (Z.lor (Z.shiftl (Z.lxor (Z.lxor J2 S) 1) 22)
          (Z.lor (Z.shiftl (Z.land Opcode0 0x3FF) 12)
                 (Z.shiftl (Z.land Opcode1 0x7FF) 1)))).


(** What [ReplaceIllegalCharacters] lets through: a space, or a printable
    ASCII character that is neither one of those it replaces nor a double
    quote. *)
Definition allowed_character (ch : Z) : bool :=
  (32 <=? ch) && (ch <? 127)
  && negb (existsb (Z.eqb ch) SpmiUtil.illegal_characters)
  && negb (ch =? SpmiUtil.quote_character).

(** A memory with the given bytes at the address 0, zero elsewhere. *)
Definition code_at_0 (code : list byte) : memory :=
  store_bytes (fun _ => Byte.x00) 0 code.

(** ** Vocabulary for serialized events *)

(** Appending bytes at the pointer of an output. *)
Definition emit (out : gc_event.Output) (bs : list byte) : gc_event.Output :=
  {| gc_event.buffer := gc_event.buffer out + Z.of_nat (length bs);
     gc_event.written := store_bytes (gc_event.written out) (gc_event.buffer out) bs |}.

(** The argument [a] is serialized as the bytes [bs], whatever the
    output. *)
Definition serializes_as (a : gc_event.Arg) (bs : list byte) : Prop :=
  (forall out, gc_event.Serialize_arg a out = emit out bs)
  /\ gc_event.SerializedSize_arg a = Z.of_nat (length bs).

(** A little endian and a big endian host. *)
Definition little_endian_host : gc_event.Host := {| gc_event.BIGENDIAN := false |}.
Definition big_endian_host : gc_event.Host := {| gc_event.BIGENDIAN := true |}.

(** ** Vocabulary for gathering and for misuse *)

(** [x] lies in one of the register slots. *)
Definition in_slots (x : Z) (slots : list (Z * Z)) : bool :=
  existsb (fun slot => (fst slot <=? x) && (x <? fst slot + snd slot)) slots.

(** Gathering: the bytes of the slots, one slot after the other. *)
Definition gather (m : memory) (slots : list (Z * Z)) : list byte :=
  concat (map (read_slot m) slots).

(** The reference units of a layout: the address of the integer slot of
    each and the offset of the unit in the source object. *)
Fixpoint reference_sources (s g : Z) (us : list EightByte) : list (Z * Z) :=
  match us with
  | [] => []
  | u :: us' =>
      let rest := reference_sources (s + eightByteSize u)
                    (if is_sse u then g else g + eightByteSize u) us' in
      if is_reference u then (g, s) :: rest else rest
  end.

(** A call that did not complete: a checked build halted, or the
    behaviour is undefined. *)
Definition never_succeeds {A : Type} (r : result A) : Prop :=
  match r with
  | Ok _ => False
  | AssertFailed | Undefined => True
  end.

(** The slots of the fields of a homogeneous floating aggregate: [count]
    slots of [size] bytes, 16 bytes apart. *)
Definition hfa_slots (dest size : Z) (count : nat) : list (Z * Z) :=
  map (fun k => (dest + 16 * Z.of_nat k, size)) (seq 0 count).


(** * Properties *)

(** ** The outcome monad and assertions *)

Lemma assert_true `{Platform} : _ASSERTE true = Ok tt.
Proof. unfold _ASSERTE. destruct _DEBUG; reflexivity. Qed.

Lemma assert_holds `{Platform} (c : bool) : c = true -> _ASSERTE c = Ok tt.
Proof. intros ->. apply assert_true. Qed.

Lemma assert_guarded `{Platform} (c : bool) :
  (_DEBUG = true -> c = true) -> _ASSERTE c = Ok tt.
Proof. unfold _ASSERTE. destruct _DEBUG; [intros -> | intros _]; reflexivity. Qed.


Lemma assert_cases `{Platform} (c : bool) :
  _ASSERTE c = Ok tt \/ _ASSERTE c = AssertFailed.
Proof. unfold _ASSERTE. destruct _DEBUG, c; auto. Qed.

Lemma assert_ok_checked `{Platform} (c : bool) (u : unit) :
  _DEBUG = true -> _ASSERTE c = Ok u -> c = true.
Proof. unfold _ASSERTE. intros ->. destruct c; [reflexivity | discriminate]. Qed.

Lemma assert_never_undefined `{Platform} (c : bool) : _ASSERTE c <> Undefined.
Proof. unfold _ASSERTE. destruct _DEBUG, c; discriminate. Qed.

Lemma bind_Ok_inv {A B : Type} (r : result A) (k : A -> result B) (b : B) :
  bind r k = Ok b -> exists a, r = Ok a /\ k a = Ok b.
Proof. destruct r; simpl; intros E; try discriminate. eauto. Qed.

(** ** Eightbyte layouts *)

Lemma GetEightByte_app (pre post : list EightByte) (u : EightByte) :
  GetEightByte {| m_eightBytes := pre ++ u :: post |} (Z.of_nat (length pre)) = Ok u.
Proof.
  unfold GetEightByte. simpl.
  destruct (Z.ltb_spec (Z.of_nat (length pre)) 0) as [Hn | _]; [lia |].
  rewrite Nat2Z.id, nth_error_app2 by lia.
  rewrite Nat.sub_diag. reflexivity.
Qed.

Lemma total_size_cons (u : EightByte) (us : list EightByte) :
  total_size (u :: us) = eightByteSize u + total_size us.
Proof. reflexivity. Qed.

Lemma total_size_app (us vs : list EightByte) :
  total_size (us ++ vs) = total_size us + total_size vs.
Proof. induction us as [| u us IH]; simpl; [reflexivity | rewrite IH; lia]. Qed.

Lemma total_size_nonneg (us : list EightByte) :
  Forall (fun u => 0 <= eightByteSize u) us -> 0 <= total_size us.
Proof. induction 1; simpl; lia. Qed.

Lemma gen_size_cons (u : EightByte) (us : list EightByte) :
  gen_size (u :: us) = (if is_sse u then 0 else eightByteSize u) + gen_size us.
Proof. unfold gen_size. simpl. destruct (is_sse u); simpl; lia. Qed.

Lemma is_reference_not_sse (u : EightByte) : is_reference u = true -> is_sse u = false.
Proof. unfold is_reference, is_sse. destruct (eightByteClassification u); simpl; congruence. Qed.


(** ** Reading the source and writing the registers *)

Lemma read_src_ok (buf : list byte) (off n : Z) :
  0 <= off -> 0 <= n -> off + n <= Z.of_nat (length buf) ->
  read_src buf off n = Ok (src_bytes buf off n).
Proof.
  intros Ho Hn Hb. unfold read_src.
  destruct (Z.leb_spec 0 off); [| lia].
  destruct (Z.leb_spec 0 n); [| lia].
  destruct (Z.leb_spec (off + n) (Z.of_nat (length buf))); [| lia].
  reflexivity.
Qed.

Lemma read_src_Ok_inv (buf : list byte) (off n : Z) (bs : list byte) :
  read_src buf off n = Ok bs ->
  0 <= off /\ 0 <= n /\ off + n <= Z.of_nat (length buf) /\ bs = src_bytes buf off n.
Proof.
  unfold read_src.
  destruct (Z.leb_spec 0 off); [| discriminate].
  destruct (Z.leb_spec 0 n); [| discriminate].
  destruct (Z.leb_spec (off + n) (Z.of_nat (length buf))); [| discriminate].
  simpl. intros E. injection E as <-. auto.
Qed.

Lemma src_bytes_length (buf : list byte) (off n : Z) :
  0 <= off -> 0 <= n -> off + n <= Z.of_nat (length buf) ->
  length (src_bytes buf off n) = Z.to_nat n.
Proof.
  intros Ho Hn Hb. unfold src_bytes.
  rewrite length_firstn, length_skipn. lia.
Qed.

(** Loading a 64 bit value and storing it is a copy of eight bytes. *)
Lemma store_UINT64_le_combine (m : memory) (a : Z) (bs : list byte) :
  length bs = 8%nat -> store_UINT64 m a (le_combine bs) = store_bytes m a bs.
Proof.
  intros Hl. unfold store_UINT64. rewrite <- Hl, split_le_combine. reflexivity.
Qed.

Lemma store_UINT32_le_combine (m : memory) (a : Z) (bs : list byte) :
  length bs = 4%nat -> store_UINT32 m a (le_combine bs) = store_bytes m a bs.
Proof.
  intros Hl. unfold store_UINT32. rewrite <- Hl, split_le_combine. reflexivity.
Qed.

Lemma copy_UINT64 (buf : list byte) (off : Z) (m : memory) (a : Z) :
  0 <= off -> off + 8 <= Z.of_nat (length buf) ->
  (v <- src_UINT64 buf off;; Ok (store_UINT64 m a v))
  = Ok (store_bytes m a (src_bytes buf off 8)).
Proof.
  intros Ho Hb. unfold src_UINT64. rewrite read_src_ok by lia. cbn [bind].
  rewrite store_UINT64_le_combine; [reflexivity |].
  rewrite src_bytes_length by lia. reflexivity.
Qed.

Lemma copy_UINT32 (buf : list byte) (off : Z) (m : memory) (a : Z) :
  0 <= off -> off + 4 <= Z.of_nat (length buf) ->
  (v <- src_UINT32 buf off;; Ok (store_UINT32 m a v))
  = Ok (store_bytes m a (src_bytes buf off 4)).
Proof.
  intros Ho Hb. unfold src_UINT32. rewrite read_src_ok by lia. cbn [bind].
  rewrite store_UINT32_le_combine; [reflexivity |].
  rewrite src_bytes_length by lia. reflexivity.
Qed.

Lemma store_bytes_outside (m : memory) (a : Z) (bs : list byte) (x : Z) :
  x < a \/ a + Z.of_nat (length bs) <= x -> store_bytes m a bs x = m x.
Proof.
  intros Hx. unfold store_bytes.
  destruct (Z.leb_spec a x); destruct (Z.ltb_spec x (a + Z.of_nat (length bs)));
    simpl; try reflexivity; lia.
Qed.

Lemma store_bytes_inside (m : memory) (a : Z) (bs : list byte) (x : Z) :
  a <= x < a + Z.of_nat (length bs) ->
  store_bytes m a bs x = nth (Z.to_nat (x - a)) bs Byte.x00.
Proof.
  intros Hx. unfold store_bytes.
  destruct (Z.leb_spec a x); destruct (Z.ltb_spec x (a + Z.of_nat (length bs)));
    simpl; try reflexivity; lia.
Qed.

Lemma load_bytes_length (m : memory) (a : Z) (n : nat) :
  length (load_bytes m a n) = n.
Proof. unfold load_bytes. rewrite length_map, length_seq. reflexivity. Qed.

Lemma load_bytes_nth (m : memory) (a : Z) (n i : nat) :
  (i < n)%nat -> nth i (load_bytes m a n) Byte.x00 = m (a + Z.of_nat i).
Proof.
  intros Hi. unfold load_bytes.
  rewrite (nth_indep _ Byte.x00 (m (a + Z.of_nat 0)))
    by (rewrite length_map, length_seq; exact Hi).
  rewrite (map_nth (fun i => m (a + Z.of_nat i))), seq_nth by exact Hi.
  reflexivity.
Qed.

Lemma load_bytes_ext (m m' : memory) (a : Z) (n : nat) :
  (forall x, a <= x < a + Z.of_nat n -> m' x = m x) ->
  load_bytes m' a n = load_bytes m a n.
Proof.
  intros Hx. unfold load_bytes. apply map_ext_in.
  intros i Hi. apply in_seq in Hi. apply Hx. lia.
Qed.

(** Reading back what was just stored. *)
Lemma load_store_bytes (m : memory) (a : Z) (bs : list byte) :
  load_bytes (store_bytes m a bs) a (length bs) = bs.
Proof.
  apply nth_ext with (d := Byte.x00) (d' := Byte.x00).
  - apply load_bytes_length.
  - intros i Hi. rewrite load_bytes_length in Hi.
    rewrite load_bytes_nth by exact Hi.
    rewrite store_bytes_inside by lia.
    f_equal. lia.
Qed.

Lemma load_store_bytes_n (m : memory) (a : Z) (bs : list byte) (n : nat) :
  length bs = n -> load_bytes (store_bytes m a bs) a n = bs.
Proof. intros <-. apply load_store_bytes. Qed.

Lemma apply_writes_cons (w : write) (ws : list write) (m : memory) :
  apply_writes (w :: ws) m = apply_writes ws (store_bytes m (fst w) (snd w)).
Proof. reflexivity. Qed.

(** Frame: a byte no write covers keeps its value. *)
Lemma apply_writes_frame (ws : list write) :
  forall (m : memory) (x : Z), covered x ws = false -> apply_writes ws m x = m x.
Proof.
  induction ws as [| [a bs] ws IH]; intros m x Hc; [reflexivity |].
  unfold covered in Hc. cbn [existsb fst snd] in Hc.
  apply orb_false_iff in Hc as [Hw Hc].
  rewrite apply_writes_cons, IH by exact Hc. cbn [fst snd].
  apply store_bytes_outside.
  apply andb_false_iff in Hw as [Hw | Hw];
    [apply Z.leb_gt in Hw | apply Z.ltb_ge in Hw]; lia.
Qed.

(** A byte that is covered holds a byte of one of the writes. *)
Lemma apply_writes_covered (ws : list write) :
  forall (m : memory) (x : Z), covered x ws = true ->
    exists w, In w ws /\ In (apply_writes ws m x) (snd w).
Proof.
  induction ws as [| [a bs] ws IH]; intros m x Hc; [discriminate |].
  rewrite apply_writes_cons. cbn [fst snd].
  destruct (covered x ws) eqn:Etail.
  - destruct (IH (store_bytes m a bs) x Etail) as (w & Hin & Hb).
    exists w. split; [right; exact Hin | exact Hb].
  - rewrite (apply_writes_frame ws _ x Etail).
    unfold covered in Hc, Etail. cbn [existsb fst snd] in Hc.
    rewrite Etail, orb_false_r in Hc.
    apply andb_true_iff in Hc as [H1 H2].
    apply Z.leb_le in H1. apply Z.ltb_lt in H2.
    exists (a, bs). split; [left; reflexivity |].
    rewrite store_bytes_inside by lia. apply nth_In. cbn [snd]. lia.
Qed.
Module UnixAmd64Facts.
Import UnixAmd64.
Section WithPlatform.
Context `{Platform}.

Section ReportLoop.
Context {ScanContext GcState : Type}.
Implicit Types (fn : promote_func ScanContext GcState) (sc : ScanContext).

(** The loop of [ReportPointersFromStructInRegisters] over the units
    [post] that remain after the units [pre].  Only a checked build asks
    for a consistent layout. *)
Lemma ReportPointers_loop_spec fn sc (post : list EightByte) :
  forall (pre : list EightByte) (l : ReportLocals GcState),
    (_DEBUG = true ->
     report_consistent (r_genRegDest _ l) post (r_remainingBytes _ l)) ->
    ReportPointers_loop _ _ fn sc {| m_eightBytes := pre ++ post |}
      (length post) (Z.of_nat (length pre)) l
    = Ok {| r_genRegDest := r_genRegDest _ l + gen_size post;
            r_remainingBytes := r_remainingBytes _ l - total_size post;
            r_gc := apply_promotions fn sc (promotions (r_genRegDest _ l) post)
                      (r_gc _ l) |}.
Proof.
  induction post as [| u post IH]; intros pre l Hc.
  - simpl. destruct l; simpl. unfold gen_size; simpl.
    rewrite Z.add_0_r, Z.sub_0_r. reflexivity.
  - assert (Hstep : _DEBUG = true ->
              eightByteSize u <= r_remainingBytes _ l
              /\ (is_reference u = true ->
                  eightByteSize u = 8 /\ IS_ALIGNED (r_genRegDest _ l) 8 = true)
              /\ report_consistent
                   (if is_sse u then r_genRegDest _ l
                    else r_genRegDest _ l + eightByteSize u)
                   post (r_remainingBytes _ l - eightByteSize u)).
    { intros D. destruct (Hc D) as (Hnn & Hsz & Hal & Hrem).
      inversion Hnn as [| ? ? Hu Hnn']; subst.
      inversion Hsz as [| ? ? Hu8 Hsz']; subst.
      unfold references_aligned, placed in Hal. cbn [GenRegSlots combine] in Hal.
      inversion Hal as [| ? ? Hua Hal']; subst. cbn [fst snd] in Hua.
      rewrite total_size_cons in Hrem.
      pose proof (total_size_nonneg post Hnn') as Hpost.
      split; [lia |]. split; [auto |].
      repeat split; try assumption. lia. }
    cbn [length ReportPointers_loop].
    unfold ReportPointers_body at 1.
    unfold GetEightByteSize, GetEightByteClassification.
    rewrite GetEightByte_app. cbn [bind].
    rewrite assert_guarded
      by (intros D; destruct (Hstep D) as (Hle & _); apply Z.geb_le; lia).
    cbn [bind].
    replace (Z.of_nat (length pre) + 1) with (Z.of_nat (length (pre ++ [u])))
      by (rewrite length_app; simpl; lia).
    replace (pre ++ u :: post) with ((pre ++ [u]) ++ post)
      by (rewrite <- app_assoc; reflexivity).
    rewrite gen_size_cons.
    unfold promotions, placed. cbn [GenRegSlots combine filter snd fst].
    fold (is_sse u). fold (is_byref u).
    change (classification_eqb (eightByteClassification u)
              SystemVClassificationTypeIntegerReference
            || is_byref u) with (is_reference u).
    destruct (is_sse u) eqn:Esse; cbn [negb bind].
    + assert (Eref : is_reference u = false).
      { destruct (is_reference u) eqn:E; [| reflexivity].
        apply is_reference_not_sse in E. congruence. }
      rewrite Eref.
      rewrite IH; cbn [r_genRegDest r_remainingBytes r_gc];
        [| intros D; destruct (Hstep D) as (_ & _ & Hpost); exact Hpost].
      f_equal. f_equal; try reflexivity; rewrite ?total_size_cons; lia.
    + destruct (is_reference u) eqn:Eref; cbn [bind].
      * rewrite (assert_guarded (eightByteSize u =? 8))
          by (intros D; destruct (Hstep D) as (_ & Href & _);
              apply Z.eqb_eq; apply Href; reflexivity).
        cbn [bind].
        rewrite (assert_guarded (IS_ALIGNED (r_genRegDest GcState l) 8))
          by (intros D; destruct (Hstep D) as (_ & Href & _);
              apply Href; reflexivity).
        cbn [bind].
        rewrite IH; cbn [r_genRegDest r_remainingBytes r_gc];
          [| intros D; destruct (Hstep D) as (_ & _ & Hpost); exact Hpost].
        cbn [map fst snd]. unfold apply_promotions at 2. cbn [fold_left fst snd].
        unfold promote_flags at 2.
        f_equal. f_equal; try reflexivity; rewrite ?total_size_cons; lia.
      * rewrite IH; cbn [r_genRegDest r_remainingBytes r_gc];
          [| intros D; destruct (Hstep D) as (_ & _ & Hpost); exact Hpost].
        f_equal. f_equal; try reflexivity; rewrite ?total_size_cons; lia.
Qed.

(** Whatever the build and the layout: when the loop completes, the
    bytes taken off [remainingBytes] are the declared sizes of the
    units visited. *)
Lemma ReportPointers_loop_remaining fn sc (post : list EightByte) :
  forall (pre : list EightByte) (l l' : ReportLocals GcState),
    ReportPointers_loop _ _ fn sc {| m_eightBytes := pre ++ post |}
      (length post) (Z.of_nat (length pre)) l = Ok l' ->
    r_remainingBytes _ l' = r_remainingBytes _ l - total_size post.
Proof.
  induction post as [| u post IH]; intros pre l l' E.
  - simpl in E. injection E as <-. simpl. lia.
  - cbn [length ReportPointers_loop] in E.
    apply bind_Ok_inv in E as (l1 & Ebody & E).
    replace (Z.of_nat (length pre) + 1) with (Z.of_nat (length (pre ++ [u]))) in E
      by (rewrite length_app; simpl; lia).
    replace (pre ++ u :: post) with ((pre ++ [u]) ++ post) in E
      by (rewrite <- app_assoc; reflexivity).
    apply IH in E. rewrite E, total_size_cons.
    enough (r_remainingBytes _ l1 = r_remainingBytes _ l - eightByteSize u) by lia.
    clear E IH. unfold ReportPointers_body in Ebody.
    unfold GetEightByteSize, GetEightByteClassification in Ebody.
    rewrite GetEightByte_app in Ebody. cbn [bind] in Ebody.
    apply bind_Ok_inv in Ebody as (_ & _ & Ebody).
    apply bind_Ok_inv in Ebody as (l2 & E2 & Ebody).
    injection Ebody as <-. cbn [r_remainingBytes].
    enough (r_remainingBytes _ l2 = r_remainingBytes _ l) by lia.
    destruct (negb _) in E2.
    + apply bind_Ok_inv in E2 as (g & _ & E2). injection E2 as <-. reflexivity.
    + injection E2 as <-. reflexivity.
Qed.

End ReportLoop.

Lemma promotions_length (gen : Z) (us : list EightByte) :
  length (promotions gen us) = length (filter is_reference us).
Proof.
  unfold promotions, placed. rewrite length_map.
  revert gen. induction us as [| u us IH]; intros gen; simpl; [reflexivity |].
  destruct (is_reference u); simpl; rewrite IH; reflexivity.
Qed.

Lemma placed_lower_bound (us : list EightByte) :
  forall gen, Forall (fun u => 0 <= eightByteSize u) us ->
    Forall (fun p => gen <= fst p) (placed gen us).
Proof.
  unfold placed.
  induction us as [| u us IH]; intros gen Hnn; simpl; constructor.
  - simpl. lia.
  - inversion Hnn as [| ? ? Hu Hnn']; subst.
    specialize (IH (if is_sse u then gen else gen + eightByteSize u) Hnn').
    eapply Forall_impl; [| exact IH].
    intros p Hp. simpl in Hp. destruct (is_sse u); lia.
Qed.

(** The addresses handed to the promotion function increase strictly. *)
Lemma promotions_ascending (us : list EightByte) :
  forall gen,
    Forall (fun u => 0 <= eightByteSize u) us ->
    Forall (fun u => is_reference u = true -> eightByteSize u = 8) us ->
    StronglySorted Z.lt (map fst (promotions gen us)).
Proof.
  induction us as [| u us IH]; intros gen Hnn Hsz.
  - constructor.
  - inversion Hnn as [| ? ? Hu Hnn']; subst.
    inversion Hsz as [| ? ? Hu8 Hsz']; subst.
    unfold promotions, placed. cbn [GenRegSlots combine filter snd].
    destruct (is_reference u) eqn:Eref.
    + rewrite (is_reference_not_sse u Eref). cbn [map fst].
      constructor; [apply IH; assumption |].
      pose proof (placed_lower_bound us (gen + eightByteSize u) Hnn') as Hlb.
      rewrite Forall_forall in Hlb |- *.
      intros a Ha. apply in_map_iff in Ha as ([a' f] & <- & Ha).
      apply in_map_iff in Ha as (p & E & Hp). injection E as <- _.
      apply filter_In in Hp as [Hp _]. specialize (Hlb p Hp).
      specialize (Hu8 eq_refl). simpl. lia.
    + apply IH; assumption.
Qed.

Lemma promotions_In (gen : Z) (us : list EightByte) (a f : Z) :
  In (a, f) (promotions gen us) <->
  exists u, In (a, u) (placed gen us) /\ is_reference u = true
            /\ f = (if is_byref u then GC_CALL_INTERIOR else 0).
Proof.
  unfold promotions. rewrite in_map_iff. split.
  - intros ([a' u] & E & Hin). simpl in E. injection E as <- <-.
    apply filter_In in Hin as [Hin Href]. exists u. auto.
  - intros (u & Hin & Href & ->). exists (a, u). split; [reflexivity |].
    apply filter_In. auto.
Qed.

Lemma apply_promotions_record (calls log : list (Z * Z)) :
  apply_promotions record_call tt calls log = log ++ calls.
Proof.
  revert log. induction calls as [| [a f] calls IH]; intros log.
  - simpl. rewrite app_nil_r. reflexivity.
  - change (apply_promotions record_call tt ((a, f) :: calls) log)
      with (apply_promotions record_call tt calls (log ++ [(a, f)])).
    rewrite IH, <- app_assoc. reflexivity.
Qed.

Lemma IS_ALIGNED_8_mod (p : Z) : IS_ALIGNED p 8 = true <-> p mod 8 = 0.
Proof.
  unfold IS_ALIGNED. change (8 - 1) with (Z.ones 3).
  rewrite Z.land_ones by lia. change (2 ^ 3) with 8. apply Z.eqb_eq.
Qed.

Lemma IS_ALIGNED_8_add (p : Z) :
  IS_ALIGNED p 8 = true -> IS_ALIGNED (p + 8) 8 = true.
Proof.
  rewrite !IS_ALIGNED_8_mod. intros Hp.
  rewrite <- Z.add_mod_idemp_l, Hp by lia. reflexivity.
Qed.

(** The method up to the final assertion.  A checked build asks for
    the sentinel offset and a layout that is consistent with the declared
    size. *)
Lemma ReportPointers_locals_spec {ScanContext GcState : Type}
    (this : ArgDestination) (desc : ArgLocDesc) (eeClass : EEClass)
    (fn : promote_func ScanContext GcState) (sc : ScanContext)
    (fieldBytes : Z) (gc : GcState) :
  describes this desc eeClass ->
  (_DEBUG = true ->
   IsStructPassedInRegs this = true
   /\ report_consistent (GenRegBase this desc) (m_eightBytes eeClass) fieldBytes) ->
  ReportPointers_locals _ _ this fn sc fieldBytes gc
  = Ok {| r_genRegDest := GenRegBase this desc + gen_size (m_eightBytes eeClass);
          r_remainingBytes := fieldBytes - total_size (m_eightBytes eeClass);
          r_gc := apply_promotions fn sc
                    (promotions (GenRegBase this desc) (m_eightBytes eeClass)) gc |}.
Proof.
  intros [Hdesc Hee] Hc.
  unfold ReportPointers_locals, GetStructGenRegDestinationAddress.
  rewrite !(assert_guarded (IsStructPassedInRegs this))
    by (intros D; destruct (Hc D) as [Hregs _]; exact Hregs).
  rewrite Hdesc. cbn [bind deref].
  rewrite Hee. cbn [is_null negb]. rewrite assert_true. cbn [bind deref].
  unfold GetNumberEightBytes. rewrite Z.sub_0_r, Nat2Z.id.
  destruct eeClass as [us]. cbn [m_eightBytes] in *.
  apply (ReportPointers_loop_spec fn sc us []
           {| r_genRegDest := GenRegBase this desc;
              r_remainingBytes := fieldBytes; r_gc := gc |}).
  intros D. destruct (Hc D) as [_ Hcons]. exact Hcons.
Qed.

(** The outcome of the method. *)
Lemma ReportPointers_spec {ScanContext GcState : Type}
    (this : ArgDestination) (desc : ArgLocDesc) (eeClass : EEClass)
    (fn : promote_func ScanContext GcState) (sc : ScanContext)
    (fieldBytes : Z) (gc : GcState) :
  describes this desc eeClass ->
  (_DEBUG = true ->
   IsStructPassedInRegs this = true
   /\ report_consistent (GenRegBase this desc) (m_eightBytes eeClass) fieldBytes
   /\ total_size (m_eightBytes eeClass) = fieldBytes) ->
  ReportPointersFromStructInRegisters _ _ this fn sc fieldBytes gc
  = Ok (apply_promotions fn sc
          (promotions (GenRegBase this desc) (m_eightBytes eeClass)) gc).
Proof.
  intros Hd Hc.
  unfold ReportPointersFromStructInRegisters.
  rewrite (ReportPointers_locals_spec this desc eeClass)
    by (try assumption; intros D; destruct (Hc D) as (? & ? & ?); auto).
  cbn [bind r_remainingBytes r_gc].
  rewrite assert_guarded; [reflexivity |].
  intros D. destruct (Hc D) as (_ & _ & Hsum). apply Z.eqb_eq. lia.
Qed.

(** C1, root-reporting exhaustiveness.  For a composite in registers
    whose eightbyte layout is consistent (sizes not negative and summing
    to the declared size, reference units eight bytes wide and aligned),
    [ReportPointersFromStructInRegisters] applies the promotion function
    to exactly the reference units, in the order of the units, at the
    address of the unit's integer register slot, with the flag
    [GC_CALL_INTERIOR] for an interior reference and no flag for an exact
    one; the addresses increase strictly; the number of invocations is the
    number of reference units; the bytes visited are the declared size.
    A build without assertions makes these invocations for any layout; a
    checked build only completes when the sizes of the units sum to the
    declared size.  For the composite of scenario B the only invocation is
    for the second unit, without flag. *)
Theorem ReportPointers_exhaustive :
  (forall (ScanContext GcState : Type) (this : ArgDestination) (desc : ArgLocDesc)
          (eeClass : EEClass) (fn : promote_func ScanContext GcState)
          (sc : ScanContext) (fieldBytes : Z) (gc : GcState),
      describes this desc eeClass ->
      IsStructPassedInRegs this = true ->
      Forall (fun u => 0 <= eightByteSize u) (m_eightBytes eeClass) ->
      Forall (fun u => is_reference u = true -> eightByteSize u = 8)
             (m_eightBytes eeClass) ->
      references_aligned (GenRegBase this desc) (m_eightBytes eeClass) ->
      total_size (m_eightBytes eeClass) = fieldBytes ->
      let us := m_eightBytes eeClass in
      let calls := promotions (GenRegBase this desc) us in
      ReportPointersFromStructInRegisters _ _ this fn sc fieldBytes gc
        = Ok (apply_promotions fn sc calls gc)
      /\ ReportPointersFromStructInRegisters _ _ this record_call tt fieldBytes []
        = Ok calls
      /\ length calls = length (filter is_reference us)
      /\ (forall a f, In (a, f) calls <->
            exists u, In (a, u) (placed (GenRegBase this desc) us)
                      /\ is_reference u = true
                      /\ f = (if is_byref u then GC_CALL_INTERIOR else 0))
      /\ StronglySorted Z.lt (map fst calls)
      /\ (exists l, ReportPointers_locals _ _ this fn sc fieldBytes gc = Ok l
                    /\ fieldBytes - r_remainingBytes _ l = total_size us
                    /\ r_remainingBytes _ l = 0))
  /\ (forall (ScanContext GcState : Type) (this : ArgDestination) (desc : ArgLocDesc)
             (eeClass : EEClass) (fn : promote_func ScanContext GcState)
             (sc : ScanContext) (fieldBytes : Z) (gc : GcState),
        _DEBUG = false ->
        describes this desc eeClass ->
        let calls := promotions (GenRegBase this desc) (m_eightBytes eeClass) in
        ReportPointersFromStructInRegisters _ _ this fn sc fieldBytes gc
          = Ok (apply_promotions fn sc calls gc)
        /\ ReportPointersFromStructInRegisters _ _ this record_call tt fieldBytes []
          = Ok calls
        /\ length calls = length (filter is_reference (m_eightBytes eeClass)))
  /\ (forall (ScanContext GcState : Type) (this : ArgDestination) (desc : ArgLocDesc)
             (eeClass : EEClass) (fn : promote_func ScanContext GcState)
             (sc : ScanContext) (fieldBytes : Z) (gc gc' : GcState),
        _DEBUG = true ->
        describes this desc eeClass ->
        ReportPointersFromStructInRegisters _ _ this fn sc fieldBytes gc = Ok gc' ->
        total_size (m_eightBytes eeClass) = fieldBytes)
  /\ (forall (ScanContext GcState : Type) (this : ArgDestination) (desc : ArgLocDesc)
             (fn : promote_func ScanContext GcState) (sc : ScanContext) (gc : GcState),
        describes this desc {| m_eightBytes := scenario_B |} ->
        IsStructPassedInRegs this = true ->
        IS_ALIGNED (GenRegBase this desc) 8 = true ->
        ReportPointersFromStructInRegisters _ _ this fn sc 16 gc
          = Ok (fn (GenRegBase this desc + 8) sc 0 gc)
        /\ ReportPointersFromStructInRegisters _ _ this record_call tt 16 []
          = Ok [(GenRegBase this desc + 8, 0)]).
Proof.
  assert (General : forall (ScanContext GcState : Type) (this : ArgDestination)
            (desc : ArgLocDesc) (eeClass : EEClass)
            (fn : promote_func ScanContext GcState) (sc : ScanContext)
            (fieldBytes : Z) (gc : GcState),
      describes this desc eeClass ->
      IsStructPassedInRegs this = true ->
      Forall (fun u => 0 <= eightByteSize u) (m_eightBytes eeClass) ->
      Forall (fun u => is_reference u = true -> eightByteSize u = 8)
             (m_eightBytes eeClass) ->
      references_aligned (GenRegBase this desc) (m_eightBytes eeClass) ->
      total_size (m_eightBytes eeClass) = fieldBytes ->
      ReportPointersFromStructInRegisters _ _ this fn sc fieldBytes gc
      = Ok (apply_promotions fn sc
              (promotions (GenRegBase this desc) (m_eightBytes eeClass)) gc)).
  { intros SC GS this desc eeClass fn sc fieldBytes gc Hd Hregs Hnn Hsz Hal Hsum.
    apply (ReportPointers_spec this desc eeClass); [exact Hd |].
    intros _. unfold report_consistent. repeat split; try assumption. lia. }
  split; [| split; [| split]].
  - intros SC GS this desc eeClass fn sc fieldBytes gc Hd Hregs Hnn Hsz Hal Hsum us calls.
    split; [apply General; assumption |].
    split.
    { rewrite (General unit (list (Z * Z)) this desc eeClass) by assumption.
      rewrite apply_promotions_record. reflexivity. }
    split; [apply promotions_length |].
    split; [intros a f; apply promotions_In |].
    split; [apply promotions_ascending; assumption |].
    eexists. split.
    { apply (ReportPointers_locals_spec this desc eeClass); [exact Hd |].
      intros _. unfold report_consistent. repeat split; try assumption. lia. }
    cbn [r_remainingBytes]. subst us. lia.
  - intros SC GS this desc eeClass fn sc fieldBytes gc Hdbg Hd calls.
    split; [apply (ReportPointers_spec this desc eeClass); [exact Hd | congruence] |].
    split; [| apply promotions_length].
    rewrite (ReportPointers_spec this desc eeClass) by (try exact Hd; congruence).
    rewrite apply_promotions_record. reflexivity.
  - intros SC GS this desc eeClass fn sc fieldBytes gc gc' Hdbg [Hdesc Hee] E.
    unfold ReportPointersFromStructInRegisters in E.
    apply bind_Ok_inv in E as (l & El & E).
    apply bind_Ok_inv in E as (u & Ea & _).
    apply (assert_ok_checked _ _ Hdbg) in Ea. apply Z.eqb_eq in Ea.
    unfold ReportPointers_locals in El.
    apply bind_Ok_inv in El as (_ & _ & El).
    apply bind_Ok_inv in El as (gen & _ & El).
    rewrite Hdesc in El. cbn [deref bind] in El.
    apply bind_Ok_inv in El as (_ & _ & El).
    rewrite Hee in El. cbn [deref bind] in El.
    unfold GetNumberEightBytes in El. rewrite Z.sub_0_r, Nat2Z.id in El.
    destruct eeClass as [us]. cbn [m_eightBytes] in *.
    apply (ReportPointers_loop_remaining fn sc us []) in El.
    cbn [r_remainingBytes] in El. lia.
  - intros SC GS this desc fn sc gc Hd Hregs Hal.
    assert (Hcalls : promotions (GenRegBase this desc) scenario_B
                     = [(GenRegBase this desc + 8, 0)]) by reflexivity.
    assert (Hnn : Forall (fun u => 0 <= eightByteSize u) scenario_B)
      by (repeat constructor; simpl; lia).
    assert (Hsz : Forall (fun u => is_reference u = true -> eightByteSize u = 8)
                    scenario_B)
      by (repeat constructor).
    assert (Hal' : references_aligned (GenRegBase this desc) scenario_B).
    { repeat constructor; simpl; intros _; [assumption |].
      apply IS_ALIGNED_8_add. assumption. }
    split.
    + rewrite (General SC GS this desc {| m_eightBytes := scenario_B |})
        by (try assumption; reflexivity).
      cbn [m_eightBytes]. rewrite Hcalls. reflexivity.
    + rewrite (General unit (list (Z * Z)) this desc {| m_eightBytes := scenario_B |})
        by (try assumption; reflexivity).
      cbn [m_eightBytes]. rewrite Hcalls. reflexivity.
Qed.

(** *** [CopyStructToRegisters] *)

Lemma shorten_first_0 (us : list EightByte) : shorten_first 0 us = us.
Proof.
  destruct us as [| [c s] us]; [reflexivity |].
  unfold shorten_first. cbn [eightByteClassification eightByteSize].
  rewrite Z.sub_0_r. reflexivity.
Qed.

Lemma sse_count_cons (u : EightByte) (us : list EightByte) :
  sse_count (u :: us) = (if is_sse u then 1 else 0) + sse_count us.
Proof.
  unfold sse_count. cbn [filter].
  destruct (is_sse u); cbn [length]; lia.
Qed.

Lemma copyable_unit_nonneg (u : EightByte) : copyable_unit u -> 0 <= eightByteSize u.
Proof. unfold copyable_unit. destruct (eightByteClassification u); lia. Qed.

Lemma copy_consistent_nonneg (us : list EightByte) :
  forall gen, copy_consistent gen us -> Forall (fun u => 0 <= eightByteSize u) us.
Proof.
  unfold copy_consistent, placed.
  induction us as [| u us IH]; intros gen Hc; constructor;
    cbn [GenRegSlots combine] in Hc; inversion Hc as [| ? ? [Hu _] Hc']; subst.
  - apply copyable_unit_nonneg. exact Hu.
  - eapply IH. exact Hc'.
Qed.

(** One iteration on the unit [u], which the destination offset left
    with the size of [u']. *)
Lemma CopyStructToRegisters_body_spec (buf : list byte)
    (pre post : list EightByte) (u : EightByte) (l : CopyLocals) :
  let u' := {| eightByteClassification := eightByteClassification u;
               eightByteSize := eightByteSize u - Z.land (destOffset l) 7 |} in
  copyable_unit u' ->
  (is_sse u' = false -> eightByteSize u' = 8 -> IS_ALIGNED (genRegDest l) 8 = true) ->
  eightByteSize u' <= remainingBytes l ->
  0 <= src l ->
  src l + eightByteSize u' <= Z.of_nat (length buf) ->
  CopyStructToRegisters_body {| m_eightBytes := pre ++ u :: post |} buf
    (Z.of_nat (length pre)) l
  = Ok {| src := src l + eightByteSize u';
          genRegDest := genRegDest l + (if is_sse u' then 0 else eightByteSize u');
          floatRegDest := floatRegDest l + (if is_sse u' then 16 else 0);
          remainingBytes := remainingBytes l - eightByteSize u';
          destOffset := 0;
          mem := store_bytes (mem l)
                   (if is_sse u' then floatRegDest l else genRegDest l)
                   (src_bytes buf (src l) (eightByteSize u')) |}.
Proof.
  intros u' Hu Hal Hrem Hs Hb.
  unfold CopyStructToRegisters_body, GetEightByteSize, GetEightByteClassification.
  rewrite GetEightByte_app. cbn [bind].
  change (eightByteSize u - Z.land (destOffset l) 7) with (eightByteSize u').
  rewrite assert_holds by (apply Z.geb_le; lia). cbn [bind].
  change (classification_eqb (eightByteClassification u) SystemVClassificationTypeSSE)
    with (is_sse u').
  unfold copyable_unit in Hu. unfold is_sse in *.
  change (eightByteClassification u') with (eightByteClassification u) in *.
  destruct (Z.eqb_spec (eightByteSize u') 8) as [E8 | N8].
  - rewrite E8 in *.
    destruct (eightByteClassification u); cbn [classification_eqb] in *;
      try contradiction;
      rewrite ?assert_true, ?(assert_holds (IS_ALIGNED _ _)) by auto;
      cbn [bind is_integer_class classification_eqb orb];
      rewrite ?assert_true; cbn [bind];
      rewrite copy_UINT64 by lia; cbn [bind src genRegDest floatRegDest
                                         remainingBytes destOffset mem];
      f_equal; f_equal; lia.
  - destruct (eightByteClassification u); cbn [classification_eqb] in *;
      try contradiction; try lia.
    + unfold memcpyNoGCRefs.
      rewrite assert_true. cbn [bind]. rewrite read_src_ok by lia.
      cbn [bind src genRegDest floatRegDest remainingBytes destOffset mem].
      f_equal; f_equal; lia.
    + destruct Hu as [E4 | E8]; [| contradiction].
      rewrite E4 in *.
      rewrite assert_true. cbn [bind]. rewrite copy_UINT32 by lia.
      cbn [bind src genRegDest floatRegDest remainingBytes destOffset mem].
      f_equal; f_equal; lia.
Qed.

(** The loop over the units [post] that remain after the units [pre]:
    the writes are those of [scatter], the cursors advance by the sizes. *)
Lemma CopyStructToRegisters_loop_spec (buf : list byte) (post : list EightByte) :
  forall (pre : list EightByte) (l : CopyLocals),
    let us := shorten_first (Z.land (destOffset l) 7) post in
    copy_consistent (genRegDest l) us ->
    total_size us <= remainingBytes l ->
    0 <= src l ->
    src l + total_size us <= Z.of_nat (length buf) ->
    CopyStructToRegisters_loop {| m_eightBytes := pre ++ post |} buf
      (length post) (Z.of_nat (length pre)) l
    = Ok {| src := src l + total_size us;
            genRegDest := genRegDest l + gen_size us;
            floatRegDest := floatRegDest l + 16 * sse_count us;
            remainingBytes := remainingBytes l - total_size us;
            destOffset := match post with [] => destOffset l | _ => 0 end;
            mem := apply_writes
                     (scatter buf (src l) (genRegDest l) (floatRegDest l) us)
                     (mem l) |}.
Proof.
  induction post as [| u post IH]; intros pre l us Hc Hrem Hs Hb.
  - destruct l; subst us; simpl. unfold gen_size, sse_count; simpl.
    rewrite !Z.add_0_r, Z.sub_0_r. reflexivity.
  - subst us. cbn [shorten_first] in *.
    set (u' := {| eightByteClassification := eightByteClassification u;
                  eightByteSize := eightByteSize u - Z.land (destOffset l) 7 |}) in *.
    unfold copy_consistent, placed in Hc. cbn [GenRegSlots combine] in Hc.
    inversion Hc as [| ? ? [Hu Hal] Hc']; subst. cbn [fst snd] in Hu, Hal.
    rewrite total_size_cons in Hrem, Hb.
    assert (Hu0 : 0 <= eightByteSize u') by (apply copyable_unit_nonneg; exact Hu).
    assert (Hpost0 : 0 <= total_size post).
    { apply total_size_nonneg. eapply copy_consistent_nonneg. exact Hc'. }
    cbn [length CopyStructToRegisters_loop].
    rewrite (CopyStructToRegisters_body_spec buf pre post u l Hu Hal)
      by (fold u'; lia).
    fold u'. cbn [bind].
    replace (Z.of_nat (length pre) + 1) with (Z.of_nat (length (pre ++ [u])))
      by (rewrite length_app; simpl; lia).
    replace (pre ++ u :: post) with ((pre ++ [u]) ++ post)
      by (rewrite <- app_assoc; reflexivity).
    rewrite IH; cbn [src genRegDest floatRegDest remainingBytes destOffset mem];
      change (Z.land 0 7) with 0; rewrite ?shorten_first_0.
    + rewrite total_size_cons, gen_size_cons, sse_count_cons.
      cbn [scatter].
      destruct (is_sse u'); rewrite apply_writes_cons; cbn [fst snd];
        rewrite ?Z.add_0_r; f_equal; f_equal; try lia; destruct post; reflexivity.
    + unfold copy_consistent, placed.
      destruct (is_sse u'); rewrite ?Z.add_0_r; exact Hc'.
    + lia.
    + lia.
    + lia.
Qed.

Lemma skipn_split_index (us : list EightByte) (k : nat) :
  (k <= length us)%nat ->
  us = firstn k us ++ skipn k us /\ length (firstn k us) = k.
Proof.
  intros Hk. split; [symmetry; apply firstn_skipn |].
  rewrite length_firstn. lia.
Qed.

(** The method up to the final assertion, for a destination offset [d]
    and a layout whose visited units are consistent. *)
Lemma CopyStructToRegisters_locals_spec (this : ArgDestination) (desc : ArgLocDesc)
    (eeClass : EEClass) (buf : list byte) (fieldBytes d : Z) (m : memory) :
  let us := visited_units d (m_eightBytes eeClass) in
  describes this desc eeClass ->
  IsStructPassedInRegs this = true ->
  0 <= d ->
  copy_consistent (GenRegBase this desc + d) us ->
  total_size us <= fieldBytes ->
  total_size us <= Z.of_nat (length buf) ->
  CopyStructToRegisters_locals this buf fieldBytes d m
  = Ok {| src := total_size us;
          genRegDest := GenRegBase this desc + d + gen_size us;
          floatRegDest := FloatRegBase this desc + 16 * sse_count us;
          remainingBytes := fieldBytes - total_size us;
          destOffset := match skipn (Z.to_nat (Z.quot d 8)) (m_eightBytes eeClass) with
                        | [] => d
                        | _ => 0
                        end;
          mem := apply_writes
                   (scatter buf 0 (GenRegBase this desc + d) (FloatRegBase this desc) us)
                   m |}.
Proof.
  intros us [Hdesc Hee] Hregs Hd Hc Hrem Hb.
  unfold CopyStructToRegisters_locals, GetStructGenRegDestinationAddress,
    GetStructFloatRegDestinationAddress.
  rewrite Hregs, assert_true, Hdesc. cbn [bind deref].
  rewrite Hee. cbn [is_null negb]. rewrite assert_true. cbn [bind deref].
  fold (GenRegBase this desc). fold (FloatRegBase this desc).
  unfold GetNumberEightBytes.
  destruct eeClass as [all]. cbn [m_eightBytes] in *.
  assert (Hq : 0 <= Z.quot d 8) by (apply Z.quot_pos; lia).
  set (k := Z.to_nat (Z.quot d 8)) in *.
  assert (Hcount : Z.to_nat (Z.of_nat (length all) - Z.quot d 8) = length (skipn k all)).
  { rewrite length_skipn. subst k. lia. }
  rewrite Hcount.
  destruct (Nat.le_gt_cases k (length all)) as [Hk | Hk].
  - destruct (skipn_split_index all k Hk) as [Hsplit Hlen].
    replace (Z.quot d 8) with (Z.of_nat (length (firstn k all))) by (subst k; lia).
    rewrite Hsplit at 1.
    rewrite CopyStructToRegisters_loop_spec;
      cbn [src genRegDest floatRegDest remainingBytes destOffset mem];
      fold (visited_units d all); fold us; try assumption; try lia.
    rewrite Z.add_0_l. reflexivity.
  - assert (Hnil : skipn k all = []) by (apply skipn_all2; lia).
    subst us. unfold visited_units. fold k. rewrite Hnil.
    cbn [length CopyStructToRegisters_loop shorten_first scatter apply_writes fold_left].
    unfold gen_size, sse_count. cbn [filter total_size fold_right length].
    f_equal. f_equal; lia.
Qed.

(** Whatever the build and the layout: when the loop completes, the
    bytes taken off [remainingBytes] are the sizes of the units visited. *)
Lemma CopyStructToRegisters_loop_remaining (buf : list byte) (post : list EightByte) :
  forall (pre : list EightByte) (l l' : CopyLocals),
    CopyStructToRegisters_loop {| m_eightBytes := pre ++ post |} buf
      (length post) (Z.of_nat (length pre)) l = Ok l' ->
    remainingBytes l'
    = remainingBytes l - total_size (shorten_first (Z.land (destOffset l) 7) post).
Proof.
  induction post as [| u post IH]; intros pre l l' E.
  - simpl in E. injection E as <-. simpl. lia.
  - cbn [length CopyStructToRegisters_loop] in E.
    apply bind_Ok_inv in E as (l1 & Ebody & E).
    replace (Z.of_nat (length pre) + 1) with (Z.of_nat (length (pre ++ [u]))) in E
      by (rewrite length_app; simpl; lia).
    replace (pre ++ u :: post) with ((pre ++ [u]) ++ post) in E
      by (rewrite <- app_assoc; reflexivity).
    apply IH in E.
    cbn [shorten_first]. rewrite total_size_cons. cbn [eightByteSize].
    unfold CopyStructToRegisters_body in Ebody.
    unfold GetEightByteSize, GetEightByteClassification in Ebody.
    rewrite GetEightByte_app in Ebody. cbn [bind] in Ebody.
    apply bind_Ok_inv in Ebody as (_ & _ & Ebody).
    apply bind_Ok_inv in Ebody as (l2 & E2 & Ebody).
    injection Ebody as <-.
    cbn [remainingBytes destOffset] in E.
    assert (H2 : remainingBytes l2 = remainingBytes l /\ destOffset l2 = 0).
    { destruct (classification_eqb _ _) in E2;
        apply bind_Ok_inv in E2 as (m' & _ & E2); injection E2 as <-; auto. }
    destruct H2 as [Hr Ho]. rewrite Ho in E. change (Z.land 0 7) with 0 in E.
    rewrite shorten_first_0 in E. lia.
Qed.

(** Each write of [scatter] fills the slot of its unit. *)
Lemma scatter_extents (buf : list byte) (us : list EightByte) :
  forall s g f,
    Forall (fun u => 0 <= eightByteSize u) us ->
    0 <= s ->
    s + total_size us <= Z.of_nat (length buf) ->
    map extent (scatter buf s g f us) = unit_slots g f us.
Proof.
  induction us as [| u us IH]; intros s g f Hnn Hs Hb; [reflexivity |].
  inversion Hnn as [| ? ? Hu Hnn']; subst.
  rewrite total_size_cons in Hb.
  pose proof (total_size_nonneg us Hnn') as Hus.
  cbn [scatter unit_slots].
  destruct (is_sse u); cbn [map]; rewrite IH by (try assumption; lia);
    unfold extent at 1; cbn [fst snd];
    rewrite src_bytes_length by lia; rewrite Z2Nat.id by lia; reflexivity.
Qed.

Lemma bytes_written_scatter (buf : list byte) (us : list EightByte) :
  forall s g f,
    Forall (fun u => 0 <= eightByteSize u) us ->
    0 <= s ->
    s + total_size us <= Z.of_nat (length buf) ->
    bytes_written (scatter buf s g f us) = total_size us.
Proof.
  induction us as [| u us IH]; intros s g f Hnn Hs Hb; [reflexivity |].
  inversion Hnn as [| ? ? Hu Hnn']; subst.
  rewrite total_size_cons in Hb |- *.
  pose proof (total_size_nonneg us Hnn') as Hus.
  cbn [scatter].
  destruct (is_sse u); unfold bytes_written; cbn [fold_right snd];
    fold (bytes_written (scatter buf (s + eightByteSize u) g (f + 16) us));
    fold (bytes_written (scatter buf (s + eightByteSize u) (g + eightByteSize u) f us));
    rewrite IH by (try assumption; lia);
    rewrite src_bytes_length by lia; lia.
Qed.

Lemma visited_units_0 (us : list EightByte) : visited_units 0 us = us.
Proof. unfold visited_units. simpl. apply shorten_first_0. Qed.

Lemma copy_consistent_sse (us : list EightByte) :
  forall gen, copy_consistent gen us ->
    Forall (fun u => is_sse u = true -> eightByteSize u = 4 \/ eightByteSize u = 8) us.
Proof.
  unfold copy_consistent, placed.
  induction us as [| u us IH]; intros gen Hc; constructor;
    cbn [GenRegSlots combine] in Hc; inversion Hc as [| ? ? [Hu _] Hc']; subst.
  - cbn [snd] in Hu. unfold copyable_unit in Hu. unfold is_sse.
    destruct (eightByteClassification u); simpl; intros; try discriminate. exact Hu.
  - eapply IH. exact Hc'.
Qed.

(** The outcome of a call with a consistent layout, for any destination
    offset that is not negative. *)
Lemma CopyStructToRegisters_spec (this : ArgDestination) (desc : ArgLocDesc)
    (eeClass : EEClass) (buf : list byte) (fieldBytes d : Z) (m : memory) :
  let us := visited_units d (m_eightBytes eeClass) in
  describes this desc eeClass ->
  IsStructPassedInRegs this = true ->
  0 <= d ->
  copy_consistent (GenRegBase this desc + d) us ->
  total_size us = fieldBytes ->
  fieldBytes <= Z.of_nat (length buf) ->
  CopyStructToRegisters this buf fieldBytes d m
  = Ok (apply_writes
          (scatter buf 0 (GenRegBase this desc + d) (FloatRegBase this desc) us) m).
Proof.
  intros us Hd Hregs Hd0 Hc Hsum Hb.
  unfold CopyStructToRegisters.
  rewrite (CopyStructToRegisters_locals_spec this desc eeClass)
    by (try assumption; fold us; lia).
  cbn [bind remainingBytes mem]. fold us.
  rewrite assert_holds by (apply Z.eqb_eq; lia). reflexivity.
Qed.

(** C2 (amended), the eightbyte path with destination offset 0.  For a
    composite in registers with a consistent layout whose sizes sum to the
    declared size, [CopyStructToRegisters] walks the units in order; a
    floating unit is 4 or 8 bytes wide and is copied to the next floating
    register, the floating cursor moving on by 16 bytes; any other unit is
    copied with its own size (8 bytes by one 64 bit store, any other
    number of bytes by a raw copy) to the integer registers, packed; the
    source cursor moves on by the size of the unit; the bytes written are
    as many as the declared size, which a checked build asserts. *)
Theorem CopyStructToRegisters_eightbyte_path
    (this : ArgDestination) (desc : ArgLocDesc) (eeClass : EEClass)
    (buf : list byte) (fieldBytes : Z) (m : memory) :
  describes this desc eeClass ->
  IsStructPassedInRegs this = true ->
  copy_consistent (GenRegBase this desc) (m_eightBytes eeClass) ->
  total_size (m_eightBytes eeClass) = fieldBytes ->
  fieldBytes <= Z.of_nat (length buf) ->
  let us := m_eightBytes eeClass in
  let gen := GenRegBase this desc in
  let flt := FloatRegBase this desc in
  let ws := scatter buf 0 gen flt us in
  CopyStructToRegisters this buf fieldBytes 0 m = Ok (apply_writes ws m)
  /\ map extent ws = unit_slots gen flt us
  /\ Forall (fun u => is_sse u = true -> eightByteSize u = 4 \/ eightByteSize u = 8) us
  /\ (exists l, CopyStructToRegisters_locals this buf fieldBytes 0 m = Ok l
                /\ src l = fieldBytes
                /\ genRegDest l = gen + gen_size us
                /\ floatRegDest l = flt + 16 * sse_count us
                /\ remainingBytes l = 0)
  /\ bytes_written ws = fieldBytes
  /\ (_DEBUG = true ->
      forall (other : Z) (m' : memory),
        CopyStructToRegisters this buf other 0 m = Ok m' -> other = fieldBytes).
Proof.
  intros Hd Hregs Hc Hsum Hb us gen flt ws.
  pose proof (copy_consistent_nonneg _ _ Hc) as Hnn.
  assert (Hloc : CopyStructToRegisters_locals this buf fieldBytes 0 m
                 = Ok {| src := total_size us;
                         genRegDest := gen + gen_size us;
                         floatRegDest := flt + 16 * sse_count us;
                         remainingBytes := fieldBytes - total_size us;
                         destOffset := 0;
                         mem := apply_writes ws m |}).
  { rewrite (CopyStructToRegisters_locals_spec this desc eeClass);
      rewrite ?visited_units_0, ?Z.add_0_r; try assumption; try lia.
    f_equal. f_equal. change (Z.to_nat (Z.quot 0 8)) with 0%nat.
    destruct (m_eightBytes eeClass); reflexivity. }
  split.
  { unfold CopyStructToRegisters. rewrite Hloc. cbn [bind remainingBytes mem].
    rewrite assert_holds by (apply Z.eqb_eq; subst us; lia). reflexivity. }
  split; [apply scatter_extents; try assumption; subst us; lia |].
  split; [eapply copy_consistent_sse; exact Hc |].
  split.
  { eexists. split; [exact Hloc |]. cbn [src genRegDest floatRegDest remainingBytes].
    subst us. repeat split; lia. }
  split; [subst ws; rewrite bytes_written_scatter; try assumption; subst us; lia |].
  intros Hdbg other m' E.
  unfold CopyStructToRegisters in E.
  apply bind_Ok_inv in E as (l & El & E).
  apply bind_Ok_inv in E as (u & Ea & _).
  apply (assert_ok_checked _ _ Hdbg) in Ea. apply Z.eqb_eq in Ea.
  destruct Hd as [Hdesc Hee].
  unfold CopyStructToRegisters_locals in El.
  apply bind_Ok_inv in El as (_ & _ & El).
  apply bind_Ok_inv in El as (g0 & _ & El).
  apply bind_Ok_inv in El as (f0 & _ & El).
  rewrite Hdesc in El. cbn [deref bind] in El.
  apply bind_Ok_inv in El as (_ & _ & El).
  rewrite Hee in El. cbn [deref bind] in El.
  unfold GetNumberEightBytes in El.
  change (Z.quot 0 8) with 0 in El. rewrite Z.sub_0_r, Nat2Z.id in El.
  subst us. destruct eeClass as [all]. cbn [m_eightBytes] in *.
  apply (CopyStructToRegisters_loop_remaining buf all []) in El.
  cbn [remainingBytes destOffset] in El. change (Z.land 0 7) with 0 in El.
  rewrite shorten_first_0 in El. lia.
Qed.

(** *** Layouts without units *)

(** C9.  For a layout without eightbyte units and a declared size of
    zero bytes, [CopyStructToRegisters] returns the memory it was given
    (for any destination offset that is not negative),
    [ReportPointersFromStructInRegisters] does not invoke the promotion
    function, and both reach their final assertion with no bytes
    remaining, whatever the build. *)
Theorem empty_layout_is_a_no_op
    (ScanContext GcState : Type) (this : ArgDestination) (desc : ArgLocDesc)
    (buf : list byte) (m : memory)
    (fn : promote_func ScanContext GcState) (sc : ScanContext) (gc : GcState) :
  describes this desc {| m_eightBytes := [] |} ->
  IsStructPassedInRegs this = true ->
  (forall d, 0 <= d ->
     CopyStructToRegisters this buf 0 d m = Ok m
     /\ exists l, CopyStructToRegisters_locals this buf 0 d m = Ok l
                  /\ remainingBytes l = 0 /\ mem l = m)
  /\ ReportPointersFromStructInRegisters _ _ this fn sc 0 gc = Ok gc
  /\ ReportPointersFromStructInRegisters _ _ this record_call tt 0 [] = Ok []
  /\ (exists l, ReportPointers_locals _ _ this fn sc 0 gc = Ok l
                /\ r_remainingBytes _ l = 0 /\ r_gc _ l = gc).
Proof.
  intros [Hdesc Hee] Hregs.
  assert (Hcopy : forall d, 0 <= d ->
             CopyStructToRegisters_locals this buf 0 d m
             = Ok {| src := 0;
                     genRegDest := GenRegBase this desc + d;
                     floatRegDest := FloatRegBase this desc;
                     remainingBytes := 0;
                     destOffset := d;
                     mem := m |}).
  { intros d Hd.
    unfold CopyStructToRegisters_locals, GetStructGenRegDestinationAddress,
      GetStructFloatRegDestinationAddress.
    rewrite Hregs, assert_true, Hdesc. cbn [bind deref].
    rewrite Hee. cbn [is_null negb]. rewrite assert_true. cbn [bind deref].
    unfold GetNumberEightBytes. cbn [m_eightBytes length].
    assert (Hq : 0 <= Z.quot d 8) by (apply Z.quot_pos; lia).
    replace (Z.to_nat (Z.of_nat 0 - Z.quot d 8)) with 0%nat by lia.
    reflexivity. }
  assert (Hreport : forall (SC GS : Type) (fn' : promote_func SC GS) (sc' : SC) (g : GS),
             ReportPointers_locals _ _ this fn' sc' 0 g
             = Ok {| r_genRegDest := GenRegBase this desc;
                     r_remainingBytes := 0;
                     r_gc := g |}).
  { intros SC GS fn' sc' g.
    unfold ReportPointers_locals, GetStructGenRegDestinationAddress.
    rewrite Hregs, assert_true, Hdesc. cbn [bind deref].
    rewrite Hee. cbn [is_null negb]. rewrite assert_true. reflexivity. }
  split; [| repeat split].
  - intros d Hd. split.
    + unfold CopyStructToRegisters. rewrite Hcopy by exact Hd.
      cbn [bind remainingBytes mem].
      rewrite assert_holds by reflexivity. reflexivity.
    + eexists. split; [apply Hcopy; exact Hd |]. split; reflexivity.
  - unfold ReportPointersFromStructInRegisters. rewrite Hreport.
    cbn [bind r_remainingBytes r_gc]. rewrite assert_holds by reflexivity. reflexivity.
  - unfold ReportPointersFromStructInRegisters. rewrite Hreport.
    cbn [bind r_remainingBytes r_gc]. rewrite assert_holds by reflexivity. reflexivity.
  - eexists. split; [apply Hreport |]. split; reflexivity.
Qed.

(** *** [ZeroStructInRegisters] *)

Lemma zeros_length :
  0 <= CLR_SYSTEMV_MAX_EIGHTBYTES_COUNT_TO_PASS_IN_REGISTERS ->
  sizeof_zeros = 8 * CLR_SYSTEMV_MAX_EIGHTBYTES_COUNT_TO_PASS_IN_REGISTERS.
Proof. intros Hmax. unfold sizeof_zeros, zeros. rewrite repeat_length. lia. Qed.

Lemma In_firstn {A : Type} (n : nat) :
  forall (l : list A) (a : A), In a (firstn n l) -> In a l.
Proof.
  induction n as [| n IH]; intros [| b l] a Hin; simpl in *; try contradiction.
  destruct Hin as [-> | Hin]; [left; reflexivity | right; auto].
Qed.

Lemma In_skipn {A : Type} (n : nat) :
  forall (l : list A) (a : A), In a (skipn n l) -> In a l.
Proof.
  induction n as [| n IH]; intros [| b l] a Hin; simpl in *; try contradiction; auto.
Qed.

Lemma src_bytes_zero (buf : list byte) (off n : Z) (b : byte) :
  Forall (fun c => c = Byte.x00) buf -> In b (src_bytes buf off n) -> b = Byte.x00.
Proof.
  intros Hz Hin. unfold src_bytes in Hin.
  apply In_firstn, In_skipn in Hin. rewrite Forall_forall in Hz. auto.
Qed.

Lemma scatter_zero (buf : list byte) (us : list EightByte) :
  Forall (fun c => c = Byte.x00) buf ->
  forall s g f (w : write) (b : byte),
    In w (scatter buf s g f us) -> In b (snd w) -> b = Byte.x00.
Proof.
  intros Hz. induction us as [| u us IH]; intros s g f w b Hw Hb; [contradiction |].
  cbn [scatter] in Hw.
  destruct (is_sse u); destruct Hw as [<- | Hw];
    try (eapply IH; eassumption);
    cbn [snd] in Hb; eapply src_bytes_zero; eassumption.
Qed.

Lemma covered_by (ws : list write) (w : write) (x : Z) :
  In w ws -> fst w <= x < fst w + Z.of_nat (length (snd w)) -> covered x ws = true.
Proof.
  intros Hin Hx. unfold covered. apply existsb_exists. exists w.
  split; [exact Hin |]. apply andb_true_iff. split; [apply Z.leb_le | apply Z.ltb_lt]; lia.
Qed.

(** After writes of zero bytes only, every range written reads as zero. *)
Lemma apply_writes_zero (ws : list write) (m : memory) (w : write) :
  (forall w' b, In w' ws -> In b (snd w') -> b = Byte.x00) ->
  In w ws ->
  load_bytes (apply_writes ws m) (fst w) (length (snd w))
  = repeat Byte.x00 (length (snd w)).
Proof.
  intros Hz Hin.
  apply nth_ext with (d := Byte.x00) (d' := Byte.x00).
  - rewrite load_bytes_length, repeat_length. reflexivity.
  - intros i Hi. rewrite load_bytes_length in Hi.
    rewrite load_bytes_nth by exact Hi.
    rewrite nth_repeat.
    destruct (apply_writes_covered ws m (fst w + Z.of_nat i)) as (w' & Hin' & Hb).
    + apply (covered_by ws w); [exact Hin | lia].
    + eapply Hz; eassumption.
Qed.

(** C7, zero-fill.  [ZeroStructInRegisters] is [CopyStructToRegisters]
    on a buffer of zero bytes with destination offset 0; for a composite
    in registers with a consistent layout, wherever its registers are,
    every unit reads as zero bytes from its register slot afterwards. *)
Theorem ZeroStructInRegisters_zeroes_every_unit
    (this : ArgDestination) (desc : ArgLocDesc) (eeClass : EEClass)
    (fieldBytes : Z) (m : memory) :
  describes this desc eeClass ->
  IsStructPassedInRegs this = true ->
  copy_consistent (GenRegBase this desc) (m_eightBytes eeClass) ->
  total_size (m_eightBytes eeClass) = fieldBytes ->
  fieldBytes <= sizeof_zeros ->
  ZeroStructInRegisters this fieldBytes m
    = CopyStructToRegisters this zeros fieldBytes 0 m
  /\ Forall (fun b => b = Byte.x00) zeros
  /\ exists m',
       ZeroStructInRegisters this fieldBytes m = Ok m'
       /\ Forall (fun slot => read_slot m' slot = repeat Byte.x00 (Z.to_nat (snd slot)))
                 (unit_slots (GenRegBase this desc) (FloatRegBase this desc)
                    (m_eightBytes eeClass)).
Proof.
  intros Hd Hregs Hc Hsum Hle.
  pose proof (copy_consistent_nonneg _ _ Hc) as Hnn.
  pose proof (total_size_nonneg _ Hnn) as Htotal.
  assert (Hz : Forall (fun b => b = Byte.x00) zeros).
  { unfold zeros. apply Forall_forall. intros b Hb. apply repeat_spec in Hb. exact Hb. }
  assert (Hsame : ZeroStructInRegisters this fieldBytes m
                  = CopyStructToRegisters this zeros fieldBytes 0 m).
  { unfold ZeroStructInRegisters.
    rewrite assert_holds; [reflexivity |].
    apply Z.geb_le. unfold to_size_t.
    pose proof (Z.mod_le fieldBytes (2 ^ 64)). lia. }
  split; [exact Hsame |]. split; [exact Hz |].
  rewrite Hsame.
  rewrite (CopyStructToRegisters_spec this desc eeClass);
    rewrite ?visited_units_0, ?Z.add_0_r; try assumption; try lia.
  eexists. split; [reflexivity |].
  rewrite <- (scatter_extents zeros (m_eightBytes eeClass) 0)
    by (try assumption; unfold sizeof_zeros in Hle; lia).
  apply Forall_forall. intros slot Hslot.
  apply in_map_iff in Hslot as (w & <- & Hw).
  unfold read_slot, extent. cbn [fst snd]. rewrite Nat2Z.id.
  apply apply_writes_zero; [| exact Hw].
  intros w' b Hw' Hb. eapply scatter_zero; eassumption.
Qed.

(** In a checked build the assertion on [remainingBytes] guards every
    read of the source: an iteration halts on an assertion or completes,
    and then the source cursor is still inside the declared size. *)
Lemma CopyStructToRegisters_body_checked (buf : list byte)
    (pre post : list EightByte) (u : EightByte) (l : CopyLocals) :
  _DEBUG = true ->
  destOffset l = 0 ->
  0 <= eightByteSize u ->
  0 <= src l ->
  src l + remainingBytes l <= Z.of_nat (length buf) ->
  let r := CopyStructToRegisters_body {| m_eightBytes := pre ++ u :: post |} buf
             (Z.of_nat (length pre)) l in
  r = AssertFailed
  \/ exists l', r = Ok l' /\ destOffset l' = 0 /\ 0 <= src l'
                /\ src l' + remainingBytes l' <= Z.of_nat (length buf).
Proof.
  intros Hdbg Hoff Hu Hs Hb r. subst r.
  unfold CopyStructToRegisters_body, GetEightByteSize, GetEightByteClassification.
  rewrite GetEightByte_app. cbn [bind].
  rewrite Hoff. change (Z.land 0 7) with 0. rewrite Z.sub_0_r.
  unfold _ASSERTE, memcpyNoGCRefs. rewrite Hdbg.
  destruct (Z.geb_spec (remainingBytes l) (eightByteSize u)) as [Hrem | _];
    cbn [bind]; [| left; reflexivity].
  destruct (classification_eqb (eightByteClassification u) SystemVClassificationTypeSSE).
  - destruct (Z.eqb_spec (eightByteSize u) 8) as [E8 | _].
    + rewrite copy_UINT64 by lia. cbn [bind]. right. eexists.
      split; [reflexivity |]. cbn [src remainingBytes destOffset]. lia.
    + destruct (Z.eqb_spec (eightByteSize u) 4) as [E4 | _];
        cbn [bind]; [| left; reflexivity].
      rewrite copy_UINT32 by lia. cbn [bind]. right. eexists.
      split; [reflexivity |]. cbn [src remainingBytes destOffset]. lia.
  - destruct (Z.eqb_spec (eightByteSize u) 8) as [E8 | _].
    + destruct (is_integer_class (eightByteClassification u));
        cbn [bind]; [| left; reflexivity].
      destruct (IS_ALIGNED (genRegDest l) 8); cbn [bind]; [| left; reflexivity].
      rewrite copy_UINT64 by lia. cbn [bind]. right. eexists.
      split; [reflexivity |]. cbn [src remainingBytes destOffset]. lia.
    + destruct (classification_eqb (eightByteClassification u)
                  SystemVClassificationTypeInteger);
        cbn [bind]; [| left; reflexivity].
      rewrite read_src_ok by lia. cbn [bind]. right. eexists.
      split; [reflexivity |]. cbn [src remainingBytes destOffset]. lia.
Qed.

Lemma CopyStructToRegisters_loop_checked (buf : list byte) (post : list EightByte) :
  _DEBUG = true ->
  forall (pre : list EightByte) (l : CopyLocals),
    destOffset l = 0 ->
    Forall (fun u => 0 <= eightByteSize u) post ->
    0 <= src l ->
    src l + remainingBytes l <= Z.of_nat (length buf) ->
    CopyStructToRegisters_loop {| m_eightBytes := pre ++ post |} buf
      (length post) (Z.of_nat (length pre)) l <> Undefined.
Proof.
  intros Hdbg. induction post as [| u post IH]; intros pre l Hoff Hnn Hs Hb.
  - simpl. discriminate.
  - inversion Hnn as [| ? ? Hu Hnn']; subst.
    cbn [length CopyStructToRegisters_loop].
    destruct (CopyStructToRegisters_body_checked buf pre post u l Hdbg Hoff Hu Hs Hb)
      as [-> | (l' & -> & Hoff' & Hs' & Hb')]; cbn [bind]; [discriminate |].
    replace (Z.of_nat (length pre) + 1) with (Z.of_nat (length (pre ++ [u])))
      by (rewrite length_app; simpl; lia).
    replace (pre ++ u :: post) with ((pre ++ [u]) ++ post)
      by (rewrite <- app_assoc; reflexivity).
    apply IH; assumption.
Qed.

(** In any build, a layout of units of at most eight bytes reads at
    most eight source bytes per unit. *)
Lemma CopyStructToRegisters_body_bounded (buf : list byte)
    (pre post : list EightByte) (u : EightByte) (l : CopyLocals) :
  destOffset l = 0 ->
  0 <= eightByteSize u <= 8 ->
  0 <= src l ->
  src l + 8 <= Z.of_nat (length buf) ->
  let r := CopyStructToRegisters_body {| m_eightBytes := pre ++ u :: post |} buf
             (Z.of_nat (length pre)) l in
  r = AssertFailed
  \/ exists l', r = Ok l' /\ destOffset l' = 0 /\ 0 <= src l' <= src l + 8.
Proof.
  intros Hoff Hu Hs Hb r. subst r.
  unfold CopyStructToRegisters_body, GetEightByteSize, GetEightByteClassification.
  rewrite GetEightByte_app. cbn [bind].
  rewrite Hoff. change (Z.land 0 7) with 0. rewrite Z.sub_0_r.
  unfold memcpyNoGCRefs.
  destruct (assert_cases (remainingBytes l >=? eightByteSize u)) as [-> | ->];
    cbn [bind]; [| left; reflexivity].
  destruct (classification_eqb (eightByteClassification u) SystemVClassificationTypeSSE).
  - destruct (Z.eqb_spec (eightByteSize u) 8) as [E8 | _].
    + rewrite copy_UINT64 by lia. cbn [bind]. right. eexists.
      split; [reflexivity |]. cbn [src destOffset]. lia.
    + destruct (assert_cases (eightByteSize u =? 4)) as [-> | ->];
        cbn [bind]; [| left; reflexivity].
      rewrite copy_UINT32 by lia. cbn [bind]. right. eexists.
      split; [reflexivity |]. cbn [src destOffset]. lia.
  - destruct (Z.eqb_spec (eightByteSize u) 8) as [E8 | _].
    + destruct (assert_cases (is_integer_class (eightByteClassification u)))
        as [-> | ->]; cbn [bind]; [| left; reflexivity].
      destruct (assert_cases (IS_ALIGNED (genRegDest l) 8)) as [-> | ->];
        cbn [bind]; [| left; reflexivity].
      rewrite copy_UINT64 by lia. cbn [bind]. right. eexists.
      split; [reflexivity |]. cbn [src destOffset]. lia.
    + destruct (assert_cases (classification_eqb (eightByteClassification u)
                                SystemVClassificationTypeInteger)) as [-> | ->];
        cbn [bind]; [| left; reflexivity].
      rewrite read_src_ok by lia. cbn [bind]. right. eexists.
      split; [reflexivity |]. cbn [src destOffset]. lia.
Qed.

Lemma CopyStructToRegisters_loop_bounded (buf : list byte) (post : list EightByte) :
  forall (pre : list EightByte) (l : CopyLocals),
    destOffset l = 0 ->
    Forall (fun u => 0 <= eightByteSize u <= 8) post ->
    0 <= src l ->
    src l + 8 * Z.of_nat (length post) <= Z.of_nat (length buf) ->
    CopyStructToRegisters_loop {| m_eightBytes := pre ++ post |} buf
      (length post) (Z.of_nat (length pre)) l <> Undefined.
Proof.
  induction post as [| u post IH]; intros pre l Hoff Hsz Hs Hb.
  - simpl. discriminate.
  - inversion Hsz as [| ? ? Hu Hsz']; subst.
    cbn [length] in Hb.
    cbn [length CopyStructToRegisters_loop].
    destruct (CopyStructToRegisters_body_bounded buf pre post u l Hoff Hu Hs)
      as [-> | (l' & -> & Hoff' & Hs')]; cbn [bind]; [lia | discriminate |].
    replace (Z.of_nat (length pre) + 1) with (Z.of_nat (length (pre ++ [u])))
      by (rewrite length_app; simpl; lia).
    replace (pre ++ u :: post) with ((pre ++ [u]) ++ post)
      by (rewrite <- app_assoc; reflexivity).
    apply IH; try assumption; lia.
Qed.

(** C10.  [ZeroStructInRegisters] asserts that the declared size fits
    the buffer of zeros, which holds 8 bytes for each of the
    [CLR_SYSTEMV_MAX_EIGHTBYTES_COUNT_TO_PASS_IN_REGISTERS] eightbytes: a
    checked build halts on a larger size.  For a size that fits it is
    [CopyStructToRegisters] on that buffer with destination offset 0, and
    no read leaves the buffer: in a checked build whatever the layout says
    (each read is guarded by the assertion on the remaining bytes), in any
    build for a consistent layout, and in any build for a layout of at most
    that many units of at most eight bytes. *)
Theorem ZeroStructInRegisters_stays_in_buffer
    (this : ArgDestination) (desc : ArgLocDesc) (eeClass : EEClass)
    (fieldBytes : Z) (m : memory) :
  describes this desc eeClass ->
  Forall (fun u => 0 <= eightByteSize u) (m_eightBytes eeClass) ->
  0 <= CLR_SYSTEMV_MAX_EIGHTBYTES_COUNT_TO_PASS_IN_REGISTERS ->
  Z.of_nat (length zeros) = 8 * CLR_SYSTEMV_MAX_EIGHTBYTES_COUNT_TO_PASS_IN_REGISTERS
  /\ (_DEBUG = true ->
      8 * CLR_SYSTEMV_MAX_EIGHTBYTES_COUNT_TO_PASS_IN_REGISTERS < fieldBytes < 2 ^ 31 ->
      ZeroStructInRegisters this fieldBytes m = AssertFailed)
  /\ (0 <= fieldBytes <= 8 * CLR_SYSTEMV_MAX_EIGHTBYTES_COUNT_TO_PASS_IN_REGISTERS ->
      ZeroStructInRegisters this fieldBytes m
        = CopyStructToRegisters this zeros fieldBytes 0 m
      /\ (_DEBUG = true -> ZeroStructInRegisters this fieldBytes m <> Undefined)
      /\ (GetNumberEightBytes eeClass
            <= CLR_SYSTEMV_MAX_EIGHTBYTES_COUNT_TO_PASS_IN_REGISTERS ->
          Forall (fun u => eightByteSize u <= 8) (m_eightBytes eeClass) ->
          ZeroStructInRegisters this fieldBytes m <> Undefined)
      /\ (IsStructPassedInRegs this = true ->
          copy_consistent (GenRegBase this desc) (m_eightBytes eeClass) ->
          total_size (m_eightBytes eeClass) = fieldBytes ->
          exists m', ZeroStructInRegisters this fieldBytes m = Ok m')).
Proof.
  intros [Hdesc Hee] Hnn Hmax.
  pose proof (zeros_length Hmax) as Hlen. unfold sizeof_zeros in Hlen.
  split; [exact Hlen |]. split.
  - intros Hdbg Hbig. unfold ZeroStructInRegisters, _ASSERTE. rewrite Hdbg.
    unfold sizeof_zeros, to_size_t. rewrite Z.mod_small by lia.
    destruct (Z.geb_spec (Z.of_nat (length zeros)) fieldBytes); [lia | reflexivity].
  - intros Hfit.
    assert (Hsame : ZeroStructInRegisters this fieldBytes m
                    = CopyStructToRegisters this zeros fieldBytes 0 m).
    { unfold ZeroStructInRegisters.
      rewrite assert_holds; [reflexivity |].
      apply Z.geb_le. unfold sizeof_zeros, to_size_t.
      pose proof (Z.mod_le fieldBytes (2 ^ 64)). lia. }
    assert (Hreduce : forall P : result CopyLocals -> Prop,
               P (CopyStructToRegisters_loop eeClass zeros
                    (length (m_eightBytes eeClass)) 0
                    {| src := 0;
                       genRegDest := GenRegBase this desc + 0;
                       floatRegDest := FloatRegBase this desc;
                       remainingBytes := fieldBytes;
                       destOffset := 0;
                       mem := m |}) ->
               (forall l, _ASSERTE (remainingBytes l =? 0) <> Undefined) ->
               forall r, CopyStructToRegisters_locals this zeros fieldBytes 0 m = r ->
                         r = AssertFailed \/ P r).
    { intros P HP _ r <-.
      unfold CopyStructToRegisters_locals, GetStructGenRegDestinationAddress,
        GetStructFloatRegDestinationAddress.
      destruct (assert_cases (IsStructPassedInRegs this)) as [-> | ->];
        cbn [bind]; [| left; reflexivity].
      rewrite Hdesc. cbn [deref bind]. rewrite Hee. cbn [is_null negb deref bind].
      rewrite assert_true. cbn [bind].
      unfold GetNumberEightBytes. change (Z.quot 0 8) with 0.
      rewrite Z.sub_0_r, Nat2Z.id. right. exact HP. }
    assert (Hfinish : forall r : result CopyLocals,
               r <> Undefined ->
               (l <- r;; _ASSERTE (remainingBytes l =? 0);;; Ok (mem l)) <> Undefined).
    { intros [l | |] Hr; cbn [bind]; [| discriminate | contradiction].
      destruct (assert_cases (remainingBytes l =? 0)) as [-> | ->];
        cbn [bind]; discriminate. }
    assert (Hloop : CopyStructToRegisters_loop eeClass zeros
                      (length (m_eightBytes eeClass)) 0
                      {| src := 0;
                         genRegDest := GenRegBase this desc + 0;
                         floatRegDest := FloatRegBase this desc;
                         remainingBytes := fieldBytes;
                         destOffset := 0;
                         mem := m |} <> Undefined ->
                    ZeroStructInRegisters this fieldBytes m <> Undefined).
    { intros Hl. rewrite Hsame. unfold CopyStructToRegisters. apply Hfinish.
      destruct (Hreduce (fun r => r <> Undefined) Hl
                  (fun l => assert_never_undefined _) _ eq_refl) as [-> | Hr];
        [discriminate | exact Hr]. }
    split; [exact Hsame |]. split; [| split].
    + intros Hdbg. apply Hloop.
      destruct eeClass as [us]. cbn [m_eightBytes] in *.
      apply (CopyStructToRegisters_loop_checked zeros us Hdbg []);
        cbn [src remainingBytes destOffset]; try assumption; try reflexivity; lia.
    + intros Hcount Hsz. apply Hloop.
      destruct eeClass as [us]. unfold GetNumberEightBytes in Hcount.
      cbn [m_eightBytes] in *.
      apply (CopyStructToRegisters_loop_bounded zeros us []);
        cbn [src destOffset]; try reflexivity; try lia.
      rewrite Forall_forall in Hnn, Hsz |- *. intros u Hu.
      specialize (Hnn u Hu). specialize (Hsz u Hu). lia.
    + intros Hregs Hc Hsum. rewrite Hsame.
      rewrite (CopyStructToRegisters_spec this desc eeClass);
        rewrite ?visited_units_0, ?Z.add_0_r; try assumption; try lia;
        [| split; assumption].
      eexists. reflexivity.
Qed.

(** *** Layouts without references *)



(** *** Destination offsets *)

Lemma src_bytes_length_le (buf : list byte) (off n : Z) :
  Z.of_nat (length (src_bytes buf off n)) <= Z.max 0 n.
Proof.
  unfold src_bytes. pose proof (firstn_le_length (Z.to_nat n) (skipn (Z.to_nat off) buf)).
  lia.
Qed.

End WithPlatform.
End UnixAmd64Facts.

(** ** [TARGET_ARM64] *)

Module Arm64Facts.
Import Arm64.

Lemma le_split_8_of_4 (bs : list byte) :
  length bs = 4%nat -> le_split 8 (le_combine bs) = bs ++ repeat Byte.x00 4.
Proof.
  intros Hl. rewrite <- (le_combine_app_0 bs 4).
  replace 8%nat with (length (bs ++ repeat Byte.x00 4))
    by (rewrite length_app, repeat_length; lia).
  apply split_le_combine.
Qed.

Lemma le_split_8_0 : le_split 8 0 = repeat Byte.x00 8.
Proof. reflexivity. Qed.

(** Two adjacent 64 bit stores fill a 16 byte slot. *)
Lemma load_two_stores (m : memory) (a : Z) (lo hi : list byte) :
  length lo = 8%nat -> length hi = 8%nat ->
  load_bytes (store_bytes (store_bytes m a lo) (a + 8) hi) a 16 = lo ++ hi.
Proof.
  intros Hlo Hhi.
  apply nth_ext with (d := Byte.x00) (d' := Byte.x00).
  - rewrite load_bytes_length, length_app. lia.
  - intros i Hi. rewrite load_bytes_length in Hi.
    rewrite load_bytes_nth by exact Hi.
    destruct (Nat.lt_ge_cases i 8) as [Hlt | Hge].
    + rewrite store_bytes_outside by lia.
      rewrite store_bytes_inside by lia.
      rewrite app_nth1 by lia. f_equal. lia.
    + rewrite store_bytes_inside by lia.
      rewrite app_nth2 by lia. f_equal. lia.
Qed.

(** One iteration, for a field size of 4, 8 or 16 bytes. *)
Lemma CopyHFAStructToRegister_body_spec (buf : list byte) (hfaFieldSize : Z)
    (l : HfaLocals) :
  hfaFieldSize = 4 \/ hfaFieldSize = 8 \/ hfaFieldSize = 16 ->
  0 <= src l ->
  src l + hfaFieldSize <= Z.of_nat (length buf) ->
  exists m',
    CopyHFAStructToRegister_body buf hfaFieldSize l
    = Ok {| src := src l + hfaFieldSize; dest := dest l + 16; mem := m' |}
    /\ load_bytes m' (dest l) 16 = hfa_slot buf hfaFieldSize (src l)
    /\ (forall x, x < dest l \/ dest l + 16 <= x -> m' x = mem l x).
Proof.
  intros Hsize Hs Hb. unfold CopyHFAStructToRegister_body, hfa_slot.
  assert (Hframe : forall lo hi x,
             length lo = 8%nat -> length hi = 8%nat ->
             x < dest l \/ dest l + 16 <= x ->
             store_bytes (store_bytes (mem l) (dest l) lo) (dest l + 8) hi x = mem l x).
  { intros lo hi x Hlo Hhi Hx. rewrite !store_bytes_outside by lia. reflexivity. }
  destruct Hsize as [-> | [-> | ->]]; cbn [Z.eqb Pos.eqb].
  - unfold src_UINT32. rewrite read_src_ok by lia. cbn [bind].
    unfold store_UINT64. rewrite le_split_8_of_4, le_split_8_0
      by (rewrite src_bytes_length by lia; reflexivity).
    eexists. split; [f_equal; f_equal; lia |].
    split.
    + apply load_two_stores; [| reflexivity].
      rewrite length_app, src_bytes_length, repeat_length by lia. reflexivity.
    + intros x Hx. apply Hframe; [| reflexivity | exact Hx].
      rewrite length_app, src_bytes_length, repeat_length by lia. reflexivity.
  - unfold src_UINT64. rewrite read_src_ok by lia. cbn [bind].
    rewrite store_UINT64_le_combine by (rewrite src_bytes_length by lia; reflexivity).
    unfold store_UINT64. rewrite le_split_8_0.
    eexists. split; [f_equal; f_equal; lia |].
    split.
    + apply load_two_stores; [| reflexivity].
      rewrite src_bytes_length by lia. reflexivity.
    + intros x Hx. apply Hframe; [| reflexivity | exact Hx].
      rewrite src_bytes_length by lia. reflexivity.
  - unfold src_UINT64. rewrite !read_src_ok by lia. cbn [bind].
    rewrite !store_UINT64_le_combine by (rewrite src_bytes_length by lia; reflexivity).
    eexists. split; [f_equal; f_equal; lia |].
    split.
    + apply load_two_stores; rewrite src_bytes_length by lia; reflexivity.
    + intros x Hx. apply Hframe; [| | exact Hx];
        rewrite src_bytes_length by lia; reflexivity.
Qed.

(** The loop: field [k] of the [count] fields that remain lands in the
    slot [k], bytes outside of the slots keep their value. *)
Lemma CopyHFAStructToRegister_loop_spec (buf : list byte) (hfaFieldSize : Z)
    (count : nat) :
  hfaFieldSize = 4 \/ hfaFieldSize = 8 \/ hfaFieldSize = 16 ->
  forall (l : HfaLocals),
    0 <= src l ->
    src l + Z.of_nat count * hfaFieldSize <= Z.of_nat (length buf) ->
    exists m',
      CopyHFAStructToRegister_loop buf hfaFieldSize count l
      = Ok {| src := src l + Z.of_nat count * hfaFieldSize;
              dest := dest l + 16 * Z.of_nat count;
              mem := m' |}
      /\ (forall k, 0 <= k < Z.of_nat count ->
            load_bytes m' (dest l + 16 * k) 16
            = hfa_slot buf hfaFieldSize (src l + k * hfaFieldSize))
      /\ (forall x, x < dest l \/ dest l + 16 * Z.of_nat count <= x -> m' x = mem l x).
Proof.
  intros Hsize. induction count as [| count IH]; intros l Hs Hb.
  - exists (mem l). cbn [CopyHFAStructToRegister_loop].
    split; [destruct l; cbn [src dest mem]; f_equal; f_equal; lia |].
    split; [intros k Hk; lia | reflexivity].
  - cbn [CopyHFAStructToRegister_loop].
    destruct (CopyHFAStructToRegister_body_spec buf hfaFieldSize l Hsize Hs)
      as (m1 & -> & Hslot & Hframe); [nia |].
    cbn [bind].
    destruct (IH {| src := src l + hfaFieldSize; dest := dest l + 16; mem := m1 |})
      as (m' & -> & Hslots & Hframe'); cbn [src dest mem] in *; [lia | nia |].
    exists m'. split; [f_equal; f_equal; nia |].
    split.
    + intros k Hk. destruct (Z.eq_dec k 0) as [-> | Hk0].
      * rewrite Z.mul_0_r, Z.mul_0_l, !Z.add_0_r.
        rewrite <- Hslot. apply load_bytes_ext.
        intros x Hx. apply Hframe'. lia.
      * specialize (Hslots (k - 1) ltac:(lia)).
        replace (dest l + 16 + 16 * (k - 1)) with (dest l + 16 * k) in Hslots by lia.
        replace (src l + hfaFieldSize + (k - 1) * hfaFieldSize)
          with (src l + k * hfaFieldSize) in Hslots by lia.
        exact Hslots.
    + intros x Hx. rewrite Hframe' by lia. apply Hframe. lia.
Qed.

Lemma load_bytes_app (m : memory) (a : Z) (n k : nat) :
  load_bytes m a (n + k) = load_bytes m a n ++ load_bytes m (a + Z.of_nat n) k.
Proof.
  apply nth_ext with (d := Byte.x00) (d' := Byte.x00).
  - rewrite length_app, !load_bytes_length. reflexivity.
  - intros i Hi. rewrite load_bytes_length in Hi.
    rewrite load_bytes_nth by exact Hi.
    destruct (Nat.lt_ge_cases i n) as [Hlt | Hge].
    + rewrite app_nth1 by (rewrite load_bytes_length; exact Hlt).
      rewrite load_bytes_nth by exact Hlt. reflexivity.
    + rewrite app_nth2 by (rewrite load_bytes_length; exact Hge).
      rewrite load_bytes_length, load_bytes_nth by lia. f_equal. lia.
Qed.

Lemma upper_half (m : memory) (a : Z) (lo hi : list byte) :
  length lo = 8%nat ->
  load_bytes m a 16 = lo ++ hi -> load_bytes m (a + 8) 8 = hi.
Proof.
  intros Hlo E. change 16%nat with (8 + 8)%nat in E.
  rewrite load_bytes_app in E.
  apply (f_equal (skipn 8)) in E.
  rewrite !skipn_app, load_bytes_length, Hlo in E.
  rewrite (skipn_all2 lo) in E by lia.
  rewrite (skipn_all2 (load_bytes m a 8)) in E by (rewrite load_bytes_length; lia).
  exact E.
Qed.

(** C4 (amended), homogeneous floating aggregates.  For an aggregate of
    [m_cFloatReg] fields of 4, 8 or 16 bytes, [CopyHFAStructToRegister]
    copies field [k] into the 16 byte floating slot [k]; the upper half
    of the slot is filled with zero bytes for the field widths 4 and 8
    and holds the upper half of the field for the 16 byte (vector) width;
    the source cursor moves on by the field width after each field. *)
Theorem CopyHFAStructToRegister_fills_slots
    (this : ArgDestination) (desc : ArgLocDesc) (buf : list byte)
    (fieldBytes : Z) (m : memory) :
  m_argLocDescForStructInRegs this = Some desc ->
  m_hfaFieldSize desc = 4 \/ m_hfaFieldSize desc = 8 \/ m_hfaFieldSize desc = 16 ->
  0 <= m_cFloatReg desc ->
  m_cFloatReg desc * m_hfaFieldSize desc <= Z.of_nat (length buf) ->
  let size := m_hfaFieldSize desc in
  let count := m_cFloatReg desc in
  let slot := fun k => GetDestinationAddress this + 16 * k in
  exists m',
    CopyHFAStructToRegister this buf fieldBytes m = Ok m'
    /\ (forall k, 0 <= k < count ->
          load_bytes m' (slot k) 16 = hfa_slot buf size (k * size))
    /\ (forall k, 0 <= k < count ->
          load_bytes m' (slot k + 8) 8
          = if size =? 16 then src_bytes buf (k * size + 8) 8 else repeat Byte.x00 8)
    /\ (forall x, x < slot 0 \/ slot count <= x -> m' x = m x)
    /\ (exists l, CopyHFAStructToRegister_locals this buf fieldBytes m = Ok l
                  /\ src l = count * size /\ dest l = slot count)
    /\ (forall l, 0 <= src l -> src l + size <= Z.of_nat (length buf) ->
          exists l', CopyHFAStructToRegister_body buf size l = Ok l'
                     /\ src l' = src l + size /\ dest l' = dest l + 16).
Proof.
  intros Hdesc Hsize Hcount Hb size count slot.
  destruct (CopyHFAStructToRegister_loop_spec buf size (Z.to_nat count) Hsize
              {| src := 0; dest := GetDestinationAddress this; mem := m |})
    as (m' & Hloop & Hslots & Hframe); cbn [src dest mem] in *;
    [lia | subst size count; lia |].
  rewrite Z2Nat.id in * by exact Hcount.
  assert (Hloc : CopyHFAStructToRegister_locals this buf fieldBytes m
                 = Ok {| src := 0 + count * size; dest := slot count; mem := m' |}).
  { unfold CopyHFAStructToRegister_locals. rewrite Hdesc. cbn [deref bind].
    fold size count. rewrite Z.sub_0_r. exact Hloop. }
  exists m'. split.
  { unfold CopyHFAStructToRegister. rewrite Hloc. reflexivity. }
  split.
  { intros k Hk. rewrite <- (Z.add_0_l (k * size)). apply Hslots. exact Hk. }
  split.
  { intros k Hk. specialize (Hslots k Hk). rewrite Z.add_0_l in Hslots.
    unfold hfa_slot in Hslots.
    eapply upper_half; [| exact Hslots].
    assert (0 <= k * size /\ k * size + size <= Z.of_nat (length buf)) by nia.
    destruct Hsize as [E | [E | E]]; fold size in E; rewrite E in *;
      cbn [Z.eqb Pos.eqb];
      rewrite ?length_app, ?repeat_length, src_bytes_length by lia; reflexivity. }
  split.
  { intros x Hx. apply Hframe. subst slot. cbn beta in Hx. lia. }
  split.
  { eexists. split; [exact Hloc |]. cbn [src dest]. split; [lia | reflexivity]. }
  intros l Hs Hbl.
  destruct (CopyHFAStructToRegister_body_spec buf size l Hsize Hs Hbl)
    as (m1 & E & _ & _).
  eexists. split; [exact E |]. split; reflexivity.
Qed.
End Arm64Facts.

(** ** [TARGET_LOONGARCH64], [TARGET_RISCV64] *)

Module FpStructFacts.
Import FpStructAbi.
Section WithPlatform.
Context `{Platform}.








Lemma load_bytes_store_other (m : memory) (a : Z) (bs : list byte) (b : Z) (n : nat) :
  b + Z.of_nat n <= a \/ a + Z.of_nat (length bs) <= b ->
  load_bytes (store_bytes m a bs) b n = load_bytes m b n.
Proof.
  intros Hd. apply load_bytes_ext. intros x Hx.
  apply store_bytes_outside. lia.
Qed.

Lemma load_UINT64_store_other (m : memory) (a : Z) (bs : list byte) (b : Z) :
  b + 8 <= a \/ a + Z.of_nat (length bs) <= b ->
  load_UINT64 (store_bytes m a bs) b = load_UINT64 m b.
Proof.
  intros Hd. unfold load_UINT64. rewrite load_bytes_store_other by lia. reflexivity.
Qed.





Lemma testbit_above (v k n : Z) :
  0 <= v < 2 ^ k -> 0 <= k <= n -> Z.testbit v n = false.
Proof.
  intros Hv Hk. rewrite <- (Z.mod_small v (2 ^ k)) by exact Hv.
  apply Z.mod_pow2_bits_high. lia.
Qed.

(** The NaN-boxed pattern of a 4 byte value. *)
Lemma boxed_bits (v : Z) :
  0 <= v < 2 ^ 32 ->
  let boxed := Z.lor 0xffffffff00000000 v in
  0 <= boxed < 2 ^ 64
  /\ Z.shiftr boxed 32 = 0xffffffff
  /\ boxed mod 2 ^ 32 = v.
Proof.
  intros Hv boxed.
  assert (Hhigh : Z.shiftr boxed 32 = 0xffffffff).
  { subst boxed. rewrite Z.shiftr_lor.
    rewrite (Z.shiftr_div_pow2 v) by lia.
    rewrite (Z.div_small v) by exact Hv. reflexivity. }
  assert (Hlow : boxed mod 2 ^ 32 = v).
  { subst boxed. rewrite <- Z.land_ones by lia.
    rewrite Z.land_lor_distr_l.
    change (Z.land 0xffffffff00000000 (Z.ones 32)) with 0.
    rewrite Z.lor_0_l, Z.land_ones by lia. apply Z.mod_small. exact Hv. }
  split; [| split; assumption].
  rewrite (Z.div_mod boxed (2 ^ 32)) by lia.
  rewrite <- Z.shiftr_div_pow2, Hhigh, Hlow by lia. lia.
Qed.

(** C6, a single 4 byte floating value.  To a floating register
    [CopySingleFloatToRegister] writes the 8 byte value whose high 32
    bits are all set and whose low 32 bits are the source bits; to any
    other destination it writes the 4 source bytes and nothing else. *)
Theorem CopySingleFloatToRegister_boxes
    (this : ArgDestination) (buf : list byte) (m : memory) :
  4 <= Z.of_nat (length buf) ->
  let dest := GetDestinationAddress this in
  let value := le_combine (src_bytes buf 0 4) in
  (TransitionBlock_IsFloatArgumentRegisterOffset (m_offset this) = true ->
   exists m',
     CopySingleFloatToRegister this buf m = Ok m'
     /\ load_UINT64 m' dest = Z.lor 0xffffffff00000000 value
     /\ Z.shiftr (load_UINT64 m' dest) 32 = 0xffffffff
     /\ load_UINT64 m' dest mod 2 ^ 32 = value
     /\ (forall x, x < dest \/ dest + 8 <= x -> m' x = m x))
  /\ (TransitionBlock_IsFloatArgumentRegisterOffset (m_offset this) = false ->
      exists m',
        CopySingleFloatToRegister this buf m = Ok m'
        /\ load_bytes m' dest 4 = src_bytes buf 0 4
        /\ load_UINT32 m' dest = value
        /\ (forall x, x < dest \/ dest + 4 <= x -> m' x = m x)).
Proof.
  intros Hb dest value.
  assert (Hlen : length (src_bytes buf 0 4) = 4%nat)
    by (rewrite src_bytes_length by lia; reflexivity).
  assert (Hv : 0 <= value < 2 ^ 32).
  { pose proof (le_combine_bound (src_bytes buf 0 4)) as Hbound.
    rewrite Hlen in Hbound. exact Hbound. }
  unfold CopySingleFloatToRegister, src_UINT32.
  rewrite read_src_ok by lia. cbn [bind]. fold value. fold dest.
  split; intros Hf; rewrite Hf.
  - destruct (boxed_bits value Hv) as (Hrange & Hhigh & Hlow).
    assert (Hload : load_UINT64 (store_UINT64 m dest (Z.lor 0xffffffff00000000 value)) dest
                    = Z.lor 0xffffffff00000000 value).
    { unfold load_UINT64, store_UINT64.
      rewrite <- (length_le_split 8 (Z.lor 0xffffffff00000000 value)) at 2.
      rewrite load_store_bytes, le_combine_split.
      apply Z.mod_small. exact Hrange. }
    eexists. split; [reflexivity |]. rewrite Hload.
    repeat split; try assumption.
    intros x Hx. unfold store_UINT64. apply store_bytes_outside.
    rewrite length_le_split. lia.
  - eexists. split; [reflexivity |].
    unfold value. rewrite store_UINT32_le_combine by exact Hlen.
    split; [| split].
    + apply load_store_bytes_n. exact Hlen.
    + unfold load_UINT32. rewrite load_store_bytes_n by exact Hlen. reflexivity.
    + intros x Hx. apply store_bytes_outside. rewrite Hlen. lia.
Qed.






End WithPlatform.
End FpStructFacts.

(** ** Destination offsets, across the variants of the header *)

Module DestinationOffset.
Section WithPlatform.
Context `{Platform}.


(** C8 (amended), the constructor.  The members are the arguments.  On
    [UNIX_AMD64_ABI] a checked build only constructs a destination whose
    offset is the sentinel [StructInRegsOffset] with a layout descriptor:
    the sentinel implies the descriptor, not the other way round.  On
    ARM64, LoongArch64 and RISC-V nothing is asserted.  On any other
    target a checked build only constructs destinations without a
    descriptor. *)
Theorem ArgDestination_ctor_descriptor :
  (forall base offset desc this,
      ArgDestination_ctor base offset desc = Ok this ->
      m_base this = base /\ m_offset this = offset
      /\ m_argLocDescForStructInRegs this = desc)
  /\ (target = UNIX_AMD64_ABI -> _DEBUG = true ->
      forall base offset desc this,
        ArgDestination_ctor base offset desc = Ok this ->
        UnixAmd64.IsStructPassedInRegs this = true ->
        m_argLocDescForStructInRegs this <> None)
  /\ (target = TARGET_ARM64 \/ target = TARGET_LOONGARCH64 \/ target = TARGET_RISCV64 ->
      forall base offset desc,
        ArgDestination_ctor base offset desc
        = Ok {| m_base := base; m_offset := offset;
                m_argLocDescForStructInRegs := desc |})
  /\ (target = TARGET_OTHER -> _DEBUG = true ->
      forall base offset desc this,
        ArgDestination_ctor base offset desc = Ok this ->
        m_argLocDescForStructInRegs this = None).
Proof.
  split; [| split; [| split]].
  - intros base offset desc this. unfold ArgDestination_ctor.
    destruct target; intros E;
      try (apply bind_Ok_inv in E as (_ & _ & E));
      injection E as <-; repeat split.
  - intros Ht Hdbg base offset desc this. unfold ArgDestination_ctor.
    rewrite Ht. intros E Hregs.
    apply bind_Ok_inv in E as (u & Ea & E). injection E as <-.
    apply (assert_ok_checked _ _ Hdbg) in Ea.
    unfold UnixAmd64.IsStructPassedInRegs in Hregs. cbn [m_offset] in Hregs.
    rewrite Hregs in Ea. cbn [m_argLocDescForStructInRegs].
    destruct desc; [discriminate | discriminate].
  - intros Ht base offset desc. unfold ArgDestination_ctor.
    destruct Ht as [-> | [-> | ->]]; reflexivity.
  - intros Ht Hdbg base offset desc this. unfold ArgDestination_ctor.
    rewrite Ht. intros E.
    apply bind_Ok_inv in E as (u & Ea & E). injection E as <-.
    apply (assert_ok_checked _ _ Hdbg) in Ea.
    destruct desc; [discriminate | reflexivity].
Qed.
End WithPlatform.
End DestinationOffset.

Lemma Some_eq_inv {A : Type} (a b : A) : Some a = Some b -> a = b.
Proof. intros Heq. injection Heq. trivial. Qed.

(** * Soundness of the bit vector procedure *)

Module BitVectorFacts.
Import BitVector.

Lemma interp_fand (val : nat -> Z -> bool) (a b : form) :
  interp val (fand a b) = interp val a && interp val b.
Proof.
  destruct a as [[|] | | | | |], b as [[|] | | | | |]; cbn [fand interp];
    rewrite ?andb_true_r, ?andb_false_r; reflexivity.
Qed.

Lemma interp_for (val : nat -> Z -> bool) (a b : form) :
  interp val (for_ a b) = interp val a || interp val b.
Proof.
  destruct a as [[|] | | | | |], b as [[|] | | | | |]; cbn [for_ interp];
    rewrite ?orb_true_r, ?orb_false_r; reflexivity.
Qed.

Lemma interp_fnot (val : nat -> Z -> bool) (a : form) :
  interp val (fnot a) = negb (interp val a).
Proof. destruct a; reflexivity. Qed.

Lemma interp_fxor (val : nat -> Z -> bool) (a b : form) :
  interp val (fxor a b) = xorb (interp val a) (interp val b).
Proof.
  destruct a as [[|] | | | | |], b as [[|] | | | | |];
    cbn [fxor]; rewrite ?interp_fnot; cbn [interp];
    rewrite ?xorb_true_r, ?xorb_false_r, ?xorb_true_l, ?xorb_false_l; reflexivity.
Qed.

(** A value of at most [w] bits. *)
Lemma narrow_high (x w : Z) :
  0 <= x < 2 ^ w -> forall i, w <= i -> Z.testbit x i = false.
Proof.
  intros Hx i Hi.
  destruct (Z.ltb_spec w 0) as [Hw | Hw].
  - rewrite Z.pow_neg_r in Hx by exact Hw. lia.
  - rewrite <- (Z.mod_small x (2 ^ w)) by exact Hx.
    apply Z.mod_pow2_bits_high. lia.
Qed.

Lemma narrow_intro (x w : Z) :
  0 <= w -> (forall i, w <= i -> Z.testbit x i = false) -> 0 <= x < 2 ^ w.
Proof.
  intros Hw Hhigh.
  assert (Hx : x mod 2 ^ w = x).
  { apply Z.bits_inj'. intros i Hi.
    destruct (Z.lt_ge_cases i w) as [Hlt | Hge].
    - apply Z.mod_pow2_bits_low. exact Hlt.
    - rewrite Z.mod_pow2_bits_high by lia. symmetry. apply Hhigh. exact Hge. }
  rewrite <- Hx. apply Z.mod_pos_bound. apply Z.pow_pos_nonneg; lia.
Qed.

Lemma bounded_nth (env : list Z) (ws : list (option Z)) :
  bounded env ws ->
  forall v w, nth v ws None = Some w -> 0 <= nth v env 0 < 2 ^ w.
Proof.
  induction 1 as [| x o env ws Hx _ IH]; intros v w Hv.
  - destruct v; discriminate Hv.
  - destruct v as [| v]; cbn [nth] in *.
    + subst o. exact Hx.
    + apply IH. exact Hv.
Qed.

Lemma bit_sound (env : list Z) (ws : list (option Z)) (e : expr) :
  bounded env ws ->
  forall i, 0 <= i ->
    Z.testbit (denote env e) i = interp (bits_of env) (bit ws e i).
Proof.
  intros Hb.
  induction e as [v | z | a IHa b IHb | a IHa b IHb | a IHa b IHb | a IHa
                  | a IHa k | a IHa k | a IHa k];
    intros i Hi; cbn [denote bit].
  - destruct (nth v ws None) as [w |] eqn:Ew; [| reflexivity].
    destruct (Z.ltb_spec i w) as [Hlt | Hge]; [reflexivity |].
    cbn [interp]. apply (narrow_high _ w); [| exact Hge].
    apply (bounded_nth env ws Hb). exact Ew.
  - reflexivity.
  - rewrite interp_fand, Z.land_spec, IHa, IHb by exact Hi. reflexivity.
  - rewrite interp_for, Z.lor_spec, IHa, IHb by exact Hi. reflexivity.
  - rewrite interp_fxor, Z.lxor_spec, IHa, IHb by exact Hi. reflexivity.
  - rewrite interp_fnot, Z.lnot_spec, IHa by exact Hi. reflexivity.
  - rewrite Z.shiftl_spec by exact Hi.
    destruct (Z.ltb_spec (i - k) 0) as [Hlt | Hge].
    + apply Z.testbit_neg_r. exact Hlt.
    + apply IHa. exact Hge.
  - rewrite Z.shiftr_spec by exact Hi.
    destruct (Z.ltb_spec (i + k) 0) as [Hlt | Hge].
    + apply Z.testbit_neg_r. exact Hlt.
    + apply IHa. exact Hge.
  - destruct (Z.ltb_spec k 0) as [Hk | Hk]; cbn [orb].
    + rewrite Z.pow_neg_r by exact Hk. rewrite Z.mod_0_r. apply IHa. exact Hi.
    + destruct (Z.ltb_spec i k) as [Hlt | Hge].
      * rewrite Z.mod_pow2_bits_low by lia. apply IHa. exact Hi.
      * apply Z.mod_pow2_bits_high. lia.
Qed.

Lemma width_sound (env : list Z) (ws : list (option Z)) (e : expr) :
  bounded env ws ->
  forall w, width ws e = Some w -> 0 <= w /\ 0 <= denote env e < 2 ^ w.
Proof.
  intros Hb.
  induction e as [v | z | a IHa b IHb | a IHa b IHb | a IHa b IHb | a IHa
                  | a IHa k | a IHa k | a IHa k];
    intros w Hw; cbn [width denote] in *.
  - pose proof (bounded_nth env ws Hb v w Hw) as Hx.
    split; [| exact Hx].
    destruct (Z.ltb_spec w 0) as [Hneg | Hpos]; [| exact Hpos].
    rewrite Z.pow_neg_r in Hx by exact Hneg. lia.
  - destruct (Z.ltb_spec z 0) as [Hz | Hz]; [discriminate |].
    apply Some_eq_inv in Hw. subst w.
    pose proof (Z.log2_nonneg z) as Hl.
    split; [lia |]. apply narrow_intro; [lia |].
    intros i Hi. apply Z.bits_above_log2; lia.
  - destruct (width ws a) as [x |] eqn:Ea, (width ws b) as [y |] eqn:Eb;
      try discriminate; apply Some_eq_inv in Hw; subst w.
    + destruct (IHa x eq_refl) as [Hx Ha]. destruct (IHb y eq_refl) as [Hy Hb'].
      split; [lia |]. apply narrow_intro; [lia |].
      intros i Hi. rewrite Z.land_spec.
      destruct (Z.le_ge_cases x y).
      * rewrite (narrow_high _ _ Ha) by lia. reflexivity.
      * rewrite (narrow_high _ _ Hb') by lia. apply andb_false_r.
    + destruct (IHa x eq_refl) as [Hx Ha].
      split; [lia |]. apply narrow_intro; [lia |].
      intros i Hi. rewrite Z.land_spec, (narrow_high _ _ Ha) by lia. reflexivity.
    + destruct (IHb y eq_refl) as [Hy Hb'].
      split; [lia |]. apply narrow_intro; [lia |].
      intros i Hi. rewrite Z.land_spec, (narrow_high _ _ Hb') by lia.
      apply andb_false_r.
  - destruct (width ws a) as [x |] eqn:Ea; [| discriminate].
    destruct (width ws b) as [y |] eqn:Eb; [| discriminate].
    apply Some_eq_inv in Hw; subst w.
    destruct (IHa x eq_refl) as [Hx Ha]. destruct (IHb y eq_refl) as [Hy Hb'].
    split; [lia |]. apply narrow_intro; [lia |].
    intros i Hi.
    rewrite Z.lor_spec, (narrow_high _ _ Ha), (narrow_high _ _ Hb') by lia.
    reflexivity.
  - destruct (width ws a) as [x |] eqn:Ea; [| discriminate].
    destruct (width ws b) as [y |] eqn:Eb; [| discriminate].
    apply Some_eq_inv in Hw; subst w.
    destruct (IHa x eq_refl) as [Hx Ha]. destruct (IHb y eq_refl) as [Hy Hb'].
    split; [lia |]. apply narrow_intro; [lia |].
    intros i Hi.
    rewrite Z.lxor_spec, (narrow_high _ _ Ha), (narrow_high _ _ Hb') by lia.
    reflexivity.
  - discriminate.
  - destruct (Z.ltb_spec k 0) as [Hk | Hk]; [discriminate |].
    destruct (width ws a) as [x |] eqn:Ea; [| discriminate].
    apply Some_eq_inv in Hw; subst w.
    destruct (IHa x eq_refl) as [Hx Ha].
    split; [lia |]. apply narrow_intro; [lia |].
    intros i Hi. rewrite Z.shiftl_spec by lia.
    apply (narrow_high _ _ Ha). lia.
  - destruct (Z.ltb_spec k 0) as [Hk | Hk]; [discriminate |].
    destruct (IHa w Hw) as [Hx Ha].
    split; [lia |]. apply narrow_intro; [lia |].
    intros i Hi. rewrite Z.shiftr_spec by lia.
    apply (narrow_high _ _ Ha). lia.
  - destruct (Z.ltb_spec k 0) as [Hk | Hk]; [discriminate |].
    apply Some_eq_inv in Hw; subst w.
    split; [lia |]. apply Z.mod_pos_bound. apply Z.pow_pos_nonneg; lia.
Qed.

Lemma In_indices (n : nat) (i : Z) : 0 <= i < Z.of_nat n -> In i (indices n).
Proof.
  intros Hi. unfold indices. apply in_map_iff. exists (Z.to_nat i).
  split; [lia |]. apply in_seq. lia.
Qed.

(** Two expressions of at most [n] bits that agree on the bits below [n]
    are equal. *)
Theorem bitwise_equal (env : list Z) (ws : list (option Z)) (n : nat) (a b : expr) :
  bounded env ws ->
  fits ws a n = true ->
  fits ws b n = true ->
  Forall (fun i => interp (bits_of env) (bit ws a i)
                  = interp (bits_of env) (bit ws b i))
         (indices n) ->
  denote env a = denote env b.
Proof.
  intros Hb Ha Hb' Hbits. unfold fits in Ha, Hb'.
  destruct (width ws a) as [x |] eqn:Ea; [| discriminate].
  destruct (width ws b) as [y |] eqn:Eb; [| discriminate].
  apply Z.leb_le in Ha, Hb'.
  destruct (width_sound env ws a Hb x Ea) as [Hx Hxa].
  destruct (width_sound env ws b Hb y Eb) as [Hy Hyb].
  apply Z.bits_inj'. intros i Hi.
  destruct (Z.lt_ge_cases i (Z.of_nat n)) as [Hlt | Hge].
  - rewrite !(bit_sound env ws) by assumption.
    rewrite Forall_forall in Hbits. apply Hbits. apply In_indices. lia.
  - rewrite (narrow_high _ _ Hxa), (narrow_high _ _ Hyb) by lia. reflexivity.
Qed.

(** Reading a term as an expression over the variables [env]. *)
Ltac var_index x env :=
  lazymatch env with
  | x :: _ => constr:(O)
  | _ :: ?rest => let n := var_index x rest in constr:(S n)
  end.

Ltac reify env t :=
  lazymatch t with
  | Z.land ?a ?b =>
      let a' := reify env a in let b' := reify env b in constr:(And a' b')
  | Z.lor ?a ?b =>
      let a' := reify env a in let b' := reify env b in constr:(Or a' b')
  | Z.lxor ?a ?b =>
      let a' := reify env a in let b' := reify env b in constr:(Xor a' b')
  | Z.lnot ?a => let a' := reify env a in constr:(Not a')
  | Z.shiftl ?a ?k => let a' := reify env a in constr:(Shl a' k)
  | Z.shiftr ?a ?k => let a' := reify env a in constr:(Shr a' k)
  | ?a mod 2 ^ ?k => let a' := reify env a in constr:(Low a' k)
  | Z0 => constr:(Lit t)
  | Zpos _ => constr:(Lit t)
  | Zneg _ => constr:(Lit t)
  | _ => let n := var_index t env in constr:(Var n)
  end.

Ltac bit_goal :=
  lazymatch goal with
  | |- interp ?val (bit ?ws ?a ?k) = interp ?val (bit ?ws ?b ?k) =>
      let fa := eval vm_compute in (bit ws a k) in
      let fb := eval vm_compute in (bit ws b k) in
      change (interp val fa = interp val fb);
      cbv [interp bits_of nth];
      first [reflexivity | btauto]
  end.

(** [bitvector env ws n] proves [l = r] for expressions over the
    variables [env] of the widths [ws], of at most [n] bits. *)
Ltac bitvector env ws n :=
  lazymatch goal with
  | |- ?l = ?r =>
      let a := reify env l in
      let b := reify env r in
      change (denote env a = denote env b);
      apply (bitwise_equal env ws n a b);
      [ repeat constructor; try assumption; try lia
      | vm_compute; reflexivity
      | vm_compute; reflexivity
      | let l := eval vm_compute in (indices n) in
        change (indices n) with l;
        repeat (apply Forall_cons; [bit_goal |]); apply Forall_nil ]
  end.

End BitVectorFacts.

(** * Properties of the instruction patching helpers *)

Lemma load_bytes_bound (m : memory) (a : Z) (n : nat) :
  0 <= le_combine (load_bytes m a n) < 2 ^ (8 * Z.of_nat n).
Proof.
  pose proof (le_combine_bound (load_bytes m a n)) as Hb.
  rewrite load_bytes_length in Hb. exact Hb.
Qed.

Lemma load_UINT32_bound (m : memory) (a : Z) : 0 <= load_UINT32 m a < 2 ^ 32.
Proof. exact (load_bytes_bound m a 4). Qed.

Lemma load_UINT32_store_UINT32 (m : memory) (a v : Z) :
  load_UINT32 (store_UINT32 m a v) a = v mod 2 ^ 32.
Proof.
  unfold load_UINT32, store_UINT32.
  rewrite (load_store_bytes_n m a (le_split 4 v) 4) by apply length_le_split.
  rewrite le_combine_split. reflexivity.
Qed.

Lemma store_UINT32_outside (m : memory) (a v x : Z) :
  x < a \/ a + 4 <= x -> store_UINT32 m a v x = m x.
Proof.
  intros Hx. unfold store_UINT32. apply store_bytes_outside.
  rewrite length_le_split. lia.
Qed.


Module SpmiUtilFacts.
Import SpmiUtil BitVector BitVectorFacts.

Lemma load_UINT16_bound (m : memory) (a : Z) : 0 <= load_UINT16 m a < 2 ^ 16.
Proof. exact (load_bytes_bound m a 2). Qed.

Lemma load_UINT16_store_UINT16 (m : memory) (a v : Z) :
  load_UINT16 (store_UINT16 m a v) a = v mod 2 ^ 16.
Proof.
  unfold load_UINT16, store_UINT16.
  rewrite (load_store_bytes_n m a (le_split 2 v) 2) by apply length_le_split.
  rewrite le_combine_split. reflexivity.
Qed.

Lemma store_UINT16_outside (m : memory) (a v x : Z) :
  x < a \/ a + 2 <= x -> store_UINT16 m a v x = m x.
Proof.
  intros Hx. unfold store_UINT16. apply store_bytes_outside.
  rewrite length_le_split. lia.
Qed.

Lemma load_UINT16_ext (m m' : memory) (a : Z) :
  (forall x, a <= x < a + 2 -> m' x = m x) -> load_UINT16 m' a = load_UINT16 m a.
Proof. intros Hx. unfold load_UINT16. f_equal. apply load_bytes_ext. exact Hx. Qed.

Lemma load_UINT16_store_other (m : memory) (a v b : Z) :
  b + 2 <= a \/ a + 2 <= b ->
  load_UINT16 (store_UINT16 m a v) b = load_UINT16 m b.
Proof.
  intros Hd. apply load_UINT16_ext.
  intros x Hx. apply store_UINT16_outside. lia.
Qed.

(** *** Relocations of arm64 code *)





Lemma rel12_patched (old imm12 : Z) :
  0 <= old < 2 ^ 32 ->
  0 <= imm12 < 2 ^ 12 ->
  let new := Z.lor (Z.land old 0xFFC003FF) (to_unsigned (Z.shiftl imm12 10))
             mod 2 ^ 32 in
  Z.land new 0xFFC003FF = Z.land old 0xFFC003FF
  /\ Z.land (Z.shiftr new 10) 0xFFF = imm12.
Proof.
  intros Hold Himm. cbv zeta. unfold to_unsigned. split.
  - bitvector [old; imm12] [Some 32; Some 12] 32%nat.
  - bitvector [old; imm12] [Some 32; Some 12] 32%nat.
Qed.

(** X3: [PutArm64Rel12] keeps the opcode and the registers of the [add]
    and stores a 12 bit offset so that it can be read back. *)
Theorem PutArm64Rel12_round_trip (m : memory) (pCode imm12 : Z) :
  0 <= imm12 < 2 ^ 12 ->
  let m' := PutArm64Rel12 m pCode imm12 in
  let addInstr := load_UINT32 m' pCode in
  Z.land addInstr 0xFFC003FF = Z.land (load_UINT32 m pCode) 0xFFC003FF
  /\ Z.land (Z.shiftr addInstr 10) 0xFFF = imm12
  /\ (forall x, x < pCode \/ pCode + 4 <= x -> m' x = m x).
Proof.
  intros Hrange. cbv zeta. unfold PutArm64Rel12. cbv zeta.
  rewrite load_UINT32_store_UINT32.
  destruct (rel12_patched (load_UINT32 m pCode) imm12 (load_UINT32_bound m pCode) Hrange)
    as [Hop Himm].
  cbv zeta in Hop, Himm. rewrite Hop, Himm.
  split; [reflexivity |]. split; [reflexivity |].
  intros x Hx. apply store_UINT32_outside. exact Hx.
Qed.

(** *** arm64 [mov] and [movk] *)

Lemma movk_patched (instr con : Z) :
  0 <= instr < 2 ^ 32 ->
  let instr' := Z.lor (Z.land instr (to_unsigned (Z.lnot (Z.shiftl 0xffff 5))))
                      (Z.shiftl (Z.land con 0xffff) 5) mod 2 ^ 32 in
  Z.land instr' 0xff800000 = Z.land instr 0xff800000
  /\ Z.land instr' 0xffe00000 = Z.land instr 0xffe00000
  /\ Z.land instr' 0x1f = Z.land instr 0x1f
  /\ Z.land (Z.shiftr instr' 5) 0xffff = Z.land con 0xffff
  /\ Z.land (Z.shiftr instr' 21) 0x3 = Z.land (Z.shiftr instr 21) 0x3.
Proof.
  intros Hinstr. cbv zeta. unfold to_unsigned.
  repeat split; bitvector [instr; con] [Some 32; @None Z] 32%nat.
Qed.

Lemma mov_is_not_movk (instr : Z) :
  Z.land instr 0xffe00000 = 0xd2800000 -> Z.land instr 0xff800000 = 0xf2800000 -> False.
Proof.
  intros Ev Ek.
  assert (Hb : Z.testbit (Z.land instr 0xff800000) 29
               = Z.testbit (Z.land instr 0xffe00000) 29).
  { rewrite !Z.land_spec. reflexivity. }
  rewrite Ek, Ev in Hb. discriminate Hb.
Qed.

(** X4: the constant of a [movk] can be replaced and read back; the
    instruction stays a [movk] with its register and its shift. *)
Theorem PutArm64MovkConstant_round_trip (m : memory) (p con reg old shift : Z) :
  GetArm64MovkConstant m p = Some (reg, old, shift) ->
  let m' := PutArm64MovkConstant m p con in
  GetArm64MovkConstant m' p = Some (reg, Z.land con 0xffff, shift)
  /\ GetArm64MovConstant m' p = None
  /\ (forall x, x < p \/ p + 4 <= x -> m' x = m x).
Proof.
  intros Hget m'. subst m'.
  unfold GetArm64MovkConstant, GetArm64MovConstant, PutArm64MovkConstant in *.
  cbv zeta in Hget. rewrite load_UINT32_store_UINT32.
  destruct (movk_patched (load_UINT32 m p) con (load_UINT32_bound m p))
    as (H1 & H2 & H3 & H4 & H5).
  cbv zeta in H1, H2, H3, H4, H5.
  rewrite H1, H2, H3, H4, H5.
  destruct (Z.eqb_spec (Z.land (load_UINT32 m p) 0xff800000) 0xf2800000) as [Ek | Ek];
    [| discriminate].
  apply Some_eq_inv in Hget. apply pair_equal_spec in Hget as [Hget Hs].
  apply pair_equal_spec in Hget as [Hr Hc]. rewrite Hr, Hs. split; [reflexivity |].
  split.
  - destruct (Z.eqb_spec (Z.land (load_UINT32 m p) 0xffe00000) 0xd2800000) as [Ev | Ev];
      [| reflexivity].
    exfalso. exact (mov_is_not_movk _ Ev Ek).
  - intros x Hx. apply store_UINT32_outside. exact Hx.
Qed.

(** X5: no instruction is decoded both as a [mov] and as a [movk], nor both
    as a [movw] and as a [movt]; a decoded register, constant and shift are
    in the range of their field. *)
Theorem decoders_are_exclusive (m : memory) (p : Z) :
  (GetArm64MovConstant m p = None \/ GetArm64MovkConstant m p = None)
  /\ (GetArm32MovwConstant m p = None \/ GetArm32MovtConstant m p = None)
  /\ match GetArm64MovConstant m p with
     | Some (reg, con) => 0 <= reg < 32 /\ 0 <= con < 65536
     | None => True
     end
  /\ match GetArm64MovkConstant m p with
     | Some (reg, con, shift) =>
         0 <= reg < 32 /\ 0 <= con < 65536 /\ In shift [0; 16; 32; 48]
     | None => True
     end.
Proof.
  unfold GetArm64MovConstant, GetArm64MovkConstant, GetArm32MovwConstant,
    GetArm32MovtConstant.
  cbv zeta.
  set (instr := load_UINT32 m p).
  set (t := to_unsigned _).
  repeat split.
  - destruct (Z.eqb_spec (Z.land instr 0xffe00000) 0xd2800000) as [Ev | Ev];
      [| left; reflexivity].
    destruct (Z.eqb_spec (Z.land instr 0xff800000) 0xf2800000) as [Ek | Ek];
      [| right; reflexivity].
    exfalso. exact (mov_is_not_movk _ Ev Ek).
  - destruct (Is32BitThumb2Instruction m p); [| left; reflexivity].
    cbn [negb].
    destruct (Z.eqb_spec (Z.land t 0xfbf08000) 0xf2400000) as [Ew | Ew];
      [| left; reflexivity].
    right. rewrite Ew. reflexivity.
  - destruct (Z.land instr 0xffe00000 =? 0xd2800000); [| exact I].
    change 0x1f with (Z.ones 5). change 0xffff with (Z.ones 16).
    rewrite !Z.land_ones by lia.
    split; apply Z.mod_pos_bound; lia.
  - destruct (Z.land instr 0xff800000 =? 0xf2800000); [| exact I].
    change 0x1f with (Z.ones 5). change 0xffff with (Z.ones 16).
    change 0x3 with (Z.ones 2).
    rewrite !Z.land_ones by lia.
    split; [apply Z.mod_pos_bound; lia |].
    split; [apply Z.mod_pos_bound; lia |].
    pose proof (Z.mod_pos_bound (Z.shiftr instr 21) (2 ^ 2) ltac:(lia)) as Hs.
    cbn [In].
    assert (Hc : Z.shiftr instr 21 mod 2 ^ 2 = 0 \/ Z.shiftr instr 21 mod 2 ^ 2 = 1
                 \/ Z.shiftr instr 21 mod 2 ^ 2 = 2 \/ Z.shiftr instr 21 mod 2 ^ 2 = 3)
      by lia.
    destruct Hc as [Hc | [Hc | [Hc | Hc]]]; rewrite Hc; lia.
Qed.

(** *** Thumb-2 [movw] and [movt] *)

Lemma opcodes_patched (a0 a1 imm16 : Z) :
  0 <= a0 < 2 ^ 16 ->
  0 <= a1 < 2 ^ 16 ->
  to_UINT16
    (Z.lor (to_UINT16
              (Z.lor (to_UINT16
                        (Z.land a0
                           (Z.lnot (Z.lor (Z.shiftr 0xf000 12) (Z.shiftr 0x0800 1)))))
                     (Z.shiftr (Z.land imm16 0xf000) 12)))
           (Z.shiftr (Z.land imm16 0x0800) 1)) mod 2 ^ 16
  = with_imm16_first a0 imm16
  /\ to_UINT16
       (Z.lor (to_UINT16
                 (Z.lor (to_UINT16
                           (Z.land a1
                              (Z.lnot (Z.lor (Z.shiftl 0x0700 4) (Z.shiftl 0x00ff 0)))))
                        (Z.shiftl (Z.land imm16 0x0700) 4)))
              (Z.shiftl (Z.land imm16 0x00ff) 0)) mod 2 ^ 16
     = with_imm16_second a1 imm16.
Proof.
  intros H0 H1. unfold with_imm16_first, with_imm16_second, to_UINT16.
  split; bitvector [a0; a1; imm16] [Some 16; Some 16; @None Z] 16%nat.
Qed.

(** What [PutThumb2Imm16] leaves in memory. *)
Lemma PutThumb2Imm16_spec (m : memory) (p imm16 : Z) :
  let m' := PutThumb2Imm16 m p imm16 in
  load_UINT16 m' p = with_imm16_first (load_UINT16 m p) imm16
  /\ load_UINT16 m' (p + 2) = with_imm16_second (load_UINT16 m (p + 2)) imm16
  /\ (forall x, x < p \/ p + 4 <= x -> m' x = m x).
Proof.
  cbv zeta. unfold PutThumb2Imm16. cbv zeta.
  destruct (opcodes_patched (load_UINT16 m p) (load_UINT16 m (p + 2)) imm16
              (load_UINT16_bound m p) (load_UINT16_bound m (p + 2))) as [H0 H1].
  split; [| split].
  - rewrite load_UINT16_store_other by lia.
    rewrite load_UINT16_store_UINT16. exact H0.
  - rewrite load_UINT16_store_UINT16. exact H1.
  - intros x Hx. rewrite !store_UINT16_outside by lia. reflexivity.
Qed.

Lemma thumb2_instruction_bound (m : memory) (p : Z) :
  to_unsigned (thumb2_instruction m p) = thumb2_instruction m p.
Proof.
  unfold thumb2_instruction, to_unsigned.
  pose proof (load_UINT16_bound m p) as H0.
  pose proof (load_UINT16_bound m (p + 2)) as H1.
  revert H0 H1. generalize (load_UINT16 m p) (load_UINT16 m (p + 2)).
  intros a0 a1 H0 H1.
  bitvector [a0; a1] [Some 16; Some 16] 32%nat.
Qed.

Lemma patched_instruction (a0 a1 imm16 : Z) :
  0 <= a0 < 2 ^ 16 ->
  0 <= a1 < 2 ^ 16 ->
  let instr := Z.lor (Z.shiftl a0 16) a1 in
  let instr' := Z.lor (Z.shiftl (with_imm16_first a0 imm16) 16)
                      (with_imm16_second a1 imm16) in
  ExtractArm32MovImm instr' = Z.land imm16 0xffff
  /\ Z.land instr' 0xfbf08f00 = Z.land instr 0xfbf08f00
  /\ Z.land instr' 0xfbf08000 = Z.land instr 0xfbf08000
  /\ Z.shiftr (Z.land instr' 0xf00) 8 = Z.shiftr (Z.land instr 0xf00) 8
  /\ Z.land (with_imm16_first a0 imm16) 0xf800 = Z.land a0 0xf800.
Proof.
  intros H0 H1. cbv zeta.
  unfold ExtractArm32MovImm, with_imm16_first, with_imm16_second. cbv zeta.
  repeat split; bitvector [a0; a1; imm16] [Some 16; Some 16; @None Z] 32%nat.
Qed.

(** X6: the immediate that [PutThumb2Imm16] puts into a [movw] or [movt]
    is the one [ExtractArm32MovImm] reads back; the other bits of the
    instruction and the rest of the memory are kept. *)
Theorem PutThumb2Imm16_round_trip (m : memory) (p imm16 : Z) :
  0 <= imm16 < 2 ^ 16 ->
  let m' := PutThumb2Imm16 m p imm16 in
  ExtractArm32MovImm (thumb2_instruction m' p) = imm16
  /\ Z.land (thumb2_instruction m' p) 0xfbf08f00
     = Z.land (thumb2_instruction m p) 0xfbf08f00
  /\ (forall x, x < p \/ p + 4 <= x -> m' x = m x).
Proof.
  intros Himm m'. subst m'.
  destruct (PutThumb2Imm16_spec m p imm16) as (H0 & H1 & Hframe).
  cbv zeta in H0, H1, Hframe.
  destruct (patched_instruction (load_UINT16 m p) (load_UINT16 m (p + 2)) imm16
              (load_UINT16_bound m p) (load_UINT16_bound m (p + 2)))
    as (He & Hk & _).
  cbv zeta in He, Hk.
  unfold thumb2_instruction. rewrite H0, H1.
  split; [| split; [exact Hk | exact Hframe]].
  rewrite He. change 0xffff with (Z.ones 16). rewrite Z.land_ones by lia.
  apply Z.mod_small. exact Himm.
Qed.

(** The decoders in terms of the instruction. *)
Lemma GetArm32MovwConstant_eq (m : memory) (p : Z) :
  GetArm32MovwConstant m p
  = if negb (Z.land (load_UINT16 m p) 0xf800 <? 0xe800)
       && (Z.land (thumb2_instruction m p) 0xfbf08000 =? 0xf2400000)
    then Some (Z.shiftr (Z.land (thumb2_instruction m p) 0xf00) 8,
               ExtractArm32MovImm (thumb2_instruction m p))
    else None.
Proof.
  unfold GetArm32MovwConstant, Is32BitThumb2Instruction. cbv zeta.
  change (Z.lor (Z.shiftl (load_UINT16 m p) 16) (load_UINT16 m (p + 2)))
    with (thumb2_instruction m p).
  rewrite thumb2_instruction_bound.
  destruct (Z.land (load_UINT16 m p) 0xf800 <? 0xe800); cbn [negb andb];
    [reflexivity |].
  destruct (Z.land (thumb2_instruction m p) 0xfbf08000 =? 0xf2400000); reflexivity.
Qed.

Lemma GetArm32MovtConstant_eq (m : memory) (p : Z) :
  GetArm32MovtConstant m p
  = if negb (Z.land (load_UINT16 m p) 0xf800 <? 0xe800)
       && (Z.land (thumb2_instruction m p) 0xfbf08000 =? 0xf2C00000)
    then Some (Z.shiftr (Z.land (thumb2_instruction m p) 0xf00) 8,
               ExtractArm32MovImm (thumb2_instruction m p))
    else None.
Proof.
  unfold GetArm32MovtConstant, Is32BitThumb2Instruction. cbv zeta.
  change (Z.lor (Z.shiftl (load_UINT16 m p) 16) (load_UINT16 m (p + 2)))
    with (thumb2_instruction m p).
  rewrite thumb2_instruction_bound.
  destruct (Z.land (load_UINT16 m p) 0xf800 <? 0xe800); cbn [negb andb];
    [reflexivity |].
  destruct (Z.land (thumb2_instruction m p) 0xfbf08000 =? 0xf2C00000); reflexivity.
Qed.

(** The decoders read the four bytes of the instruction only. *)
Lemma decoders_local (m m' : memory) (p : Z) :
  (forall x, p <= x < p + 4 -> m' x = m x) ->
  GetArm32MovwConstant m' p = GetArm32MovwConstant m p
  /\ GetArm32MovtConstant m' p = GetArm32MovtConstant m p.
Proof.
  intros Hsame.
  assert (H0 : load_UINT16 m' p = load_UINT16 m p)
    by (apply load_UINT16_ext; intros x Hx; apply Hsame; lia).
  assert (H1 : load_UINT16 m' (p + 2) = load_UINT16 m (p + 2))
    by (apply load_UINT16_ext; intros x Hx; apply Hsame; lia).
  rewrite !GetArm32MovwConstant_eq, !GetArm32MovtConstant_eq.
  unfold thumb2_instruction. rewrite H0, H1. split; reflexivity.
Qed.

(** Patching the immediate keeps the kind and the register of the
    instruction and replaces its constant. *)
Lemma decoded_after_PutThumb2Imm16 (m : memory) (p imm16 : Z) :
  let m' := PutThumb2Imm16 m p imm16 in
  GetArm32MovwConstant m' p
  = with_constant (Z.land imm16 0xffff) (GetArm32MovwConstant m p)
  /\ GetArm32MovtConstant m' p
     = with_constant (Z.land imm16 0xffff) (GetArm32MovtConstant m p).
Proof.
  cbv zeta.
  destruct (PutThumb2Imm16_spec m p imm16) as (H0 & H1 & _).
  cbv zeta in H0, H1.
  destruct (patched_instruction (load_UINT16 m p) (load_UINT16 m (p + 2)) imm16
              (load_UINT16_bound m p) (load_UINT16_bound m (p + 2)))
    as (He & _ & Hop & Hreg & Hhigh).
  cbv zeta in He, Hop, Hreg, Hhigh.
  rewrite !GetArm32MovwConstant_eq, !GetArm32MovtConstant_eq.
  unfold thumb2_instruction. rewrite H0, H1, He, Hop, Hreg, Hhigh.
  split.
  - destruct (negb _ && _); reflexivity.
  - destruct (negb _ && _); reflexivity.
Qed.

(** X7: after [PutThumb2Mov32] a [movw]/[movt] pair loads the 32 bit
    constant: the decoders find the registers as before, the low half of
    the constant in the [movw] and the high half in the [movt]. *)
Theorem PutThumb2Mov32_decoded (m : memory) (p imm32 r1 c1 r2 c2 : Z) :
  0 <= imm32 < 2 ^ 32 ->
  GetArm32MovwConstant m p = Some (r1, c1) ->
  GetArm32MovtConstant m (p + 4) = Some (r2, c2) ->
  let m' := PutThumb2Mov32 m p imm32 in
  exists lo hi,
    GetArm32MovwConstant m' p = Some (r1, lo)
    /\ GetArm32MovtConstant m' (p + 4) = Some (r2, hi)
    /\ lo + 2 ^ 16 * hi = imm32
    /\ (forall x, x < p \/ p + 8 <= x -> m' x = m x).
Proof.
  intros Himm Hw Ht m'. subst m'. unfold PutThumb2Mov32.
  set (m1 := PutThumb2Imm16 m p (to_UINT16 imm32)).
  set (m2 := PutThumb2Imm16 m1 (p + 4) (to_UINT16 (Z.shiftr imm32 16))).
  destruct (PutThumb2Imm16_spec m p (to_UINT16 imm32)) as (_ & _ & Hf1).
  destruct (PutThumb2Imm16_spec m1 (p + 4) (to_UINT16 (Z.shiftr imm32 16)))
    as (_ & _ & Hf2).
  cbv zeta in Hf1, Hf2. fold m1 in Hf1. fold m2 in Hf2.
  exists (Z.land (to_UINT16 imm32) 0xffff),
         (Z.land (to_UINT16 (Z.shiftr imm32 16)) 0xffff).
  split; [| split; [| split]].
  - destruct (decoders_local m1 m2 p) as [Hl _].
    { intros x Hx. apply Hf2. lia. }
    rewrite Hl.
    destruct (decoded_after_PutThumb2Imm16 m p (to_UINT16 imm32)) as [Hd _].
    cbv zeta in Hd. fold m1 in Hd. rewrite Hd, Hw. reflexivity.
  - destruct (decoded_after_PutThumb2Imm16 m1 (p + 4) (to_UINT16 (Z.shiftr imm32 16)))
      as [_ Hd].
    cbv zeta in Hd. fold m2 in Hd. rewrite Hd.
    destruct (decoders_local m m1 (p + 4)) as [_ Hl].
    { intros x Hx. apply Hf1. lia. }
    rewrite Hl, Ht. reflexivity.
  - unfold to_UINT16. change 0xffff with (Z.ones 16).
    rewrite !Z.land_ones, !Z.mod_mod by lia.
    rewrite Z.shiftr_div_pow2 by lia.
    change (2 ^ 32) with (2 ^ 16 * 2 ^ 16) in Himm.
    rewrite (Z.mod_small (imm32 / 2 ^ 16)).
    + pose proof (Z.div_mod imm32 (2 ^ 16) ltac:(lia)). lia.
    + split; [apply Z.div_pos; lia |].
      apply Z.div_lt_upper_bound; lia.
  - intros x Hx. rewrite Hf2 by lia. apply Hf1. lia.
Qed.




(** *** Thumb-2 [bl] *)

Lemma bl_patched (a0 a1 imm24 : Z) :
  0 <= a0 < 2 ^ 16 ->
  0 <= a1 < 2 ^ 16 ->
  let S := Z.shiftr (Z.land imm24 0x1000000) 24 in
  let J1 := Z.lxor (Z.lxor (Z.shiftr (Z.land imm24 0x0800000) 23) S) 1 in
  let J2 := Z.lxor (Z.lxor (Z.shiftr (Z.land imm24 0x0400000) 22) S) 1 in
  let Opcode0 :=
    to_UINT16 (Z.lor (to_UINT16 (Z.land a0 0xF800))
                 (Z.lor (Z.shiftr (Z.land imm24 0x03FF000) 12) (Z.shiftl S 10)))
    mod 2 ^ 16 in
  let Opcode1 :=
    to_UINT16 (Z.lor (to_UINT16 (Z.land a1 0xD000))
                 (Z.lor (Z.lor (Z.shiftr (Z.land imm24 0x0000FFE) 1) (Z.shiftl J1 13))
                        (Z.shiftl J2 11)))
    mod 2 ^ 16 in
  Z.land Opcode0 0xF800 = Z.land a0 0xF800
  /\ Z.land Opcode1 0xD000 = Z.land a1 0xD000
  /\ Thumb2BlRel24_offset Opcode0 Opcode1 = Z.land imm24 0x1FFFFFE.
Proof.
  intros H0 H1. cbv zeta. unfold Thumb2BlRel24_offset, to_UINT16. cbv zeta.
  repeat split; bitvector [a0; a1; imm24] [Some 16; Some 16; @None Z] 32%nat.
Qed.

(** X9: [PutThumb2BlRel24] keeps the opcode bits of the two halfwords of
    a [bl] and stores the bits 1 to 24 of the branch offset so that they
    can be read back. *)
Theorem PutThumb2BlRel24_round_trip (m : memory) (p imm24 : Z) :
  let m' := PutThumb2BlRel24 m p imm24 in
  let Opcode0 := load_UINT16 m' p in
  let Opcode1 := load_UINT16 m' (p + 2) in
  Z.land Opcode0 0xF800 = Z.land (load_UINT16 m p) 0xF800
  /\ Z.land Opcode1 0xD000 = Z.land (load_UINT16 m (p + 2)) 0xD000
  /\ Thumb2BlRel24_offset Opcode0 Opcode1 = Z.land imm24 0x1FFFFFE
  /\ (forall x, x < p \/ p + 4 <= x -> m' x = m x).
Proof.
  cbv zeta. unfold PutThumb2BlRel24. cbv zeta.
  rewrite (load_UINT16_store_other _ (p + 2) _ p) by lia.
  rewrite !load_UINT16_store_UINT16.
  destruct (bl_patched (load_UINT16 m p) (load_UINT16 m (p + 2)) imm24
              (load_UINT16_bound m p) (load_UINT16_bound m (p + 2)))
    as (H0 & H1 & Hoff).
  cbv zeta in H0, H1, Hoff.
  split; [exact H0 |]. split; [exact H1 |]. split; [exact Hoff |].
  intros x Hx. rewrite !store_UINT16_outside by lia. reflexivity.
Qed.

(** *** [ReplaceIllegalCharacters] *)

Lemma body_cases (ch : Z) :
  ReplaceIllegalCharacters_body ch = W "_"
  \/ (ch = quote_character /\ ReplaceIllegalCharacters_body ch = W " ")
  \/ (ReplaceIllegalCharacters_body ch = ch
      /\ allowed_character ch = true /\ ch <> W " ").
Proof.
  unfold ReplaceIllegalCharacters_body, allowed_character.
  destruct (Z.leb_spec ch 32) as [Hlow | Hlow]; cbn [orb]; [left; reflexivity |].
  destruct (Z.geb_spec ch 127) as [Hhigh | Hhigh]; [left; reflexivity |].
  destruct (existsb (Z.eqb ch) illegal_characters); [left; reflexivity |].
  destruct (Z.eqb_spec ch quote_character) as [Hq | Hq].
  - right. left. split; [exact Hq | reflexivity].
  - right. right. split; [reflexivity |]. split.
    + destruct (Z.leb_spec 32 ch); [| lia].
      destruct (Z.ltb_spec ch 127); [| lia]. reflexivity.
    + change (W " ") with 32. lia.
Qed.

Lemma body_allowed (ch : Z) : allowed_character (ReplaceIllegalCharacters_body ch) = true.
Proof.
  destruct (body_cases ch) as [H | [[_ H] | [H [Ha _]]]]; rewrite H;
    [reflexivity | reflexivity | exact Ha].
Qed.


Lemma body_fixed (ch : Z) :
  allowed_character ch = true -> ch <> W " " -> ReplaceIllegalCharacters_body ch = ch.
Proof.
  unfold allowed_character, ReplaceIllegalCharacters_body. intros Ha Hs.
  apply andb_true_iff in Ha as [Ha Hq]. apply andb_true_iff in Ha as [Ha Hi].
  apply andb_true_iff in Ha as [Hlow Hhigh].
  apply Z.leb_le in Hlow. apply Z.ltb_lt in Hhigh.
  apply negb_true_iff in Hi, Hq. change (W " ") with 32 in Hs.
  destruct (Z.leb_spec ch 32); [lia |].
  destruct (Z.geb_spec ch 127); [lia |]. cbn [orb].
  rewrite Hi, Hq. reflexivity.
Qed.

(** The loop on a terminated string. *)
Lemma ReplaceIllegalCharacters_terminated (name rest : list Z) :
  Forall (fun ch => ch <> 0) name ->
  ReplaceIllegalCharacters (name ++ 0 :: rest)
  = Ok (map ReplaceIllegalCharacters_body name ++ 0 :: rest).
Proof.
  induction 1 as [| ch name Hch _ IH]; [reflexivity |].
  cbn [app map ReplaceIllegalCharacters].
  destruct (Z.eqb_spec ch 0) as [Hz | _]; [contradiction |].
  cbn [negb]. rewrite IH. reflexivity.
Qed.

(** X10: [ReplaceIllegalCharacters] rewrites the characters before the
    terminator one by one and nothing else; what it leaves is a space or
    a printable ASCII character that is neither illegal nor a quote; a
    character of that kind other than the space is kept.  Without a
    terminator the loop leaves the array. *)
Theorem ReplaceIllegalCharacters_sanitises (name rest : list Z) :
  Forall (fun ch => ch <> 0) name ->
  exists name',
    ReplaceIllegalCharacters (name ++ 0 :: rest) = Ok (name' ++ 0 :: rest)
    /\ length name' = length name
    /\ Forall (fun ch => allowed_character ch = true) name'
    /\ Forall2 (fun ch ch' =>
                  (allowed_character ch = true -> ch <> W " " -> ch' = ch)
                  /\ (ch' = W " " <-> ch = quote_character))
               name name'
    /\ ReplaceIllegalCharacters name = Undefined.
Proof.
  intros Hname. exists (map ReplaceIllegalCharacters_body name).
  split; [apply ReplaceIllegalCharacters_terminated; exact Hname |].
  split; [apply length_map |].
  split; [apply Forall_map, Forall_forall; intros ch _; apply body_allowed |].
  split.
  - clear Hname. induction name as [| ch name IH]; [constructor |].
    cbn [map]. constructor; [| exact IH].
    split; [apply body_fixed |].
    destruct (body_cases ch) as [H | [[Hq H] | [H [_ Hs]]]]; rewrite H.
    + split; [discriminate |]. intros Hq. subst ch. discriminate H.
    + split; [intros _; exact Hq | reflexivity].
    + split; [intros Heq; contradiction |].
      intros Hq. subst ch. exfalso. apply Hs.
      unfold ReplaceIllegalCharacters_body in H. discriminate H.
  - induction Hname as [| ch name Hch _ IH]; [reflexivity |].
    cbn [ReplaceIllegalCharacters].
    destruct (Z.eqb_spec ch 0) as [Hz | _]; [contradiction |].
    cbn [negb]. rewrite IH. reflexivity.
Qed.


End SpmiUtilFacts.

(** * Properties of the event serializers *)

Module gc_event_facts.
Import gc_event.

Lemma emit_all_frame (bss : list (list byte)) :
  forall out x,
    x < buffer out \/ buffer out + Z.of_nat (length (concat bss)) <= x ->
    written (fold_left emit bss out) x = written out x.
Proof.
  induction bss as [| bs bss IH]; intros out x Hx; [reflexivity |].
  cbn [fold_left concat] in *. rewrite length_app in Hx.
  rewrite IH by (cbn [emit buffer]; lia).
  cbn [emit written]. apply store_bytes_outside. lia.
Qed.

Lemma emit_all_buffer (bss : list (list byte)) :
  forall out,
    buffer (fold_left emit bss out) = buffer out + Z.of_nat (length (concat bss)).
Proof.
  induction bss as [| bs bss IH]; intros out; cbn [fold_left concat].
  - cbn [length]. lia.
  - rewrite IH, length_app. cbn [emit buffer]. lia.
Qed.

Lemma emit_all_bytes (bss : list (list byte)) :
  forall out,
    load_bytes (written (fold_left emit bss out)) (buffer out) (length (concat bss))
    = concat bss.
Proof.
  induction bss as [| bs bss IH]; intros out; [reflexivity |].
  cbn [fold_left concat]. rewrite length_app, Arm64Facts.load_bytes_app.
  f_equal.
  - rewrite (load_bytes_ext (written (emit out bs))).
    + cbn [emit written]. apply load_store_bytes.
    + intros x Hx. apply emit_all_frame. cbn [emit buffer]. lia.
  - apply (IH (emit out bs)).
Qed.

Section WithHost.
Context `{Host}.

Lemma swapped_representation (n : nat) (v : Z) :
  BIGENDIAN = true ->
  object_representation n (le_combine (rev (le_split n v))) = le_split n v.
Proof.
  intros Hbig. unfold object_representation. rewrite Hbig.
  rewrite <- (length_le_split n v) at 1. rewrite <- length_rev.
  rewrite split_le_combine. apply rev_involutive.
Qed.

Lemma native_representation (n : nat) (v : Z) :
  BIGENDIAN = false -> object_representation n v = le_split n v.
Proof. intros Hlittle. unfold object_representation. rewrite Hlittle. reflexivity. Qed.

Lemma integral_serialization (value : Z) :
  serializes_as (arg (UINT8 value)) (le_split 1 value)
  /\ serializes_as (arg (UINT16 value)) (le_split 2 value)
  /\ serializes_as (arg (UINT32 value)) (le_split 4 value)
  /\ serializes_as (arg (UINT64 value)) (le_split 8 value).
Proof.
  split; [split; [intros out |]; reflexivity |].
  split; [| split].
  - split; [intros out | reflexivity].
    cbn [Serialize_arg Serialize EventSerializationTraits_uint16_t].
    unfold emit, memcpy, ByteSwap16.
    destruct BIGENDIAN eqn:E;
      [rewrite swapped_representation | rewrite native_representation];
      try exact E; reflexivity.
  - split; [intros out | reflexivity].
    cbn [Serialize_arg Serialize EventSerializationTraits_uint32_t].
    unfold emit, memcpy, ByteSwap32.
    destruct BIGENDIAN eqn:E;
      [rewrite swapped_representation | rewrite native_representation];
      try exact E; reflexivity.
  - split; [intros out | reflexivity].
    cbn [Serialize_arg Serialize EventSerializationTraits_uint64_t].
    unfold emit, memcpy, ByteSwap64.
    destruct BIGENDIAN eqn:E;
      [rewrite swapped_representation | rewrite native_representation];
      try exact E; reflexivity.
Qed.

(** X12: the integral types are serialized in little endian on every
    host, the pointer moves by [SerializedSize], and the value is what a
    little endian read finds. *)
Theorem integral_types_are_little_endian (value : Z) :
  serializes_as (arg (UINT8 value)) (le_split 1 value)
  /\ serializes_as (arg (UINT16 value)) (le_split 2 value)
  /\ serializes_as (arg (UINT32 value)) (le_split 4 value)
  /\ serializes_as (arg (UINT64 value)) (le_split 8 value)
  /\ (forall out,
        le_combine (load_bytes (written (Serialize (UINT8 value) out)) (buffer out) 1)
        = value mod 2 ^ 8
        /\ le_combine (load_bytes (written (Serialize (UINT16 value) out)) (buffer out) 2)
           = value mod 2 ^ 16
        /\ le_combine (load_bytes (written (Serialize (UINT32 value) out)) (buffer out) 4)
           = value mod 2 ^ 32
        /\ le_combine (load_bytes (written (Serialize (UINT64 value) out)) (buffer out) 8)
           = value mod 2 ^ 64).
Proof.
  destruct (integral_serialization value) as (H8 & H16 & H32 & H64).
  split; [exact H8 |]. split; [exact H16 |]. split; [exact H32 |].
  split; [exact H64 |].
  intros out.
  destruct H8 as [H8 _], H16 as [H16 _], H32 as [H32 _], H64 as [H64 _].
  specialize (H8 out). specialize (H16 out). specialize (H32 out). specialize (H64 out).
  cbn [Serialize_arg] in H8, H16, H32, H64.
  rewrite H8, H16, H32, H64. cbn [emit written].
  rewrite !load_store_bytes_n by apply length_le_split.
  rewrite !le_combine_split. repeat split; reflexivity.
Qed.

(** X13: a [float] is copied as the host holds it, without a byte swap:
    on a big endian host its bytes are the reverse of those of the
    [uint32_t] with the same bit pattern. *)
Theorem float_is_host_order (bits : Z) :
  serializes_as (arg (FLOAT bits))
    (if BIGENDIAN then rev (le_split 4 bits) else le_split 4 bits)
  /\ (forall out,
        load_bytes (written (Serialize (FLOAT bits) out)) (buffer out) 4
        = load_bytes (written (Serialize (UINT32 bits) out)) (buffer out) 4
        <-> BIGENDIAN = false \/ rev (le_split 4 bits) = le_split 4 bits).
Proof.
  assert (Hf : serializes_as (arg (FLOAT bits))
                 (if BIGENDIAN then rev (le_split 4 bits) else le_split 4 bits)).
  { split.
    - intros out. cbn [Serialize_arg Serialize EventSerializationTraits_float].
      unfold emit, memcpy, object_representation.
      destruct BIGENDIAN; reflexivity.
    - destruct BIGENDIAN; reflexivity. }
  split; [exact Hf |].
  intros out.
  destruct (integral_serialization bits) as (_ & _ & [H32 _] & _).
  destruct Hf as [Hf _].
  specialize (Hf out). specialize (H32 out). cbn [Serialize_arg] in Hf, H32.
  rewrite Hf, H32. cbn [emit written].
  rewrite (load_store_bytes_n _ _ (le_split 4 bits) 4) by apply length_le_split.
  destruct BIGENDIAN.
  - rewrite load_store_bytes_n by (rewrite length_rev; apply length_le_split).
    split; [intros Heq; right; exact Heq | intros [Hd | Heq]; [discriminate | exact Heq]].
  - rewrite load_store_bytes_n by apply length_le_split.
    split; [intros _; left; reflexivity | reflexivity].
Qed.

End WithHost.

(** X14: the variadic [Serialize] lays the arguments out one after the
    other: the buffer holds the concatenation of their serialized forms,
    the pointer has moved by the variadic [SerializedSize], and no byte
    outside of that range is written. *)
Theorem Serialize_list_layout (head : Arg) (tail : list Arg) (bss : list (list byte))
    (buf : Output) :
  Forall2 serializes_as (head :: tail) bss ->
  let buf' := Serialize_list buf head tail in
  let size := SerializedSize_list head tail in
  buf' = fold_left emit bss buf
  /\ size = Z.of_nat (length (concat bss))
  /\ buffer buf' = buffer buf + size
  /\ load_bytes (written buf') (buffer buf) (Z.to_nat size) = concat bss
  /\ (forall x, x < buffer buf \/ buffer buf + size <= x ->
                written buf' x = written buf x).
Proof.
  intros Hall. cbv zeta.
  assert (Hrun : Serialize_list buf head tail = fold_left emit bss buf
                 /\ SerializedSize_list head tail = Z.of_nat (length (concat bss))).
  { revert head bss buf Hall.
    induction tail as [| head' tail IH]; intros head bss buf Hall.
    - inversion Hall as [| ? bs ? bss' [Hs Hn] Hrest]; subst.
      inversion Hrest; subst.
      cbn [Serialize_list SerializedSize_list fold_left concat].
      rewrite Hs, Hn, app_nil_r. split; reflexivity.
    - inversion Hall as [| ? bs ? bss' [Hs Hn] Hrest]; subst.
      destruct (IH head' bss' (emit buf bs) Hrest) as [IHs IHn].
      cbn [Serialize_list SerializedSize_list fold_left concat].
      rewrite Hs, IHs, Hn, IHn, length_app. split; [reflexivity | lia]. }
  destruct Hrun as [Hs Hn]. rewrite Hs, Hn.
  split; [reflexivity |]. split; [reflexivity |].
  split; [apply emit_all_buffer |].
  split; [rewrite Nat2Z.id; apply emit_all_bytes |].
  intros x Hx. apply emit_all_frame. exact Hx.
Qed.

(** X15: serializing a list of arguments is serializing a first part of
    it and then the rest where the first part ended; the sizes add up. *)
Theorem Serialize_list_app (head : Arg) (tail : list Arg) (head' : Arg)
    (tail' : list Arg) (buf : Output) :
  Serialize_list buf head (tail ++ head' :: tail')
  = Serialize_list (Serialize_list buf head tail) head' tail'
  /\ SerializedSize_list head (tail ++ head' :: tail')
     = SerializedSize_list head tail + SerializedSize_list head' tail'.
Proof.
  revert head buf.
  induction tail as [| h tail IH]; intros head buf.
  - split; reflexivity.
  - destruct (IH h (Serialize_arg head buf)) as [IHs IHn].
    cbn [app Serialize_list SerializedSize_list].
    rewrite IHs, IHn. split; [reflexivity | lia].
Qed.

End gc_event_facts.

(** * Scattering and gathering *)

(** A byte that a list of writes covers does not depend on the memory
    the writes are applied to. *)
Lemma apply_writes_determined (ws : list write) :
  forall (m1 m2 : memory) (x : Z),
    covered x ws = true -> apply_writes ws m1 x = apply_writes ws m2 x.
Proof.
  induction ws as [| [a bs] ws IH]; intros m1 m2 x Hc; [discriminate |].
  rewrite !apply_writes_cons. cbn [fst snd].
  destruct (covered x ws) eqn:Etail.
  - apply IH. exact Etail.
  - rewrite !(apply_writes_frame ws _ x Etail).
    unfold covered in Hc, Etail. cbn [existsb fst snd] in Hc.
    rewrite Etail, orb_false_r in Hc.
    apply andb_true_iff in Hc as [H1 H2].
    apply Z.leb_le in H1. apply Z.ltb_lt in H2.
    rewrite !store_bytes_inside by lia. reflexivity.
Qed.

Lemma covered_in_slots (ws : list write) (x : Z) :
  covered x ws = in_slots x (map extent ws).
Proof.
  unfold covered, in_slots. induction ws as [| w ws IH]; [reflexivity |].
  cbn [map existsb]. rewrite IH. reflexivity.
Qed.

Lemma firstn_plus {A : Type} (n k : nat) :
  forall l : list A, firstn (n + k) l = firstn n l ++ firstn k (skipn n l).
Proof.
  induction n as [| n IH]; intros l; [reflexivity |].
  destruct l as [| a l]; cbn [Nat.add firstn skipn app].
  - rewrite firstn_nil. reflexivity.
  - rewrite IH. reflexivity.
Qed.

Lemma src_bytes_app (buf : list byte) (s n k : Z) :
  0 <= s -> 0 <= n -> 0 <= k ->
  src_bytes buf s n ++ src_bytes buf (s + n) k = src_bytes buf s (n + k).
Proof.
  intros Hs Hn Hk. unfold src_bytes.
  rewrite !Z2Nat.inj_add by lia.
  rewrite (Nat.add_comm (Z.to_nat s)), <- (skipn_skipn (Z.to_nat n) (Z.to_nat s) buf).
  generalize (skipn (Z.to_nat s) buf). intros l.
  rewrite firstn_plus. reflexivity.
Qed.

Module ScatterGather.
Import UnixAmd64.
Section WithPlatform.
Context `{Platform}.

(** The source bytes of the units, one after the other. *)
Lemma scatter_sources (buf : list byte) (us : list EightByte) :
  forall s g f,
    Forall (fun u => 0 <= eightByteSize u) us ->
    0 <= s ->
    concat (map snd (scatter buf s g f us)) = src_bytes buf s (total_size us).
Proof.
  induction us as [| u us IH]; intros s g f Hnn Hs.
  - cbn [scatter map concat total_size fold_right]. unfold src_bytes. reflexivity.
  - inversion Hnn as [| ? ? Hu Hnn']; subst.
    pose proof (total_size_nonneg us Hnn') as Hus.
    rewrite total_size_cons. cbn [scatter].
    destruct (is_sse u); cbn [map concat snd]; rewrite IH by (try assumption; lia);
      apply src_bytes_app; lia.
Qed.

(** The register bytes the writes of a layout lie in. *)
Lemma scatter_covered_within (buf : list byte) (us : list EightByte) :
  forall s g f x,
    Forall (fun u => 0 <= eightByteSize u) us ->
    Forall (fun u => is_sse u = true -> eightByteSize u = 4 \/ eightByteSize u = 8) us ->
    covered x (scatter buf s g f us) = true ->
    g <= x < g + gen_size us \/ f <= x < f + 16 * sse_count us.
Proof.
  induction us as [| u us IH]; intros s g f x Hnn Hsse Hc; [discriminate |].
  inversion Hnn as [| ? ? Hu Hnn']; subst.
  inversion Hsse as [| ? ? Hu4 Hsse']; subst.
  assert (Hcount : 0 <= sse_count us) by (unfold sse_count; lia).
  assert (Hgen : 0 <= gen_size us).
  { unfold gen_size. apply total_size_nonneg.
    apply Forall_forall. intros v Hv. apply filter_In in Hv as [Hv _].
    rewrite Forall_forall in Hnn'. apply Hnn'. exact Hv. }
  pose proof (UnixAmd64Facts.src_bytes_length_le buf s (eightByteSize u)) as Hlen.
  rewrite UnixAmd64Facts.sse_count_cons, gen_size_cons. cbn [scatter] in Hc.
  destruct (is_sse u); unfold covered in Hc; cbn [existsb fst snd] in Hc;
    apply orb_true_iff in Hc as [Hc | Hc].
  - apply andb_true_iff in Hc as [H1 H2].
    apply Z.leb_le in H1. apply Z.ltb_lt in H2.
    specialize (Hu4 eq_refl). right. lia.
  - apply (IH _ _ _ _ Hnn' Hsse') in Hc. lia.
  - apply andb_true_iff in Hc as [H1 H2].
    apply Z.leb_le in H1. apply Z.ltb_lt in H2. left. lia.
  - apply (IH _ _ _ _ Hnn' Hsse') in Hc. lia.
Qed.

(** When the integer and the floating slots do not overlap, every write
    of a layout can be read back after all of them. *)
Lemma scatter_read_back (buf : list byte) (us : list EightByte) :
  forall s g f m,
    Forall (fun u => 0 <= eightByteSize u) us ->
    Forall (fun u => is_sse u = true -> eightByteSize u = 4 \/ eightByteSize u = 8) us ->
    f + 16 * sse_count us <= g \/ g + gen_size us <= f ->
    Forall (fun w => load_bytes (apply_writes (scatter buf s g f us) m)
                       (fst w) (length (snd w)) = snd w)
           (scatter buf s g f us).
Proof.
  induction us as [| u us IH]; intros s g f m Hnn Hsse Hapart; [constructor |].
  inversion Hnn as [| ? ? Hu Hnn']; subst.
  inversion Hsse as [| ? ? Hu4 Hsse']; subst.
  assert (Hcount : 0 <= sse_count us) by (unfold sse_count; lia).
  assert (Hgen : 0 <= gen_size us).
  { unfold gen_size. apply total_size_nonneg.
    apply Forall_forall. intros v Hv. apply filter_In in Hv as [Hv _].
    rewrite Forall_forall in Hnn'. apply Hnn'. exact Hv. }
  pose proof (UnixAmd64Facts.src_bytes_length_le buf s (eightByteSize u)) as Hlen.
  rewrite UnixAmd64Facts.sse_count_cons, gen_size_cons in Hapart.
  cbn [scatter].
  destruct (is_sse u) eqn:Eu.
  - constructor.
    + rewrite apply_writes_cons. cbn [fst snd].
      rewrite (load_bytes_ext (store_bytes m f (src_bytes buf s (eightByteSize u)))).
      * apply load_store_bytes.
      * intros x Hx. apply apply_writes_frame.
        destruct (covered x _) eqn:Ec; [| reflexivity].
        apply (scatter_covered_within _ _ _ _ _ _ Hnn' Hsse') in Ec.
        specialize (Hu4 eq_refl). lia.
    + rewrite apply_writes_cons. apply IH; try assumption. lia.
  - constructor.
    + rewrite apply_writes_cons. cbn [fst snd].
      rewrite (load_bytes_ext (store_bytes m g (src_bytes buf s (eightByteSize u)))).
      * apply load_store_bytes.
      * intros x Hx. apply apply_writes_frame.
        destruct (covered x _) eqn:Ec; [| reflexivity].
        apply (scatter_covered_within _ _ _ _ _ _ Hnn' Hsse') in Ec. lia.
    + rewrite apply_writes_cons. apply IH; try assumption. lia.
Qed.

Lemma gather_scattered (m : memory) (ws : list write) :
  Forall (fun w => load_bytes m (fst w) (length (snd w)) = snd w) ws ->
  gather m (map extent ws) = concat (map snd ws).
Proof.
  unfold gather. induction 1 as [| w ws Hw _ IH]; [reflexivity |].
  cbn [map concat]. rewrite IH. f_equal.
  unfold read_slot, extent. cbn [fst snd]. rewrite Nat2Z.id. exact Hw.
Qed.

(** X16: scattering a composite and gathering its sub-fields from their
    register slots gives back the bytes of the source, when the integer
    and the floating slots of the composite do not overlap; no byte
    outside of the slots is written. *)
Theorem CopyStructToRegisters_round_trip
    (this : ArgDestination) (desc : ArgLocDesc) (eeClass : EEClass)
    (buf : list byte) (fieldBytes : Z) (m : memory) :
  let us := m_eightBytes eeClass in
  let gen := GenRegBase this desc in
  let flt := FloatRegBase this desc in
  describes this desc eeClass ->
  IsStructPassedInRegs this = true ->
  copy_consistent gen us ->
  total_size us = fieldBytes ->
  fieldBytes <= Z.of_nat (length buf) ->
  flt + 16 * sse_count us <= gen \/ gen + gen_size us <= flt ->
  exists m',
    CopyStructToRegisters this buf fieldBytes 0 m = Ok m'
    /\ gather m' (unit_slots gen flt us) = firstn (Z.to_nat fieldBytes) buf
    /\ (forall x, in_slots x (unit_slots gen flt us) = false -> m' x = m x).
Proof.
  intros us gen flt Hdesc Hregs Hcons Htotal Hbuf Hapart.
  pose proof (UnixAmd64Facts.copy_consistent_nonneg us gen Hcons) as Hnn.
  pose proof (UnixAmd64Facts.copy_consistent_sse us gen Hcons) as Hsse.
  pose proof (UnixAmd64Facts.CopyStructToRegisters_spec this desc eeClass buf fieldBytes 0 m
                Hdesc Hregs ltac:(lia)) as Hrun.
  cbv zeta in Hrun. rewrite UnixAmd64Facts.visited_units_0, Z.add_0_r in Hrun.
  specialize (Hrun Hcons Htotal Hbuf).
  fold us gen flt in Hrun.
  assert (Hext : map extent (scatter buf 0 gen flt us) = unit_slots gen flt us)
    by (apply UnixAmd64Facts.scatter_extents; [exact Hnn | lia | lia]).
  eexists. split; [exact Hrun |]. split.
  - rewrite <- Hext, gather_scattered
      by (apply scatter_read_back; assumption).
    rewrite scatter_sources by (try assumption; lia).
    rewrite Htotal. unfold src_bytes. reflexivity.
  - intros x Hx. apply apply_writes_frame.
    rewrite covered_in_slots, Hext. exact Hx.
Qed.

(** X17: [CopyStructToRegisters] overwrites what [ZeroStructInRegisters]
    left: scattering into zeroed registers and scattering into registers
    of any content give the same memory, and scattering twice is
    scattering once. *)
Theorem CopyStructToRegisters_overwrites
    (this : ArgDestination) (desc : ArgLocDesc) (eeClass : EEClass)
    (buf : list byte) (fieldBytes : Z) (m : memory) :
  let us := m_eightBytes eeClass in
  describes this desc eeClass ->
  IsStructPassedInRegs this = true ->
  copy_consistent (GenRegBase this desc) us ->
  total_size us = fieldBytes ->
  fieldBytes <= Z.of_nat (length buf) ->
  fieldBytes <= sizeof_zeros ->
  exists zeroed copied,
    ZeroStructInRegisters this fieldBytes m = Ok zeroed
    /\ CopyStructToRegisters this buf fieldBytes 0 m = Ok copied
    /\ (exists m', CopyStructToRegisters this buf fieldBytes 0 zeroed = Ok m'
                   /\ forall x, m' x = copied x)
    /\ (exists m', CopyStructToRegisters this buf fieldBytes 0 copied = Ok m'
                   /\ forall x, m' x = copied x).
Proof.
  intros us Hdesc Hregs Hcons Htotal Hbuf Hzeros.
  pose proof (UnixAmd64Facts.copy_consistent_nonneg us _ Hcons) as Hnn.
  assert (Hrun : forall (b : list byte) (m0 : memory),
             fieldBytes <= Z.of_nat (length b) ->
             CopyStructToRegisters this b fieldBytes 0 m0
             = Ok (apply_writes
                     (scatter b 0 (GenRegBase this desc) (FloatRegBase this desc) us) m0)).
  { intros b m0 Hb.
    pose proof (UnixAmd64Facts.CopyStructToRegisters_spec this desc eeClass b fieldBytes 0 m0
                  Hdesc Hregs ltac:(lia)) as Hr.
    cbv zeta in Hr. rewrite UnixAmd64Facts.visited_units_0, Z.add_0_r in Hr.
    exact (Hr Hcons Htotal Hb). }
  assert (Hext : forall b, fieldBytes <= Z.of_nat (length b) ->
             map extent (scatter b 0 (GenRegBase this desc) (FloatRegBase this desc) us)
             = unit_slots (GenRegBase this desc) (FloatRegBase this desc) us)
    by (intros b Hb; apply UnixAmd64Facts.scatter_extents; [exact Hnn | lia | lia]).
  assert (Hsame : forall (ws' : list write) (m0 : memory) (x : Z),
             map extent ws'
             = map extent (scatter buf 0 (GenRegBase this desc) (FloatRegBase this desc) us) ->
             apply_writes
               (scatter buf 0 (GenRegBase this desc) (FloatRegBase this desc) us)
               (apply_writes ws' m0) x
             = apply_writes
                 (scatter buf 0 (GenRegBase this desc) (FloatRegBase this desc) us) m0 x).
  { intros ws' m0 x Hw.
    destruct (covered x (scatter buf 0 (GenRegBase this desc) (FloatRegBase this desc) us))
      eqn:Ec.
    - apply apply_writes_determined. exact Ec.
    - rewrite !(apply_writes_frame _ _ x Ec).
      apply apply_writes_frame. rewrite covered_in_slots, Hw, <- covered_in_slots.
      exact Ec. }
  assert (Hz : fieldBytes <= Z.of_nat (length zeros)) by exact Hzeros.
  exists (apply_writes
            (scatter zeros 0 (GenRegBase this desc) (FloatRegBase this desc) us) m),
         (apply_writes
            (scatter buf 0 (GenRegBase this desc) (FloatRegBase this desc) us) m).
  split.
  { unfold ZeroStructInRegisters.
    rewrite assert_holds.
    - cbn [bind]. apply Hrun. exact Hz.
    - pose proof (total_size_nonneg us Hnn) as Hpos.
      unfold to_size_t. apply Z.geb_le.
      pose proof (Z.mod_le fieldBytes (2 ^ 64) ltac:(lia) ltac:(lia)). lia. }
  split; [apply Hrun; exact Hbuf |].
  split.
  - eexists. split; [apply Hrun; exact Hbuf |].
    intros x. apply Hsame. rewrite !Hext by assumption. reflexivity.
  - eexists. split; [apply Hrun; exact Hbuf |].
    intros x. apply Hsame. reflexivity.
Qed.


(** *** What a checked build accepts *)

Lemma CopyStructToRegisters_body_accepts (buf : list byte)
    (pre post : list EightByte) (u : EightByte) (l l' : CopyLocals) :
  _DEBUG = true ->
  destOffset l = 0 ->
  CopyStructToRegisters_body {| m_eightBytes := pre ++ u :: post |} buf
    (Z.of_nat (length pre)) l = Ok l' ->
  copyable_unit u
  /\ (is_sse u = false -> eightByteSize u = 8 -> IS_ALIGNED (genRegDest l) 8 = true)
  /\ eightByteSize u <= remainingBytes l
  /\ 0 <= src l
  /\ src l + eightByteSize u <= Z.of_nat (length buf).
Proof.
  intros Hdbg Hoff E.
  unfold CopyStructToRegisters_body, GetEightByteSize, GetEightByteClassification in E.
  rewrite GetEightByte_app in E. cbn [bind] in E.
  rewrite Hoff in E. change (Z.land 0 7) with 0 in E. rewrite Z.sub_0_r in E.
  unfold _ASSERTE, memcpyNoGCRefs, src_UINT64, src_UINT32 in E. rewrite Hdbg in E.
  unfold copyable_unit, is_sse.
  destruct (Z.geb_spec (remainingBytes l) (eightByteSize u)) as [Hrem | _];
    cbn [bind] in E; [| discriminate].
  destruct (eightByteClassification u) eqn:Ec; cbn [classification_eqb] in E |- *;
    destruct (Z.eqb_spec (eightByteSize u) 8) as [E8 | N8];
    cbn [is_integer_class classification_eqb orb bind] in E; try discriminate E.
  - destruct (IS_ALIGNED (genRegDest l) 8) eqn:Ea; cbn [bind] in E; [| discriminate].
    destruct (read_src buf (src l) 8) eqn:Er; cbn [bind] in E; try discriminate.
    apply read_src_Ok_inv in Er.
    repeat split; try lia;
      intros; first [reflexivity | contradiction | discriminate | lia].
  - destruct (read_src buf (src l) (eightByteSize u)) eqn:Er; cbn [bind] in E;
      try discriminate.
    apply read_src_Ok_inv in Er.
    repeat split; try lia;
      intros; first [reflexivity | contradiction | discriminate | lia].
  - destruct (IS_ALIGNED (genRegDest l) 8) eqn:Ea; cbn [bind] in E; [| discriminate].
    destruct (read_src buf (src l) 8) eqn:Er; cbn [bind] in E; try discriminate.
    apply read_src_Ok_inv in Er.
    repeat split; try lia;
      intros; first [reflexivity | contradiction | discriminate | lia].
  - destruct (IS_ALIGNED (genRegDest l) 8) eqn:Ea; cbn [bind] in E; [| discriminate].
    destruct (read_src buf (src l) 8) eqn:Er; cbn [bind] in E; try discriminate.
    apply read_src_Ok_inv in Er.
    repeat split; try lia;
      intros; first [reflexivity | contradiction | discriminate | lia].
  - destruct (read_src buf (src l) 8) eqn:Er; cbn [bind] in E; try discriminate.
    apply read_src_Ok_inv in Er.
    repeat split; try lia;
      intros; first [reflexivity | contradiction | discriminate | lia].
  - destruct (Z.eqb_spec (eightByteSize u) 4) as [E4 | _]; cbn [bind] in E;
      [| discriminate].
    destruct (read_src buf (src l) 4) eqn:Er; cbn [bind] in E; try discriminate.
    apply read_src_Ok_inv in Er.
    repeat split; try lia;
      intros; first [reflexivity | contradiction | discriminate | lia].
Qed.

Lemma CopyStructToRegisters_loop_accepts (buf : list byte) (post : list EightByte) :
  _DEBUG = true ->
  forall (pre : list EightByte) (l l' : CopyLocals),
    destOffset l = 0 ->
    CopyStructToRegisters_loop {| m_eightBytes := pre ++ post |} buf
      (length post) (Z.of_nat (length pre)) l = Ok l' ->
    copy_consistent (genRegDest l) post
    /\ (post = []
        \/ (total_size post <= remainingBytes l
            /\ 0 <= src l /\ src l + total_size post <= Z.of_nat (length buf))).
Proof.
  intros Hdbg.
  induction post as [| u post IH]; intros pre l l' Hoff E.
  - split; [constructor | left; reflexivity].
  - pose proof (UnixAmd64Facts.CopyStructToRegisters_loop_remaining buf (u :: post) pre l l' E)
      as Hrem.
    cbn [length CopyStructToRegisters_loop] in E.
    apply bind_Ok_inv in E as (l1 & Ebody & E).
    destruct (CopyStructToRegisters_body_accepts buf pre post u l l1 Hdbg Hoff Ebody)
      as (Hu & Hal & Hle & Hs & Hb).
    pose proof (UnixAmd64Facts.copyable_unit_nonneg u Hu) as Hnn.
    assert (Hspec := UnixAmd64Facts.CopyStructToRegisters_body_spec buf pre post u l).
    cbv zeta in Hspec. rewrite Hoff in Hspec. change (Z.land 0 7) with 0 in Hspec.
    rewrite Z.sub_0_r in Hspec.
    assert (Hu' : {| eightByteClassification := eightByteClassification u;
                     eightByteSize := eightByteSize u |} = u) by (destruct u; reflexivity).
    rewrite Hu' in Hspec.
    rewrite (Hspec Hu Hal Hle Hs Hb) in Ebody.
    assert (Hl1 : l1 = {| src := src l + eightByteSize u;
                          genRegDest := genRegDest l
                                        + (if is_sse u then 0 else eightByteSize u);
                          floatRegDest := floatRegDest l + (if is_sse u then 16 else 0);
                          remainingBytes := remainingBytes l - eightByteSize u;
                          destOffset := 0;
                          mem := store_bytes (mem l)
                                   (if is_sse u then floatRegDest l else genRegDest l)
                                   (src_bytes buf (src l) (eightByteSize u)) |}).
    { symmetry. revert Ebody. generalize l1. intros l2 Eq.
      injection Eq as Eq. exact Eq. }
    replace (Z.of_nat (length pre) + 1) with (Z.of_nat (length (pre ++ [u]))) in E
      by (rewrite length_app; simpl; lia).
    replace (pre ++ u :: post) with ((pre ++ [u]) ++ post) in E
      by (rewrite <- app_assoc; reflexivity).
    apply IH in E; [| rewrite Hl1; reflexivity].
    destruct E as (Hc & Hsrc).
    rewrite Hl1 in Hc, Hsrc. cbn [genRegDest remainingBytes src] in Hc, Hsrc.
    rewrite total_size_cons.
    split.
    + unfold copy_consistent, placed. cbn [GenRegSlots combine].
      constructor.
      * cbn [fst snd]. split; assumption.
      * destruct (is_sse u); [rewrite Z.add_0_r in Hc |]; exact Hc.
    + right. destruct Hsrc as [-> | Hsrc]; cbn [total_size fold_right]; lia.
Qed.

(** X18: a checked build completes [CopyStructToRegisters] exactly for a
    layout it can scatter: every unit is as the method expects, the
    sizes of the units sum to [fieldBytes], and the source holds that
    many bytes. *)
Theorem checked_build_validates_layout
    (this : ArgDestination) (desc : ArgLocDesc) (eeClass : EEClass)
    (buf : list byte) (fieldBytes : Z) (m : memory) :
  _DEBUG = true ->
  describes this desc eeClass ->
  ((exists m', CopyStructToRegisters this buf fieldBytes 0 m = Ok m')
   <-> (IsStructPassedInRegs this = true
        /\ copy_consistent (GenRegBase this desc) (m_eightBytes eeClass)
        /\ total_size (m_eightBytes eeClass) = fieldBytes
        /\ fieldBytes <= Z.of_nat (length buf))).
Proof.
  intros Hdbg Hdesc. split.
  - intros [m' E]. destruct Hdesc as [Hd Hee].
    unfold CopyStructToRegisters in E.
    apply bind_Ok_inv in E as (l & Elocals & E).
    apply bind_Ok_inv in E as (t & Efinal & _).
    apply (assert_ok_checked _ _ Hdbg) in Efinal. apply Z.eqb_eq in Efinal.
    unfold CopyStructToRegisters_locals in Elocals.
    apply bind_Ok_inv in Elocals as (t0 & Eregs & Elocals).
    apply (assert_ok_checked _ _ Hdbg) in Eregs.
    unfold GetStructGenRegDestinationAddress, GetStructFloatRegDestinationAddress
      in Elocals.
    rewrite Eregs, assert_true, Hd in Elocals. cbn [bind deref] in Elocals.
    rewrite Hee in Elocals. cbn [is_null negb] in Elocals.
    rewrite assert_true in Elocals. cbn [bind deref] in Elocals.
    fold (GenRegBase this desc) in Elocals. fold (FloatRegBase this desc) in Elocals.
    unfold GetNumberEightBytes in Elocals.
    change (Z.quot 0 8) with 0 in Elocals.
    rewrite Z.sub_0_r, Nat2Z.id, Z.add_0_r in Elocals.
    destruct eeClass as [all]. cbn [m_eightBytes] in *.
    pose proof (UnixAmd64Facts.CopyStructToRegisters_loop_remaining buf all [] _ l Elocals)
      as Hrem.
    cbn [remainingBytes destOffset] in Hrem. change (Z.land 0 7) with 0 in Hrem.
    rewrite UnixAmd64Facts.shorten_first_0 in Hrem.
    apply (CopyStructToRegisters_loop_accepts buf all Hdbg []) in Elocals;
      [| reflexivity].
    cbn [genRegDest remainingBytes src] in Elocals.
    destruct Elocals as (Hc & Hsrc).
    split; [exact Eregs |]. split; [exact Hc |]. split; [lia |].
    destruct Hsrc as [-> | Hsrc]; cbn [total_size fold_right] in *; lia.
  - intros (Hregs & Hc & Htot & Hb).
    eexists.
    pose proof (UnixAmd64Facts.CopyStructToRegisters_spec this desc eeClass buf fieldBytes 0 m
                  Hdesc Hregs ltac:(lia)) as Hrun.
    cbv zeta in Hrun. rewrite UnixAmd64Facts.visited_units_0, Z.add_0_r in Hrun.
    exact (Hrun Hc Htot Hb).
Qed.

(** *** Scattering, then reporting *)

Lemma reference_sources_promotions (us : list EightByte) :
  forall s g, map fst (reference_sources s g us) = map fst (promotions g us).
Proof.
  unfold promotions, placed.
  induction us as [| u us IH]; intros s g; [reflexivity |].
  cbn [reference_sources GenRegSlots combine filter snd].
  destruct (is_reference u); cbn [map fst]; rewrite IH; reflexivity.
Qed.

Lemma reference_sources_scattered (buf : list byte) (us : list EightByte) :
  forall s g f,
    Forall (fun u => 0 <= eightByteSize u) us ->
    Forall (fun u => is_reference u = true -> eightByteSize u = 8) us ->
    0 <= s ->
    Forall (fun p => In (fst p, src_bytes buf (snd p) 8) (scatter buf s g f us)
                     /\ s <= snd p /\ snd p + 8 <= s + total_size us
                     /\ g <= fst p /\ fst p + 8 <= g + gen_size us)
           (reference_sources s g us).
Proof.
  induction us as [| u us IH]; intros s g f Hnn Href Hs; [constructor |].
  inversion Hnn as [| ? ? Hu Hnn']; subst.
  inversion Href as [| ? ? Hu8 Href']; subst.
  pose proof (total_size_nonneg us Hnn') as Hus.
  assert (Hgen : 0 <= gen_size us).
  { unfold gen_size. apply total_size_nonneg.
    apply Forall_forall. intros v Hv. apply filter_In in Hv as [Hv _].
    rewrite Forall_forall in Hnn'. apply Hnn'. exact Hv. }
  cbn [reference_sources scatter]. rewrite total_size_cons, gen_size_cons.
  assert (Hrest : forall g' f',
             g <= g' -> g' + gen_size us <= g + (if is_sse u then 0 else eightByteSize u)
                                             + gen_size us ->
             Forall (fun p => In (fst p, src_bytes buf (snd p) 8)
                                 (if is_sse u
                                  then (f, src_bytes buf s (eightByteSize u))
                                       :: scatter buf (s + eightByteSize u) g' f' us
                                  else (g, src_bytes buf s (eightByteSize u))
                                       :: scatter buf (s + eightByteSize u) g' f' us)
                             /\ s <= snd p
                             /\ snd p + 8 <= s + (eightByteSize u + total_size us)
                             /\ g <= fst p
                             /\ fst p + 8 <= g + ((if is_sse u then 0 else eightByteSize u)
                                                  + gen_size us))
                    (reference_sources (s + eightByteSize u) g' us)).
  { intros g' f' Hg1 Hg2.
    specialize (IH (s + eightByteSize u) g' f' Hnn' Href' ltac:(lia)).
    revert IH. apply Forall_impl. intros p (Hin & H1 & H2 & H3 & H4).
    split; [destruct (is_sse u); right; exact Hin |]. lia. }
  destruct (is_reference u) eqn:Er.
  - rewrite (is_reference_not_sse u Er) in *. specialize (Hu8 eq_refl).
    constructor.
    + cbn [fst snd]. split; [left; rewrite Hu8; reflexivity |]. lia.
    + apply (Hrest (g + eightByteSize u) f); lia.
  - destruct (is_sse u) eqn:Es.
    + apply (Hrest g (f + 16)); lia.
    + apply (Hrest (g + eightByteSize u) f); lia.
Qed.

Lemma copy_consistent_references (us : list EightByte) :
  forall gen, copy_consistent gen us ->
    Forall (fun u => is_reference u = true -> eightByteSize u = 8) us.
Proof.
  unfold copy_consistent, placed.
  induction us as [| u us IH]; intros gen Hc; constructor;
    cbn [GenRegSlots combine] in Hc; inversion Hc as [| ? ? [Hu _] Hc']; subst.
  - cbn [snd] in Hu. unfold copyable_unit in Hu. unfold is_reference.
    destruct (eightByteClassification u); cbn [classification_eqb orb];
      intros; try discriminate; exact Hu.
  - eapply IH. exact Hc'.
Qed.

(** X19: after a composite was scattered, root reporting hands the
    collector one address per reference unit, in the order of the units;
    each address lies in the integer register bytes of the composite and
    holds the eight bytes of the reference as the source had them. *)
Theorem reported_references_are_the_copied_ones
    (this : ArgDestination) (desc : ArgLocDesc) (eeClass : EEClass)
    (buf : list byte) (fieldBytes : Z) (m : memory) :
  let us := m_eightBytes eeClass in
  let gen := GenRegBase this desc in
  let flt := FloatRegBase this desc in
  describes this desc eeClass ->
  IsStructPassedInRegs this = true ->
  copy_consistent gen us ->
  total_size us = fieldBytes ->
  fieldBytes <= Z.of_nat (length buf) ->
  flt + 16 * sse_count us <= gen \/ gen + gen_size us <= flt ->
  exists m' calls,
    CopyStructToRegisters this buf fieldBytes 0 m = Ok m'
    /\ ReportPointersFromStructInRegisters unit (list (Z * Z)) this record_call tt
         fieldBytes [] = Ok calls
    /\ map fst calls = map fst (reference_sources 0 gen us)
    /\ Forall (fun p => load_bytes m' (fst p) 8 = src_bytes buf (snd p) 8
                        /\ 0 <= snd p /\ snd p + 8 <= fieldBytes
                        /\ gen <= fst p /\ fst p + 8 <= gen + gen_size us)
              (reference_sources 0 gen us).
Proof.
  intros us gen flt Hdesc Hregs Hcons Htotal Hbuf Hapart.
  pose proof (UnixAmd64Facts.copy_consistent_nonneg us gen Hcons) as Hnn.
  pose proof (UnixAmd64Facts.copy_consistent_sse us gen Hcons) as Hsse.
  pose proof (copy_consistent_references us gen Hcons) as Href.
  assert (Haligned : references_aligned gen us).
  { clear - Hcons Href. unfold references_aligned, copy_consistent in *.
    rewrite Forall_forall in *. intros [a u] Hp Hr.
    destruct (Hcons (a, u) Hp) as [_ Hal]. cbn [fst snd] in *.
    apply Hal; [apply is_reference_not_sse; exact Hr |].
    apply Href; [| exact Hr].
    unfold placed in Hp. apply in_combine_r in Hp. exact Hp. }
  pose proof (UnixAmd64Facts.CopyStructToRegisters_spec this desc eeClass buf fieldBytes 0 m
                Hdesc Hregs ltac:(lia)) as Hrun.
  cbv zeta in Hrun. rewrite UnixAmd64Facts.visited_units_0, Z.add_0_r in Hrun.
  specialize (Hrun Hcons Htotal Hbuf). fold us gen flt in Hrun.
  pose proof (UnixAmd64Facts.ReportPointers_spec this desc eeClass record_call tt
                fieldBytes [] Hdesc) as Hreport.
  rewrite UnixAmd64Facts.apply_promotions_record in Hreport. cbn [app] in Hreport.
  exists (apply_writes (scatter buf 0 gen flt us) m), (promotions gen us).
  split; [exact Hrun |]. split.
  { apply Hreport. intros _. split; [exact Hregs |]. split; [| exact Htotal].
    split; [exact Hnn |]. split; [exact Href |]. split; [exact Haligned |].
    fold us. lia. }
  split; [symmetry; apply reference_sources_promotions |].
  pose proof (reference_sources_scattered buf us 0 gen flt Hnn Href ltac:(lia)) as Hsrc.
  pose proof (scatter_read_back buf us 0 gen flt m Hnn Hsse Hapart) as Hback.
  rewrite Forall_forall in Hback.
  revert Hsrc. apply Forall_impl. intros p (Hin & H1 & H2 & H3 & H4).
  specialize (Hback _ Hin). cbn [fst snd] in Hback.
  rewrite src_bytes_length in Hback by lia.
  split; [exact Hback |]. lia.
Qed.

End WithPlatform.
End ScatterGather.

(** * Homogeneous floating aggregates: gathering *)

Lemma load_bytes_firstn (m : memory) (a : Z) (n k : nat) :
  (n <= k)%nat -> load_bytes m a n = firstn n (load_bytes m a k).
Proof.
  intros Hle. replace k with (n + (k - n))%nat by lia.
  rewrite Arm64Facts.load_bytes_app, firstn_app, load_bytes_length, Nat.sub_diag.
  cbn [firstn]. rewrite app_nil_r, firstn_all2 by (rewrite load_bytes_length; lia).
  reflexivity.
Qed.

Lemma src_bytes_fields (buf : list byte) (size : Z) (count : nat) :
  0 <= size ->
  concat (map (fun k => src_bytes buf (Z.of_nat k * size) size) (seq 0 count))
  = src_bytes buf 0 (Z.of_nat count * size).
Proof.
  intros Hsize. induction count as [| count IH].
  - unfold src_bytes. reflexivity.
  - rewrite seq_S, map_app, concat_app, IH. cbn [map concat Nat.add].
    rewrite app_nil_r.
    replace (Z.of_nat (S count) * size) with (Z.of_nat count * size + size) by lia.
    rewrite <- src_bytes_app by nia. rewrite Z.add_0_l. reflexivity.
Qed.

Module HfaGather.
Import Arm64.

Lemma hfa_slot_field (buf : list byte) (size s : Z) :
  size = 4 \/ size = 8 \/ size = 16 ->
  0 <= s ->
  s + size <= Z.of_nat (length buf) ->
  firstn (Z.to_nat size) (hfa_slot buf size s) = src_bytes buf s size.
Proof.
  intros Hsize Hs Hb. unfold hfa_slot.
  destruct Hsize as [E | [E | E]]; rewrite E in *; cbn [Z.eqb Pos.eqb].
  - rewrite <- app_assoc, firstn_app, src_bytes_length by lia.
    change (Z.to_nat 4 - Z.to_nat 4)%nat with 0%nat. cbn [firstn].
    rewrite app_nil_r. apply firstn_all2. rewrite src_bytes_length by lia. lia.
  - rewrite firstn_app, src_bytes_length by lia.
    change (Z.to_nat 8 - Z.to_nat 8)%nat with 0%nat. cbn [firstn].
    rewrite app_nil_r. apply firstn_all2. rewrite src_bytes_length by lia. lia.
  - rewrite src_bytes_app by lia. change (8 + 8) with 16.
    apply firstn_all2. rewrite src_bytes_length by lia. lia.
Qed.

(** X20: gathering the fields of a homogeneous floating aggregate from
    their floating register slots, the field width from each slot, gives
    back the bytes of the source. *)
Theorem CopyHFAStructToRegister_round_trip
    (this : ArgDestination) (desc : ArgLocDesc) (buf : list byte)
    (fieldBytes : Z) (m : memory) :
  m_argLocDescForStructInRegs this = Some desc ->
  m_hfaFieldSize desc = 4 \/ m_hfaFieldSize desc = 8 \/ m_hfaFieldSize desc = 16 ->
  0 <= m_cFloatReg desc ->
  m_cFloatReg desc * m_hfaFieldSize desc <= Z.of_nat (length buf) ->
  let size := m_hfaFieldSize desc in
  let count := m_cFloatReg desc in
  exists m',
    CopyHFAStructToRegister this buf fieldBytes m = Ok m'
    /\ gather m' (hfa_slots (GetDestinationAddress this) size (Z.to_nat count))
       = firstn (Z.to_nat (count * size)) buf.
Proof.
  intros Hdesc Hsize Hcount Hb size count.
  destruct (Arm64Facts.CopyHFAStructToRegister_loop_spec buf size (Z.to_nat count) Hsize
              {| src := 0; dest := GetDestinationAddress this; mem := m |})
    as (m' & Hloop & Hslots & _); cbn [src dest mem] in *;
    [lia | subst size count; lia |].
  exists m'. split.
  { unfold CopyHFAStructToRegister, CopyHFAStructToRegister_locals.
    rewrite Hdesc. cbn [deref bind]. fold size count.
    rewrite Z.sub_0_r, Hloop. reflexivity. }
  assert (Hsz : 0 <= size) by (destruct Hsize as [E | [E | E]]; fold size in E; lia).
  unfold gather, hfa_slots. rewrite map_map.
  replace (count * size) with (Z.of_nat (Z.to_nat count) * size) by lia.
  change (firstn (Z.to_nat (Z.of_nat (Z.to_nat count) * size)) buf)
    with (src_bytes buf 0 (Z.of_nat (Z.to_nat count) * size)).
  rewrite <- src_bytes_fields by exact Hsz.
  f_equal. apply map_ext_in. intros k Hk. apply in_seq in Hk.
  unfold read_slot. cbn [fst snd].
  assert (Hk' : 0 <= Z.of_nat k < Z.of_nat (Z.to_nat count)) by lia.
  specialize (Hslots (Z.of_nat k) Hk'). rewrite Z.add_0_l in Hslots.
  rewrite (load_bytes_firstn m' _ (Z.to_nat size) 16)
    by (destruct Hsize as [E | [E | E]]; fold size in E; rewrite E; lia).
  rewrite Hslots. apply hfa_slot_field; [exact Hsize | lia |].
  fold size count in Hb. nia.
Qed.

End HfaGather.

(** * Composite operations on a destination without a descriptor *)

Module Misuse.
Section WithPlatform.
Context `{Platform}.

(** X21: no composite operation completes on a destination that has no
    layout descriptor, in any build; on [UNIX_AMD64_ABI], where the
    constructor has asserted that such a destination does not carry the
    sentinel offset, a checked build halts in each of them before the
    descriptor is dereferenced. *)
Theorem composite_operations_need_a_descriptor {ScanContext GcState : Type}
    (this : ArgDestination) (buf : list byte) (fieldBytes destOffset : Z) (m : memory)
    (fn : UnixAmd64.promote_func ScanContext GcState) (sc : ScanContext) (gc : GcState) :
  m_argLocDescForStructInRegs this = None ->
  (never_succeeds (UnixAmd64.GetStructGenRegDestinationAddress this)
   /\ never_succeeds (UnixAmd64.GetStructFloatRegDestinationAddress this)
   /\ never_succeeds (UnixAmd64.CopyStructToRegisters this buf fieldBytes destOffset m)
   /\ never_succeeds (UnixAmd64.ZeroStructInRegisters this fieldBytes m)
   /\ never_succeeds (UnixAmd64.ReportPointersFromStructInRegisters ScanContext GcState
                        this fn sc fieldBytes gc)
   /\ never_succeeds (Arm64.CopyHFAStructToRegister this buf fieldBytes m)
   /\ never_succeeds (FpStructAbi.CopyStructToRegisters this buf fieldBytes destOffset m)
   /\ never_succeeds (FpStructAbi.GetStructGenRegDestinationAddress this))
  /\ (_DEBUG = true ->
      target = UNIX_AMD64_ABI ->
      ArgDestination_ctor (m_base this) (m_offset this) None = Ok this ->
      UnixAmd64.GetStructGenRegDestinationAddress this = AssertFailed
      /\ UnixAmd64.GetStructFloatRegDestinationAddress this = AssertFailed
      /\ UnixAmd64.CopyStructToRegisters this buf fieldBytes destOffset m = AssertFailed
      /\ UnixAmd64.ZeroStructInRegisters this fieldBytes m = AssertFailed
      /\ UnixAmd64.ReportPointersFromStructInRegisters ScanContext GcState
           this fn sc fieldBytes gc = AssertFailed).
Proof.
  intros Hnone. split.
  - unfold UnixAmd64.GetStructGenRegDestinationAddress,
      UnixAmd64.GetStructFloatRegDestinationAddress,
      UnixAmd64.CopyStructToRegisters, UnixAmd64.CopyStructToRegisters_locals,
      UnixAmd64.ZeroStructInRegisters,
      UnixAmd64.CopyStructToRegisters, UnixAmd64.CopyStructToRegisters_locals,
      UnixAmd64.ReportPointersFromStructInRegisters, UnixAmd64.ReportPointers_locals,
      UnixAmd64.GetStructGenRegDestinationAddress,
      Arm64.CopyHFAStructToRegister, Arm64.CopyHFAStructToRegister_locals,
      FpStructAbi.CopyStructToRegisters, FpStructAbi.GetStructGenRegDestinationAddress,
      FpStructAbi.IsStructPassedInRegs.
    rewrite Hnone. cbn [is_null negb deref bind].
    unfold _ASSERTE.
    destruct _DEBUG, (UnixAmd64.IsStructPassedInRegs this),
      (UnixAmd64.sizeof_zeros >=? to_size_t fieldBytes),
      (destOffset =? 0), (fieldBytes <=? 16);
      cbn [bind never_succeeds]; repeat split.
  - intros Hdbg Htarget Hctor.
    unfold ArgDestination_ctor in Hctor. rewrite Htarget in Hctor.
    apply bind_Ok_inv in Hctor as (t & Hassert & _).
    apply (assert_ok_checked _ _ Hdbg) in Hassert.
    cbn [is_null negb orb] in Hassert. apply negb_true_iff in Hassert.
    unfold UnixAmd64.GetStructGenRegDestinationAddress,
      UnixAmd64.GetStructFloatRegDestinationAddress,
      UnixAmd64.CopyStructToRegisters, UnixAmd64.CopyStructToRegisters_locals,
      UnixAmd64.ZeroStructInRegisters,
      UnixAmd64.CopyStructToRegisters, UnixAmd64.CopyStructToRegisters_locals,
      UnixAmd64.ReportPointersFromStructInRegisters, UnixAmd64.ReportPointers_locals,
      UnixAmd64.IsStructPassedInRegs.
    rewrite Hassert. unfold _ASSERTE. rewrite Hdbg. cbn [bind].
    destruct (UnixAmd64.sizeof_zeros >=? to_size_t fieldBytes);
      cbn [bind]; repeat split.
Qed.

End WithPlatform.
End Misuse.

(** * Composites split over two registers: what is written *)

Module FpStructFrame.
Import FpStructAbi.
Section WithPlatform.
Context `{Platform}.

Lemma store_INT64_outside (m : memory) (a v x : Z) :
  x < a \/ a + 8 <= x -> store_INT64 m a v x = m x.
Proof.
  intros Hx. unfold store_INT64, store_UINT64. apply store_bytes_outside.
  rewrite length_le_split. lia.
Qed.

Lemma store_INT32_outside (m : memory) (a v x : Z) :
  x < a \/ a + 8 <= x -> store_INT32 m a v x = m x.
Proof.
  intros Hx. unfold store_INT32, store_UINT32. apply store_bytes_outside.
  rewrite length_le_split. lia.
Qed.

Lemma store_INT16_outside (m : memory) (a v x : Z) :
  x < a \/ a + 8 <= x -> store_INT16 m a v x = m x.
Proof.
  intros Hx. unfold store_INT16, store_UINT16. apply store_bytes_outside.
  rewrite length_le_split. lia.
Qed.

Lemma store_INT8_outside (m : memory) (a v x : Z) :
  x < a \/ a + 8 <= x -> store_INT8 m a v x = m x.
Proof.
  intros Hx. unfold store_INT8, store_UINT8. apply store_bytes_outside.
  rewrite length_le_split. lia.
Qed.

(** The bytes a floating field and the integer field may be written to. *)
Lemma float_field_frame (buf : list byte) (sizeShift off : Z) (m : memory) (a x : Z) :
  x < a \/ a + 8 <= x ->
  match float_field_value buf sizeShift off with
  | Ok v => store_INT64 m a v x = m x
  | _ => True
  end.
Proof.
  intros Hx. destruct (float_field_value buf sizeShift off); try exact I.
  apply store_INT64_outside. exact Hx.
Qed.

Lemma int_field_frame (buf : list byte) (m2 : memory) (intReg off sizeShift x : Z) :
  x < intReg \/ intReg + 8 <= x ->
  let m3 := match target with
            | TARGET_RISCV64 => if _DEBUG then store_INT64 m2 intReg trash else m2
            | _ => m2
            end in
  match (match sizeShift with
         | 0 => v <- src_INT8 buf off;; Ok (store_INT8 m3 intReg v)
         | 1 => v <- src_INT16 buf off;; Ok (store_INT16 m3 intReg v)
         | 2 => v <- src_INT32 buf off;; Ok (store_INT32 m3 intReg v)
         | 3 => v <- src_INT64 buf off;; Ok (store_INT64 m3 intReg v)
         | _ => _ASSERTE false;;; Ok m3
         end) with
  | Ok m' => m' x = m2 x
  | _ => True
  end.
Proof.
  intros Hx m3.
  assert (H3 : m3 x = m2 x).
  { subst m3. destruct target; try reflexivity.
    destruct _DEBUG; [| reflexivity].
    apply store_INT64_outside. exact Hx. }
  destruct sizeShift as [| [[p | p |] | [p | p |] |] | p]; cbn [bind];
    lazymatch goal with
    | |- match bind (_ASSERTE false) _ with _ => _ end =>
        destruct (assert_cases false) as [-> | ->]; cbn [bind]; [exact H3 | exact I]
    | |- match bind ?r _ with _ => _ end =>
        destruct r; cbn [bind]; try exact I; rewrite <- H3;
        lazymatch goal with
        | |- store_INT8 _ _ _ _ = _ => apply store_INT8_outside; exact Hx
        | |- store_INT16 _ _ _ _ = _ => apply store_INT16_outside; exact Hx
        | |- store_INT32 _ _ _ _ = _ => apply store_INT32_outside; exact Hx
        | |- store_INT64 _ _ _ _ = _ => apply store_INT64_outside; exact Hx
        end
    end.
Qed.

(** X22: whenever the hardware floating-point variant of
    [CopyStructToRegisters] completes, it has written to the floating
    registers of the floating fields that are present and, if there is an
    integer field, to the integer register, and to no other byte. *)
Theorem CopyStructToRegisters_stays_in_registers
    (this : ArgDestination) (desc : ArgLocDesc) (buf : list byte)
    (fieldBytes destOffset : Z) (m : memory) :
  m_argLocDescForStructInRegs this = Some desc ->
  let info := m_structFields desc in
  let floats := (if first_float_present info then 1 else 0)
                + (if second_float_present info then 1 else 0) in
  match CopyStructToRegisters this buf fieldBytes destOffset m with
  | Ok m' =>
      forall x,
        x < FloatReg0 this desc \/ FloatReg0 this desc + 8 * floats <= x ->
        int_present info = false \/ x < IntReg this desc \/ IntReg this desc + 8 <= x ->
        m' x = m x
  | AssertFailed | Undefined => True
  end.
Proof.
  intros Hdesc info floats.
  unfold CopyStructToRegisters. rewrite Hdesc. cbn [deref].
  repeat match goal with
         | |- context [bind (_ASSERTE ?c) _] =>
             destruct (assert_cases c) as [-> | ->]; cbn [bind]; [| exact I]
         end.
  fold info.
  change (has_flag info (Z.lor FpStruct.OnlyOne (Z.lor FpStruct.BothFloat FpStruct.FloatInt)))
    with (first_float_present info).
  change (has_flag info (Z.lor FpStruct.BothFloat FpStruct.IntFloat))
    with (second_float_present info).
  change (has_flag info (Z.lor FpStruct.FloatInt FpStruct.IntFloat))
    with (int_present info).
  unfold FLOAT_REGISTER_SIZE, TARGET_POINTER_SIZE.
  fold (FloatReg0 this desc). fold (IntReg this desc).
  subst floats.
  set (f0 := FloatReg0 this desc). set (ir := IntReg this desc).
  destruct (first_float_present info) eqn:E1.
  - pose proof (fun x Hx => float_field_frame buf (SizeShift1st info) (0 + offset1st info)
                              m f0 x Hx) as F1.
    destruct (float_field_value buf (SizeShift1st info) (0 + offset1st info)) as [v1 | |];
      cbn [bind fst snd]; try exact I.
    destruct (second_float_present info) eqn:E2.
    + pose proof (fun x Hx => float_field_frame buf (SizeShift2nd info)
                                (0 + offset2nd info) (store_INT64 m f0 v1) (f0 + 8) x Hx)
        as F2.
      destruct (float_field_value buf (SizeShift2nd info) (0 + offset2nd info))
        as [v2 | |]; cbn [bind]; try exact I.
      destruct (int_present info) eqn:E3.
      * pose proof (fun x Hx => int_field_frame buf
                      (store_INT64 (store_INT64 m f0 v1) (f0 + 8) v2) ir
                      (0 + (if has_flag info FpStruct.IntFloat
                            then offset1st info else offset2nd info))
                      (if has_flag info FpStruct.IntFloat
                       then SizeShift1st info else SizeShift2nd info) x Hx) as F3.
        cbv zeta in F3.
        match goal with
        | |- match ?r with _ => _ end =>
            change (forall x, x < ir \/ ir + 8 <= x ->
                              match r with
                              | Ok m' => m' x = (store_INT64 (store_INT64 m f0 v1) (f0 + 8) v2) x
                              | _ => True
                              end) in F3;
            destruct r as [m' | |]; try exact I
        end.
        intros x Hf Hi. destruct Hi as [Hi | Hi]; [discriminate |].
        specialize (F3 x Hi). rewrite F3, F2, F1 by lia. reflexivity.
      * intros x Hf _. rewrite F2, F1 by lia. reflexivity.
    + cbn [bind].
      destruct (int_present info) eqn:E3.
      * pose proof (fun x Hx => int_field_frame buf (store_INT64 m f0 v1) ir
                      (0 + (if has_flag info FpStruct.IntFloat
                            then offset1st info else offset2nd info))
                      (if has_flag info FpStruct.IntFloat
                       then SizeShift1st info else SizeShift2nd info) x Hx) as F3.
        cbv zeta in F3.
        match goal with
        | |- match ?r with _ => _ end =>
            change (forall x, x < ir \/ ir + 8 <= x ->
                              match r with
                              | Ok m' => m' x = (store_INT64 m f0 v1) x
                              | _ => True
                              end) in F3;
            destruct r as [m' | |]; try exact I
        end.
        intros x Hf Hi. destruct Hi as [Hi | Hi]; [discriminate |].
        specialize (F3 x Hi). rewrite F3, F1 by lia. reflexivity.
      * intros x Hf _. rewrite F1 by lia. reflexivity.
  - cbn [bind fst snd].
    destruct (second_float_present info) eqn:E2.
    + pose proof (fun x Hx => float_field_frame buf (SizeShift2nd info)
                                (0 + offset2nd info) m f0 x Hx) as F2.
      destruct (float_field_value buf (SizeShift2nd info) (0 + offset2nd info))
        as [v2 | |]; cbn [bind]; try exact I.
      destruct (int_present info) eqn:E3.
      * pose proof (fun x Hx => int_field_frame buf (store_INT64 m f0 v2) ir
                      (0 + (if has_flag info FpStruct.IntFloat
                            then offset1st info else offset2nd info))
                      (if has_flag info FpStruct.IntFloat
                       then SizeShift1st info else SizeShift2nd info) x Hx) as F3.
        cbv zeta in F3.
        match goal with
        | |- match ?r with _ => _ end =>
            change (forall x, x < ir \/ ir + 8 <= x ->
                              match r with
                              | Ok m' => m' x = (store_INT64 m f0 v2) x
                              | _ => True
                              end) in F3;
            destruct r as [m' | |]; try exact I
        end.
        intros x Hf Hi. destruct Hi as [Hi | Hi]; [discriminate |].
        specialize (F3 x Hi). rewrite F3, F2 by lia. reflexivity.
      * intros x Hf _. rewrite F2 by lia. reflexivity.
    + cbn [bind].
      destruct (int_present info) eqn:E3.
      * pose proof (fun x Hx => int_field_frame buf m ir
                      (0 + (if has_flag info FpStruct.IntFloat
                            then offset1st info else offset2nd info))
                      (if has_flag info FpStruct.IntFloat
                       then SizeShift1st info else SizeShift2nd info) x Hx) as F3.
        cbv zeta in F3.
        match goal with
        | |- match ?r with _ => _ end =>
            change (forall x, x < ir \/ ir + 8 <= x ->
                              match r with
                              | Ok m' => m' x = m x
                              | _ => True
                              end) in F3;
            destruct r as [m' | |]; try exact I
        end.
        intros x Hf Hi. destruct Hi as [Hi | Hi]; [discriminate |].
        specialize (F3 x Hi). rewrite F3. reflexivity.
      * intros x _ _. reflexivity.
Qed.

End WithPlatform.
End FpStructFrame.

(** * Concrete runs *)

(** Checks a concrete layout unit by unit. *)
Ltac consistent_layout :=
  unfold copy_consistent, placed; simpl;
  repeat (apply Forall_cons || apply Forall_nil);
  (split; [unfold copyable_unit; simpl; lia | simpl; intros; (discriminate || lia)]).

Lemma ReportPointers_exhaustive_witness :
  @UnixAmd64.ReportPointersFromStructInRegisters (unix_amd64 true) unit (list (Z * Z))
    (@struct_in_regs (unix_amd64 true) 4096
       [unit_of SystemVClassificationTypeSSE 8;
        unit_of SystemVClassificationTypeIntegerByRef 8])
    record_call tt 16 []
  = Ok [(4096, 1)].
Proof.
  refine (proj1 (proj2 (proj1 (@UnixAmd64Facts.ReportPointers_exhaustive (unix_amd64 true))
            unit (list (Z * Z))
            (@struct_in_regs (unix_amd64 true) 4096
               [unit_of SystemVClassificationTypeSSE 8;
                unit_of SystemVClassificationTypeIntegerByRef 8])
            (desc_of_units [unit_of SystemVClassificationTypeSSE 8;
                            unit_of SystemVClassificationTypeIntegerByRef 8])
            {| m_eightBytes := [unit_of SystemVClassificationTypeSSE 8;
                                unit_of SystemVClassificationTypeIntegerByRef 8] |}
            record_call tt 16 [] _ _ _ _ _ _))).
  - split; reflexivity.
  - reflexivity.
  - repeat constructor; simpl; lia.
  - repeat constructor.
  - repeat constructor.
  - reflexivity.
Defined.

(** An integer unit of one byte is copied as one byte: the bytes after
    it in the register are not written. *)
Lemma CopyStructToRegisters_one_byte_unit :
  exists m',
    @UnixAmd64.CopyStructToRegisters (unix_amd64 true)
      (@struct_in_regs (unix_amd64 true) 4096 [unit_of SystemVClassificationTypeInteger 1])
      bytes_1_to_8 1 0 (filled Byte.xaa) = Ok m'
    /\ load_bytes m' 4096 8
       = [Byte.x11; Byte.xaa; Byte.xaa; Byte.xaa; Byte.xaa; Byte.xaa; Byte.xaa; Byte.xaa]
    /\ forall n, n = 4%nat \/ n = 8%nat -> load_bytes m' 4096 n <> firstn n bytes_1_to_8.
Proof.
  eexists. split; [vm_compute; reflexivity |].
  split; [vm_compute; reflexivity |].
  intros n [-> | ->]; vm_compute; discriminate.
Qed.

Lemma CopyStructToRegisters_eightbyte_path_witness :
  @UnixAmd64.CopyStructToRegisters (unix_amd64 true)
    (@struct_in_regs (unix_amd64 true) 4096 mixed_units)
    bytes_1_to_16 12 0 (filled Byte.xaa)
  = Ok (apply_writes (scatter bytes_1_to_16 0 4096 3968 mixed_units) (filled Byte.xaa)).
Proof.
  refine (proj1 (@UnixAmd64Facts.CopyStructToRegisters_eightbyte_path (unix_amd64 true)
            (@struct_in_regs (unix_amd64 true) 4096 mixed_units)
            (desc_of_units mixed_units) {| m_eightBytes := mixed_units |}
            bytes_1_to_16 12 (filled Byte.xaa) _ _ _ _ _)).
  - split; reflexivity.
  - reflexivity.
  - consistent_layout.
  - reflexivity.
  - simpl. lia.
Defined.



(** The upper half of the slot of a 16 byte field holds the upper half
    of the field, not zeros; the upper half of the slot of an 8 byte field
    is filled with zeros. *)
Lemma CopyHFAStructToRegister_upper_half :
  (exists m',
     Arm64.CopyHFAStructToRegister (hfa_in_regs 4096 (-128) 1 16)
       bytes_1_to_16 16 (filled Byte.xaa) = Ok m'
     /\ load_bytes m' (4096 - 128 + 8) 8
        = [Byte.x99; Byte.xa1; Byte.xa2; Byte.xa3; Byte.xa4; Byte.xa5; Byte.xa6; Byte.xa7])
  /\ (exists m',
        Arm64.CopyHFAStructToRegister (hfa_in_regs 4096 (-128) 1 8)
          bytes_1_to_8 8 (filled Byte.xaa) = Ok m'
        /\ load_bytes m' (4096 - 128 + 8) 8 = repeat Byte.x00 8).
Proof.
  split; eexists; (split; [vm_compute; reflexivity |]); vm_compute; reflexivity.
Qed.

Lemma CopyHFAStructToRegister_fills_slots_witness :
  exists m',
    Arm64.CopyHFAStructToRegister (hfa_in_regs 4096 (-128) 2 4)
      bytes_1_to_8 8 (filled Byte.xaa) = Ok m'
    /\ (forall k, 0 <= k < 2 ->
          load_bytes m' (GetDestinationAddress (hfa_in_regs 4096 (-128) 2 4) + 16 * k) 16
          = hfa_slot bytes_1_to_8 4 (k * 4)).
Proof.
  destruct (Arm64Facts.CopyHFAStructToRegister_fills_slots
              (hfa_in_regs 4096 (-128) 2 4) (desc_of_hfa 2 4) bytes_1_to_8 8
              (filled Byte.xaa) eq_refl (or_introl eq_refl))
    as (m' & Hcopy & Hslots & _).
  - simpl. lia.
  - simpl. lia.
  - exists m'. split; [exact Hcopy | exact Hslots].
Defined.


Lemma CopySingleFloatToRegister_boxes_witness :
  exists m',
    @FpStructAbi.CopySingleFloatToRegister (riscv64 true)
      {| m_base := 4096; m_offset := -64; m_argLocDescForStructInRegs := None |}
      [Byte.x00; Byte.x00; Byte.x80; Byte.x3f] (filled Byte.xaa) = Ok m'
    /\ load_UINT64 m' (4096 - 64) = 0xffffffff3f800000.
Proof.
  destruct (proj1 (@FpStructFacts.CopySingleFloatToRegister_boxes (riscv64 true)
                     {| m_base := 4096; m_offset := -64;
                        m_argLocDescForStructInRegs := None |}
                     [Byte.x00; Byte.x00; Byte.x80; Byte.x3f] (filled Byte.xaa)
                     ltac:(simpl; lia)) eq_refl)
    as (m' & Hcopy & Hvalue & _).
  exists m'. split; [exact Hcopy | exact Hvalue].
Defined.

Lemma ZeroStructInRegisters_zeroes_every_unit_witness :
  exists m',
    @UnixAmd64.ZeroStructInRegisters (unix_amd64 true)
      (@struct_in_regs (unix_amd64 true) 4096 mixed_units) 12 (filled Byte.xaa) = Ok m'
    /\ Forall (fun slot => read_slot m' slot = repeat Byte.x00 (Z.to_nat (snd slot)))
              (unit_slots 4096 3968 mixed_units).
Proof.
  refine (proj2 (proj2 (@UnixAmd64Facts.ZeroStructInRegisters_zeroes_every_unit
                          (unix_amd64 true)
            (@struct_in_regs (unix_amd64 true) 4096 mixed_units)
            (desc_of_units mixed_units) {| m_eightBytes := mixed_units |}
            12 (filled Byte.xaa) _ _ _ _ _))).
  - split; reflexivity.
  - reflexivity.
  - consistent_layout.
  - reflexivity.
  - vm_compute. discriminate.
Defined.

(** A descriptor with an offset that is not the sentinel passes the
    assertion of the constructor. *)
Lemma ArgDestination_ctor_descriptor_without_sentinel :
  exists this,
    @ArgDestination_ctor (unix_amd64 true) 4096 0 (Some (desc_of_units scenario_B))
    = Ok this
    /\ ~ (m_argLocDescForStructInRegs this <> None
          <-> m_offset this = @TransitionBlock_StructInRegsOffset (unix_amd64 true)).
Proof.
  eexists. split; [reflexivity |].
  intros [Hsentinel _]. simpl in Hsentinel.
  assert (E : 0 = -2) by (apply Hsentinel; discriminate).
  discriminate E.
Qed.

Lemma ArgDestination_ctor_descriptor_witness :
  m_argLocDescForStructInRegs (@struct_in_regs (unix_amd64 true) 4096 scenario_B) <> None.
Proof.
  refine (proj1 (proj2 (@DestinationOffset.ArgDestination_ctor_descriptor (unix_amd64 true)))
            eq_refl eq_refl 4096 (-2) (Some (desc_of_units scenario_B))
            (@struct_in_regs (unix_amd64 true) 4096 scenario_B) _ _).
  - reflexivity.
  - reflexivity.
Defined.

Lemma empty_layout_is_a_no_op_witness :
  @UnixAmd64.CopyStructToRegisters (unix_amd64 true)
    (@struct_in_regs (unix_amd64 true) 4096 []) [] 0 0 (filled Byte.xaa)
  = Ok (filled Byte.xaa)
  /\ @UnixAmd64.ReportPointersFromStructInRegisters (unix_amd64 true) unit (list (Z * Z))
       (@struct_in_regs (unix_amd64 true) 4096 []) record_call tt 0 []
     = Ok [].
Proof.
  destruct (@UnixAmd64Facts.empty_layout_is_a_no_op (unix_amd64 true) unit (list (Z * Z))
              (@struct_in_regs (unix_amd64 true) 4096 []) (desc_of_units [])
              [] (filled Byte.xaa) record_call tt []
              (conj eq_refl eq_refl) eq_refl)
    as (Hcopy & _ & Hreport & _).
  split; [exact (proj1 (Hcopy 0 ltac:(lia))) | exact Hreport].
Defined.

Lemma ZeroStructInRegisters_stays_in_buffer_witness :
  @UnixAmd64.ZeroStructInRegisters (unix_amd64 true)
    (@struct_in_regs (unix_amd64 true) 4096 mixed_units) 24 (filled Byte.xaa)
  = AssertFailed
  /\ @UnixAmd64.ZeroStructInRegisters (unix_amd64 true)
       (@struct_in_regs (unix_amd64 true) 4096 mixed_units) 12 (filled Byte.xaa)
     <> Undefined.
Proof.
  split.
  - refine (proj1 (proj2 (@UnixAmd64Facts.ZeroStructInRegisters_stays_in_buffer
                            (unix_amd64 true)
              (@struct_in_regs (unix_amd64 true) 4096 mixed_units)
              (desc_of_units mixed_units) {| m_eightBytes := mixed_units |}
              24 (filled Byte.xaa) _ _ _)) eq_refl _).
    + split; reflexivity.
    + repeat constructor; simpl; lia.
    + simpl. lia.
    + simpl. lia.
  - refine (proj1 (proj2 (proj2 (proj2 (@UnixAmd64Facts.ZeroStructInRegisters_stays_in_buffer
                                          (unix_amd64 true)
              (@struct_in_regs (unix_amd64 true) 4096 mixed_units)
              (desc_of_units mixed_units) {| m_eightBytes := mixed_units |}
              12 (filled Byte.xaa) _ _ _)) _)) eq_refl).
    + split; reflexivity.
    + repeat constructor; simpl; lia.
    + simpl. lia.
    + simpl. lia.
Defined.

(** ** Further runs of the model *)

(** Scenario B on a checked System V build: one invocation, for the
    second unit, without the interior flag. *)
Example scenario_B_reports_one_reference :
  @UnixAmd64.ReportPointersFromStructInRegisters (unix_amd64 true) unit (list (Z * Z))
    (@struct_in_regs (unix_amd64 true) 4096 scenario_B) record_call tt 16 []
  = Ok [(4104, 0)].
Proof. vm_compute. reflexivity. Qed.

(** A layout whose sizes do not sum to the declared size halts a checked
    build at the final assertion. *)
Example corrupted_layout_is_detected :
  @UnixAmd64.ReportPointersFromStructInRegisters (unix_amd64 true) unit (list (Z * Z))
    (@struct_in_regs (unix_amd64 true) 4096 scenario_B) record_call tt 24 []
  = AssertFailed.
Proof. vm_compute. reflexivity. Qed.

(** A double and an [int]: the double goes to the first floating
    register, the four bytes of the [int] to the first integer register. *)
Example mixed_units_are_scattered :
  exists m',
    @UnixAmd64.CopyStructToRegisters (unix_amd64 true)
      (@struct_in_regs (unix_amd64 true) 4096 mixed_units)
      bytes_1_to_16 12 0 (filled Byte.xaa) = Ok m'
    /\ load_bytes m' 3968 8 = bytes_1_to_8
    /\ load_bytes m' 4096 8
       = [Byte.x99; Byte.xa1; Byte.xa2; Byte.xa3; Byte.xaa; Byte.xaa; Byte.xaa; Byte.xaa].
Proof.
  eexists. split; [vm_compute; reflexivity |]. split; vm_compute; reflexivity.
Qed.

(** On System V a floating unit that is visited after a destination
    offset is written to the first floating register: the offset only moves
    the integer cursor. *)
Example offset_leaves_floating_cursor :
  exists m',
    @UnixAmd64.CopyStructToRegisters (unix_amd64 true)
      (@struct_in_regs (unix_amd64 true) 4096
         [unit_of SystemVClassificationTypeInteger 8;
          unit_of SystemVClassificationTypeSSE 8])
      bytes_1_to_8 8 8 (filled Byte.xaa) = Ok m'
    /\ load_bytes m' 3968 8 = bytes_1_to_8
    /\ load_bytes m' 4096 8 = repeat Byte.xaa 8.
Proof.
  eexists. split; [vm_compute; reflexivity |]. split; vm_compute; reflexivity.
Qed.

(** Scenario A on LoongArch64, where [NanBox] is 0: the 4 byte value is
    widened by the sign extension of the [INT32] read alone. *)
Example loongarch64_widens_by_sign :
  (exists m',
     @FpStructAbi.CopyStructToRegisters (loongarch64 true)
       (fpstruct_in_regs 4096 scenario_A_desc)
       [Byte.x01; Byte.x00; Byte.x00; Byte.x00; Byte.x00; Byte.x00; Byte.x80; Byte.x3f]
       8 0 (filled Byte.xaa) = Ok m'
     /\ load_UINT64 m' (4096 - 64) = 0x000000003f800000)
  /\ (exists m',
        @FpStructAbi.CopyStructToRegisters (loongarch64 true)
          (fpstruct_in_regs 4096 scenario_A_desc)
          [Byte.x01; Byte.x00; Byte.x00; Byte.x00; Byte.x00; Byte.x00; Byte.x80; Byte.xbf]
          8 0 (filled Byte.xaa) = Ok m'
        /\ load_UINT64 m' (4096 - 64) = 0xffffffffbf800000).
Proof.
  split; eexists; (split; [vm_compute; reflexivity |]); vm_compute; reflexivity.
Qed.

(** A checked RISC-V build leaves its pattern in the upper bytes of the
    integer register. *)
Example riscv64_trashes_upper_bytes :
  exists m',
    @FpStructAbi.CopyStructToRegisters (riscv64 true)
      (fpstruct_in_regs 4096 scenario_A_desc) bytes_1_to_8 8 0 (filled Byte.xaa) = Ok m'
    /\ load_bytes m' (4096 + 128) 8
       = [Byte.x11; Byte.x22; Byte.x33; Byte.x44; Byte.xed; Byte.xdd; Byte.xda; Byte.xda].
Proof.
  eexists. split; [vm_compute; reflexivity |]. vm_compute. reflexivity.
Qed.

(** On ARM64 a destination of a homogeneous floating aggregate carries a
    descriptor and an ordinary offset into the floating registers. *)
Example arm64_descriptor_with_ordinary_offset :
  @ArgDestination_ctor (arm64 true) 4096 (-128) (Some (desc_of_hfa 2 4))
  = Ok (hfa_in_regs 4096 (-128) 2 4).
Proof. reflexivity. Qed.

(** Two floats of a homogeneous floating aggregate, each in a slot of
    its own, the rest of the slot zero. *)
Example two_float_hfa :
  exists m',
    Arm64.CopyHFAStructToRegister (hfa_in_regs 4096 (-128) 2 4) bytes_1_to_8 8
      (filled Byte.xaa) = Ok m'
    /\ load_bytes m' (4096 - 128) 16
       = [Byte.x11; Byte.x22; Byte.x33; Byte.x44] ++ repeat Byte.x00 12
    /\ load_bytes m' (4096 - 128 + 16) 16
       = [Byte.x55; Byte.x66; Byte.x77; Byte.x88] ++ repeat Byte.x00 12.
Proof.
  eexists. split; [vm_compute; reflexivity |]. split; vm_compute; reflexivity.
Qed.

(** * Concrete runs of the patching helpers, the serializers and the
    round trips *)



(** [add x0, x0, #0] with the offset 0x123. *)
Lemma PutArm64Rel12_round_trip_witness :
  Z.land (Z.shiftr (load_UINT32
                      (SpmiUtil.PutArm64Rel12
                         (code_at_0 [Byte.x00; Byte.x00; Byte.x00; Byte.x91]) 0 0x123) 0)
                   10) 0xFFF
  = 0x123.
Proof.
  assert (Hrange : 0 <= 0x123 < 2 ^ 12) by (change (2 ^ 12) with 4096; lia).
  exact (proj1 (proj2 (SpmiUtilFacts.PutArm64Rel12_round_trip
                         (code_at_0 [Byte.x00; Byte.x00; Byte.x00; Byte.x91]) 0 0x123
                         Hrange))).
Defined.

(** [f2ab8640  movk x0, #23602, lsl #16], the constant replaced by 0xBEEF. *)
Lemma PutArm64MovkConstant_round_trip_witness :
  SpmiUtil.GetArm64MovkConstant
    (SpmiUtil.PutArm64MovkConstant
       (code_at_0 [Byte.x40; Byte.x86; Byte.xab; Byte.xf2]) 0 0xBEEF) 0
  = Some (0, 0xBEEF, 16).
Proof.
  assert (Hget : SpmiUtil.GetArm64MovkConstant
                   (code_at_0 [Byte.x40; Byte.x86; Byte.xab; Byte.xf2]) 0
                 = Some (0, 23602, 16)) by (vm_compute; reflexivity).
  exact (proj1 (SpmiUtilFacts.PutArm64MovkConstant_round_trip
                  (code_at_0 [Byte.x40; Byte.x86; Byte.xab; Byte.xf2]) 0 0xBEEF
                  0 23602 16 Hget)).
Defined.

(** [4b f2 33 40  movw r0, #46131], the constant replaced by 0x1234. *)
Lemma PutThumb2Imm16_round_trip_witness :
  SpmiUtil.ExtractArm32MovImm
    (thumb2_instruction
       (SpmiUtil.PutThumb2Imm16
          (code_at_0 [Byte.x4b; Byte.xf2; Byte.x33; Byte.x40]) 0 0x1234) 0)
  = 0x1234.
Proof.
  assert (Himm : 0 <= 0x1234 < 2 ^ 16) by (change (2 ^ 16) with 65536; lia).
  exact (proj1 (SpmiUtilFacts.PutThumb2Imm16_round_trip
                  (code_at_0 [Byte.x4b; Byte.xf2; Byte.x33; Byte.x40]) 0 0x1234 Himm)).
Defined.

(** [movw r0, #46131; movt r0, #889], made to load 0x12345678. *)
Lemma PutThumb2Mov32_decoded_witness :
  exists lo hi,
    SpmiUtil.GetArm32MovwConstant
      (SpmiUtil.PutThumb2Mov32
         (code_at_0 [Byte.x4b; Byte.xf2; Byte.x33; Byte.x40;
                     Byte.xc0; Byte.xf2; Byte.x79; Byte.x30]) 0 0x12345678) 0
    = Some (0, lo)
    /\ SpmiUtil.GetArm32MovtConstant
         (SpmiUtil.PutThumb2Mov32
            (code_at_0 [Byte.x4b; Byte.xf2; Byte.x33; Byte.x40;
                        Byte.xc0; Byte.xf2; Byte.x79; Byte.x30]) 0 0x12345678) 4
       = Some (0, hi)
    /\ lo + 2 ^ 16 * hi = 0x12345678.
Proof.
  assert (Himm : 0 <= 0x12345678 < 2 ^ 32) by (change (2 ^ 32) with 4294967296; lia).
  assert (Hw : SpmiUtil.GetArm32MovwConstant
                 (code_at_0 [Byte.x4b; Byte.xf2; Byte.x33; Byte.x40;
                             Byte.xc0; Byte.xf2; Byte.x79; Byte.x30]) 0
               = Some (0, 46131)) by (vm_compute; reflexivity).
  assert (Ht : SpmiUtil.GetArm32MovtConstant
                 (code_at_0 [Byte.x4b; Byte.xf2; Byte.x33; Byte.x40;
                             Byte.xc0; Byte.xf2; Byte.x79; Byte.x30]) (0 + 4)
               = Some (0, 889)) by (vm_compute; reflexivity).
  destruct (SpmiUtilFacts.PutThumb2Mov32_decoded
              (code_at_0 [Byte.x4b; Byte.xf2; Byte.x33; Byte.x40;
                          Byte.xc0; Byte.xf2; Byte.x79; Byte.x30]) 0 0x12345678
              0 46131 0 889 Himm Hw Ht) as (lo & hi & H1 & H2 & H3 & _).
  exists lo, hi. split; [exact H1 |]. split; [exact H2 | exact H3].
Defined.


(** A name with a quote and a dot: the quote becomes a space, the dot an
    underscore. *)
Lemma ReplaceIllegalCharacters_sanitises_witness :
  exists name',
    SpmiUtil.ReplaceIllegalCharacters
      ([SpmiUtil.W "a"%char; SpmiUtil.quote_character; SpmiUtil.W "b"%char; SpmiUtil.W "."%char;
        SpmiUtil.W "c"%char] ++ [0])
    = Ok (name' ++ [0])
    /\ Forall (fun ch => allowed_character ch = true) name'.
Proof.
  assert (Hname : Forall (fun ch => ch <> 0)
                    [SpmiUtil.W "a"%char; SpmiUtil.quote_character; SpmiUtil.W "b"%char;
                     SpmiUtil.W "."%char; SpmiUtil.W "c"%char])
    by (repeat (constructor; [vm_compute; discriminate |]); constructor).
  destruct (SpmiUtilFacts.ReplaceIllegalCharacters_sanitises
              [SpmiUtil.W "a"%char; SpmiUtil.quote_character; SpmiUtil.W "b"%char;
               SpmiUtil.W "."%char; SpmiUtil.W "c"%char] [] Hname)
    as (name' & Hrun & _ & Hallowed & _).
  exists name'. split; [exact Hrun | exact Hallowed].
Defined.


(** An event of a byte, a 16 bit and a 32 bit value on a little endian
    host. *)
Lemma Serialize_list_layout_witness :
  let buf := {| gc_event.buffer := 100; gc_event.written := fun _ => Byte.xaa |} in
  let buf' :=
    gc_event.Serialize_list buf
      (@gc_event.arg _ (@gc_event.EventSerializationTraits_uint8_t) (gc_event.UINT8 1))
      [@gc_event.arg _ (@gc_event.EventSerializationTraits_uint16_t little_endian_host)
         (gc_event.UINT16 0x0203);
       @gc_event.arg _ (@gc_event.EventSerializationTraits_uint32_t little_endian_host)
         (gc_event.UINT32 0x04050607)] in
  gc_event.buffer buf' = 107
  /\ load_bytes (gc_event.written buf') 100 7
     = [Byte.x01; Byte.x03; Byte.x02; Byte.x07; Byte.x06; Byte.x05; Byte.x04].
Proof.
  assert (Hall : Forall2 serializes_as
            [@gc_event.arg _ (@gc_event.EventSerializationTraits_uint8_t) (gc_event.UINT8 1);
             @gc_event.arg _ (@gc_event.EventSerializationTraits_uint16_t little_endian_host)
               (gc_event.UINT16 0x0203);
             @gc_event.arg _ (@gc_event.EventSerializationTraits_uint32_t little_endian_host)
               (gc_event.UINT32 0x04050607)]
            [[Byte.x01]; [Byte.x03; Byte.x02]; [Byte.x07; Byte.x06; Byte.x05; Byte.x04]])
    by (repeat (constructor; [split; [intros out |]; reflexivity |]); constructor).
  destruct (gc_event_facts.Serialize_list_layout _ _ _
              {| gc_event.buffer := 100; gc_event.written := fun _ => Byte.xaa |} Hall)
    as (_ & _ & Hbuf & Hbytes & _).
  split; [exact Hbuf | exact Hbytes].
Defined.

(** A double and an [int] in a floating and an integer register. *)
Lemma CopyStructToRegisters_round_trip_witness :
  exists m',
    @UnixAmd64.CopyStructToRegisters (unix_amd64 true)
      (@struct_in_regs (unix_amd64 true) 4096 mixed_units)
      bytes_1_to_16 12 0 (filled Byte.xaa) = Ok m'
    /\ gather m' (unit_slots 4096 3968 mixed_units) = firstn 12 bytes_1_to_16.
Proof.
  destruct (@ScatterGather.CopyStructToRegisters_round_trip (unix_amd64 true)
              (@struct_in_regs (unix_amd64 true) 4096 mixed_units)
              (desc_of_units mixed_units) {| m_eightBytes := mixed_units |}
              bytes_1_to_16 12 (filled Byte.xaa))
    as (m' & Hrun & Hgather & _).
  - split; reflexivity.
  - reflexivity.
  - consistent_layout.
  - reflexivity.
  - simpl. lia.
  - left. vm_compute. discriminate.
  - exists m'. split; [exact Hrun | exact Hgather].
Defined.

Lemma CopyStructToRegisters_overwrites_witness :
  exists zeroed copied,
    @UnixAmd64.ZeroStructInRegisters (unix_amd64 true)
      (@struct_in_regs (unix_amd64 true) 4096 mixed_units) 12 (filled Byte.xaa)
    = Ok zeroed
    /\ @UnixAmd64.CopyStructToRegisters (unix_amd64 true)
         (@struct_in_regs (unix_amd64 true) 4096 mixed_units)
         bytes_1_to_16 12 0 (filled Byte.xaa) = Ok copied
    /\ exists m',
         @UnixAmd64.CopyStructToRegisters (unix_amd64 true)
           (@struct_in_regs (unix_amd64 true) 4096 mixed_units)
           bytes_1_to_16 12 0 zeroed = Ok m'
         /\ forall x, m' x = copied x.
Proof.
  destruct (@ScatterGather.CopyStructToRegisters_overwrites (unix_amd64 true)
              (@struct_in_regs (unix_amd64 true) 4096 mixed_units)
              (desc_of_units mixed_units) {| m_eightBytes := mixed_units |}
              bytes_1_to_16 12 (filled Byte.xaa))
    as (zeroed & copied & Hz & Hc & Hzc & _).
  - split; reflexivity.
  - reflexivity.
  - consistent_layout.
  - reflexivity.
  - simpl. lia.
  - vm_compute. discriminate.
  - exists zeroed, copied. split; [exact Hz |]. split; [exact Hc | exact Hzc].
Defined.

Lemma checked_build_validates_layout_witness :
  exists m',
    @UnixAmd64.CopyStructToRegisters (unix_amd64 true)
      (@struct_in_regs (unix_amd64 true) 4096 mixed_units)
      bytes_1_to_16 12 0 (filled Byte.xaa) = Ok m'.
Proof.
  apply (proj2 (@ScatterGather.checked_build_validates_layout (unix_amd64 true)
                  (@struct_in_regs (unix_amd64 true) 4096 mixed_units)
                  (desc_of_units mixed_units) {| m_eightBytes := mixed_units |}
                  bytes_1_to_16 12 (filled Byte.xaa) eq_refl (conj eq_refl eq_refl))).
  split; [reflexivity |]. split; [consistent_layout |].
  split; [reflexivity | simpl; lia].
Defined.

(** Scenario B, scattered and then reported: the one call is for the
    second register, which holds the bytes 8 to 15 of the source. *)
Lemma reported_references_are_the_copied_ones_witness :
  exists m' calls,
    @UnixAmd64.CopyStructToRegisters (unix_amd64 true)
      (@struct_in_regs (unix_amd64 true) 4096 scenario_B)
      bytes_1_to_16 16 0 (filled Byte.xaa) = Ok m'
    /\ @UnixAmd64.ReportPointersFromStructInRegisters (unix_amd64 true)
         unit (list (Z * Z)) (@struct_in_regs (unix_amd64 true) 4096 scenario_B)
         record_call tt 16 [] = Ok calls
    /\ map fst calls = [4104]
    /\ load_bytes m' 4104 8 = skipn 8 bytes_1_to_16.
Proof.
  destruct (@ScatterGather.reported_references_are_the_copied_ones (unix_amd64 true)
              (@struct_in_regs (unix_amd64 true) 4096 scenario_B)
              (desc_of_units scenario_B) {| m_eightBytes := scenario_B |}
              bytes_1_to_16 16 (filled Byte.xaa))
    as (m' & calls & Hrun & Hreport & Hcalls & Hrefs).
  - split; reflexivity.
  - reflexivity.
  - unfold copy_consistent, placed; simpl.
    repeat (apply Forall_cons || apply Forall_nil);
      (split; [unfold copyable_unit; simpl; lia | intros; vm_compute; reflexivity]).
  - reflexivity.
  - simpl. lia.
  - left. vm_compute. discriminate.
  - exists m', calls. split; [exact Hrun |]. split; [exact Hreport |].
    split; [exact Hcalls |].
    inversion Hrefs as [| p ps [Hload _] _]; subst. exact Hload.
Defined.

(** Two floats of a homogeneous floating aggregate. *)
Lemma CopyHFAStructToRegister_round_trip_witness :
  exists m',
    Arm64.CopyHFAStructToRegister (hfa_in_regs 4096 0 2 4) bytes_1_to_8 8
      (filled Byte.xaa) = Ok m'
    /\ gather m' (hfa_slots 4096 4 2) = bytes_1_to_8.
Proof.
  destruct (HfaGather.CopyHFAStructToRegister_round_trip
              (hfa_in_regs 4096 0 2 4) (desc_of_hfa 2 4) bytes_1_to_8 8
              (filled Byte.xaa))
    as (m' & Hrun & Hgather).
  - reflexivity.
  - left. reflexivity.
  - simpl. lia.
  - simpl. lia.
  - exists m'. split; [exact Hrun | exact Hgather].
Defined.

(** A destination without a descriptor: a checked build halts. *)
Lemma composite_operations_need_a_descriptor_witness :
  @UnixAmd64.CopyStructToRegisters (unix_amd64 true)
    {| m_base := 4096; m_offset := 0; m_argLocDescForStructInRegs := None |}
    bytes_1_to_8 8 0 (filled Byte.xaa) = AssertFailed
  /\ never_succeeds
       (Arm64.CopyHFAStructToRegister
          {| m_base := 4096; m_offset := 0; m_argLocDescForStructInRegs := None |}
          bytes_1_to_8 8 (filled Byte.xaa)).
Proof.
  destruct (@Misuse.composite_operations_need_a_descriptor (unix_amd64 true)
              unit (list (Z * Z))
              {| m_base := 4096; m_offset := 0; m_argLocDescForStructInRegs := None |}
              bytes_1_to_8 8 0 (filled Byte.xaa) record_call tt [] eq_refl)
    as [(_ & _ & _ & _ & _ & Hhfa & _) Hchecked].
  destruct (Hchecked eq_refl eq_refl eq_refl) as (_ & _ & Hcopy & _).
  split; [exact Hcopy | exact Hhfa].
Defined.

(** Scenario A on RISC-V: a byte outside of the two registers keeps
    its value. *)
Lemma CopyStructToRegisters_stays_in_registers_witness :
  exists m',
    @FpStructAbi.CopyStructToRegisters (riscv64 false)
      (fpstruct_in_regs 4096 scenario_A_desc) bytes_1_to_8 8 0 (filled Byte.xaa)
    = Ok m'
    /\ (forall x, x < 4032 \/ 4040 <= x -> x < 4224 \/ 4232 <= x ->
                  m' x = Byte.xaa).
Proof.
  pose proof (@FpStructFrame.CopyStructToRegisters_stays_in_registers (riscv64 false)
                (fpstruct_in_regs 4096 scenario_A_desc) scenario_A_desc
                bytes_1_to_8 8 0 (filled Byte.xaa) eq_refl) as Hframe.
  cbv zeta in Hframe.
  destruct (@FpStructAbi.CopyStructToRegisters (riscv64 false)
              (fpstruct_in_regs 4096 scenario_A_desc) bytes_1_to_8 8 0
              (filled Byte.xaa)) as [m' | |] eqn:Erun.
  - exists m'. split; [reflexivity |].
    intros x Hf Hi. apply Hframe; [exact Hf | right; exact Hi].
  - vm_compute in Erun. discriminate Erun.
  - vm_compute in Erun. discriminate Erun.
Defined.
